(** * The PDF interactive-form engine, in Rocq

    A shallow embedding of the form-filling scripts

      - [scripts/pdf_validate_boxes.py]   (geometry validator),
      - [scripts/pdf_fill_annotations.py] (overlay filler),
      - [scripts/pdf_extract_fields.py]   (field schema extractor),
      - [scripts/pdf_fill_form.py]        (value validator, native filler),
      - [scripts/pdf_check_form.py]       (form probe),

    followed by the properties of the design document that concern them.
    Each Python function keeps its name; every definition is written from
    the body of the function it is named after. *)

From Stdlib Require Import ZArith QArith Qabs String Ascii DecimalString Bool Lia Lqa.
From Stdlib Require Import List Sorted Permutation.
Import ListNotations.

Local Open Scope string_scope.
Local Open Scope list_scope.
Local Open Scope Z_scope.

(* ===================================================================== *)
(** * Part I: the programs                                                *)
(* ===================================================================== *)

(** ** Python values shared by the scripts *)

Module Py.

(** The exceptions that the modelled code can raise, and [sys.exit]. *)
Inductive exn : Type :=
| KeyError (key : string)
| IndexError
| SystemExit (code : Z).

(** What running a function gives: a value, an exception, or nothing at
    all when the iterations granted to a [while] loop are used up. *)
Inductive outcome (A : Type) : Type :=
| Done (a : A)
| Raised (e : exn)
| OutOfFuel.

Arguments Done {A}.
Arguments Raised {A}.
Arguments OutOfFuel {A}.

Definition bind {A B : Type} (m : outcome A) (k : A -> outcome B) : outcome B :=
  match m with
  | Done a => k a
  | Raised e => Raised e
  | OutOfFuel => OutOfFuel
  end.

(** A [dict] with string keys.  Python dictionaries keep their keys in
    insertion order and the code iterates over them, so the model is the
    list of items in that order. *)
Definition dict (V : Type) : Type := list (string * V).

(** [d.get(k)] *)
Fixpoint dict_get {V : Type} (k : string) (d : dict V) : option V :=
  match d with
  | [] => None
  | (k', v) :: d' => if String.eqb k k' then Some v else dict_get k d'
  end.

(** [k in d] *)
Definition dict_mem {V : Type} (k : string) (d : dict V) : bool :=
  match dict_get k d with Some _ => true | None => false end.

(** [d[k] = v]: the value of an existing key is replaced where it stands, a
    new key goes to the end. *)
Fixpoint dict_set {V : Type} (k : string) (v : V) (d : dict V) : dict V :=
  match d with
  | [] => [(k, v)]
  | (k', v') :: d' =>
      if String.eqb k k' then (k', v) :: d' else (k', v') :: dict_set k v d'
  end.

(** [d.values()] *)
Definition dict_values {V : Type} (d : dict V) : list V := map snd d.

End Py.

Notation "x <- m ;; k" := (Py.bind m (fun x => k))
  (at level 61, m at next level, right associativity).

(** ** [pdf_validate_boxes.py] *)

Module Boxes.

(** A bounding box of [fields.json] is a four-element JSON array of pixel
    coordinates.  The code only ever reads it by index, [r[0]] .. [r[3]];
    the four projections are named after the index they stand for.  In
    image space the indices mean [left, top, right, bottom]. *)
Record rect : Type := Rect { ix0 : Z; ix1 : Z; ix2 : Z; ix3 : Z }.

(** [def rects_intersect(r1, r2)]: Python's [or] and [not] on booleans. *)
Definition rects_intersect (r1 r2 : rect) : bool :=
  let disjoint_horizontal := (ix0 r1 >=? ix2 r2) || (ix2 r1 <=? ix0 r2) in
  let disjoint_vertical := (ix1 r1 >=? ix3 r2) || (ix3 r1 <=? ix1 r2) in
  negb (disjoint_horizontal || disjoint_vertical).

(** The optional ["entry_text"] object of a form field.  Only its
    ["font_size"] key is read by the validator; [None] is an absent key. *)
Record entry_text_info : Type := EntryText { font_size : option Z }.

(** One element of [fields_data["form_fields"]]. *)
Record form_field : Type := FormField {
  description : string;
  page_number : Z;
  label_bounding_box : rect;
  entry_bounding_box : rect;
  entry_text : option entry_text_info
}.

Inductive box_kind : Type := Label | Entry.

(** [@dataclass class RectAndField].  The [field] attribute is a reference
    to the dictionary of the form field: [ri.field is rj.field] compares
    identities, not contents, so the reference is kept next to the record it
    points to.  The reference is the position of the dictionary in
    [form_fields]. *)
Record RectAndField : Type := MkRectAndField {
  raf_rect : rect;
  rect_type : box_kind;
  field_ref : nat;
  field : form_field
}.

(** The messages the validator appends, one constructor per f-string:
    - [MsgRead n]: "Read {n} fields";
    - [MsgSameField d ri rj]: "FAILURE: intersection between label and entry
      bounding boxes for `{d}` ({ri}, {rj})";
    - [MsgIntersect ti di ri tj dj rj]: "FAILURE: intersection between {ti}
      bounding box for `{di}` ({ri}) and {tj} bounding box for `{dj}` ({rj})";
    - [MsgTooShort h d fs]: "FAILURE: entry bounding box height ({h}) for
      `{d}` is too short for the text content (font size: {fs}). ...";
    - [MsgAbort]: "Aborting further checks; fix bounding boxes and try again";
    - [MsgSuccess]: "SUCCESS: All bounding boxes are valid". *)
Inductive message : Type :=
| MsgRead (n : nat)
| MsgSameField (d : string) (ri rj : rect)
| MsgIntersect (ti : box_kind) (di : string) (ri : rect)
               (tj : box_kind) (dj : string) (rj : rect)
| MsgTooShort (h : Z) (d : string) (fs : Z)
| MsgAbort
| MsgSuccess.

(** The first loop of [get_bounding_box_messages]: a label record and an
    entry record per field, in this order. *)
Fixpoint rects_of (k : nat) (fs : list form_field) : list RectAndField :=
  match fs with
  | [] => []
  | f :: fs' =>
      MkRectAndField (label_bounding_box f) Label k f ::
      MkRectAndField (entry_bounding_box f) Entry k f ::
      rects_of (S k) fs'
  end.

(** The state of the two nested loops is the pair ([messages],
    [has_error]); a loop either runs to its end with a new state or leaves
    the function through one of the two [return messages]. *)
Definition loop_state : Type := (list message * bool)%type.

Inductive flow : Type :=
| Next (s : loop_state)
| Return (messages : list message).

(** The message of an intersecting pair. *)
Definition intersection_message (ri rj : RectAndField) : message :=
  if Nat.eqb (field_ref ri) (field_ref rj)
  then MsgSameField (description (field ri)) (raf_rect ri) (raf_rect rj)
  else MsgIntersect (rect_type ri) (description (field ri)) (raf_rect ri)
                    (rect_type rj) (description (field rj)) (raf_rect rj).

(** [messages.append(m)] followed by the guard
    [if len(messages) >= 20: messages.append("Aborting ..."); return messages]. *)
Definition append_checked (m : message) (s : loop_state) : flow :=
  let messages := fst s ++ [m] in
  if (20 <=? length messages)%nat
  then Return (messages ++ [MsgAbort])
  else Next (messages, true).

(** [for j in range(i + 1, len(rects_and_fields))]: [rest] are the records
    after [ri]. *)
Fixpoint inner_loop (ri : RectAndField) (rest : list RectAndField)
    (s : loop_state) : flow :=
  match rest with
  | [] => Next s
  | rj :: rest' =>
      if (page_number (field ri) =? page_number (field rj))
         && rects_intersect (raf_rect ri) (raf_rect rj)
      then match append_checked (intersection_message ri rj) s with
           | Return ms => Return ms
           | Next s' => inner_loop ri rest' s'
           end
      else inner_loop ri rest' s
  end.

(** The height check at the end of the body of the outer loop. *)
Definition height_check (ri : RectAndField) (s : loop_state) : flow :=
  match rect_type ri with
  | Entry =>
      match entry_text (field ri) with
      | Some et =>
          let font_size := match font_size et with Some n => n | None => 14 end in
          let entry_height := ix3 (raf_rect ri) - ix1 (raf_rect ri) in
          if entry_height <? font_size
          then append_checked
                 (MsgTooShort entry_height (description (field ri)) font_size) s
          else Next s
      | None => Next s
      end
  | Label => Next s
  end.

(** [for i, ri in enumerate(rects_and_fields)]. *)
Fixpoint outer_loop (l : list RectAndField) (s : loop_state) : flow :=
  match l with
  | [] => Next s
  | ri :: rest =>
      match inner_loop ri rest s with
      | Return ms => Return ms
      | Next s1 =>
          match height_check ri s1 with
          | Return ms => Return ms
          | Next s2 => outer_loop rest s2
          end
      end
  end.

(** [def get_bounding_box_messages(fields_data)], on
    [fields_data["form_fields"]]. *)
Definition get_bounding_box_messages (form_fields : list form_field)
    : list message :=
  let messages := [MsgRead (length form_fields)] in
  let rects_and_fields := rects_of 0 form_fields in
  match outer_loop rects_and_fields (messages, false) with
  | Return ms => ms
  | Next (messages, has_error) =>
      if negb has_error then messages ++ [MsgSuccess] else messages
  end.

(** *** The findings, without the bound

    The design document speaks of the findings of the validator: every
    intersecting pair of boxes of one page and every entry box that is too
    short.  [all_findings] lists them in the order of the two loops, with
    no bound on their number; the statements about the bound compare the
    output of [get_bounding_box_messages] with this list. *)

Definition pair_findings (ri : RectAndField) (rest : list RectAndField)
    : list message :=
  flat_map
    (fun rj =>
       if (page_number (field ri) =? page_number (field rj))
          && rects_intersect (raf_rect ri) (raf_rect rj)
       then [intersection_message ri rj] else [])
    rest.

Definition height_finding (ri : RectAndField) : list message :=
  match rect_type ri, entry_text (field ri) with
  | Entry, Some et =>
      let size := match font_size et with Some n => n | None => 14 end in
      let height := ix3 (raf_rect ri) - ix1 (raf_rect ri) in
      if height <? size then [MsgTooShort height (description (field ri)) size]
      else []
  | _, _ => []
  end.

Fixpoint all_findings (l : list RectAndField) : list message :=
  match l with
  | [] => []
  | ri :: rest => pair_findings ri rest ++ height_finding ri ++ all_findings rest
  end.

(** Appending the findings [f] one at a time to the messages of the state
    [s], each [append] followed by the guard on the length: what the two
    loops do with the findings they come across. *)
Definition emit (f : list message) (s : loop_state) : flow :=
  if (length (fst s) + length f <? 20)%nat
  then Next (fst s ++ f, match f with [] => snd s | _ => true end)
  else Return (firstn 20 (fst s ++ f) ++ [MsgAbort]).

Definition below_bound (s : loop_state) : Prop := (length (fst s) < 20)%nat.

(** The messages that report a finding. *)
Definition is_finding (m : message) : bool :=
  match m with
  | MsgSameField _ _ _ | MsgIntersect _ _ _ _ _ _ | MsgTooShort _ _ _ => true
  | _ => false
  end.

(** The font size the height check uses for a text metadata object. *)
Definition size_of (et : entry_text_info) : Z :=
  match font_size et with Some n => n | None => 14 end.

Definition entry_height (f : form_field) : Z :=
  ix3 (entry_bounding_box f) - ix1 (entry_bounding_box f).

(** The fixture of the test of the bound: [n] fields on page 1 with the
    same label box and the same entry box, described "Field0", "Field1",
    and so on. *)
Definition overlapping_fields (n : nat) : list form_field :=
  map (fun i =>
         FormField ("Field" ++ NilZero.string_of_uint (Nat.to_uint i))%string 1
                   (Rect 10 10 100 30) (Rect 110 10 200 30) None)
      (seq 0 n).

(** The same crowd with text metadata: every entry box has height 5 and
    font size 14. *)
Definition crowded_fields (n : nat) : list form_field :=
  map (fun i =>
         FormField ("Field" ++ NilZero.string_of_uint (Nat.to_uint i))%string 1
                   (Rect 10 10 100 30) (Rect 110 10 200 15)
                   (Some (EntryText (Some 14))))
      (seq 0 n).

(** The "too short" messages. *)
Definition is_too_short (m : message) : bool :=
  match m with
  | MsgTooShort _ _ _ => true
  | _ => false
  end.

End Boxes.

(** ** [pdf_fill_annotations.py] *)

Module Overlay.

(** [transform_coordinates] is arithmetic on Python numbers: true division
    [/], multiplication and subtraction, each of which can raise.  The body
    is written once, over the three operations, and read twice below: with
    exact rational arithmetic, and with the arithmetic of Python, whose
    numbers are unbounded integers and IEEE 754 binary64 floats. *)
Inductive arith_error : Type :=
| ZeroDivisionError
| OverflowError.

Definition and_then {A B : Type} (m : arith_error + A)
    (k : A -> arith_error + B) : arith_error + B :=
  match m with
  | inl e => inl e
  | inr a => k a
  end.

Notation "'let!' x ':=' m 'in' k" := (and_then m (fun x => k))
  (at level 10, x name, m at level 100, k at level 200, only parsing).

Section TransformCoordinates.

Variable num : Type.
Variable mul : num -> num -> arith_error + num.
Variable sub : num -> num -> arith_error + num.
Variable div : num -> num -> arith_error + num.

(** [bbox] is read at the indices 0 to 3. *)
Record bbox : Type := BBox { b0 : num; b1 : num; b2 : num; b3 : num }.

(** The returned tuple [(left, bottom, right, top)]. *)
Record pdf_box : Type :=
  PdfBox { left : num; bottom : num; right : num; top : num }.

Definition transform_coordinates (bb : bbox)
    (image_width image_height pdf_width pdf_height : num)
    : arith_error + pdf_box :=
  let! x_scale := div pdf_width image_width in
  let! y_scale := div pdf_height image_height in
  let! left := mul (b0 bb) x_scale in
  let! right := mul (b2 bb) x_scale in
  let! top_offset := mul (b1 bb) y_scale in
  let! top := sub pdf_height top_offset in
  let! bottom_offset := mul (b3 bb) y_scale in
  let! bottom := sub pdf_height bottom_offset in
  inr (PdfBox left bottom right top).

End TransformCoordinates.

Arguments BBox {num}.
Arguments b0 {num}.
Arguments b1 {num}.
Arguments b2 {num}.
Arguments b3 {num}.
Arguments PdfBox {num}.
Arguments left {num}.
Arguments bottom {num}.
Arguments right {num}.
Arguments top {num}.
Arguments transform_coordinates {num}.

(** *** Exact arithmetic *)

Definition Qdiv_checked (x y : Q) : arith_error + Q :=
  if Qeq_bool y 0 then inl ZeroDivisionError else inr (x / y)%Q.

Definition transform_coordinates_exact :=
  transform_coordinates (fun x y : Q => inr (x * y)%Q)
                        (fun x y : Q => inr (x - y)%Q) Qdiv_checked.

(** *** The arithmetic of Python

    A finite float is a rational number; the result of an operation on
    finite floats is the exact result rounded to the nearest binary64
    value, ties to the even significand, and an infinity when the rounded
    value has magnitude 2^1024 or more.  The two zeros are one value, as
    they are for [==]: the sign of a zero never changes a result that is
    not a zero, nor an exception. *)

(** [n / d] rounded to the nearest integer, ties to even ([0 <= n], [0 < d]). *)
Definition round_half_even (n d : Z) : Z :=
  let q := n / d in
  let r := n mod d in
  match 2 * r ?= d with
  | Lt => q
  | Gt => q + 1
  | Eq => if Z.even q then q else q + 1
  end.

(** The exponent [e] with [2^e <= n / d < 2^(e+1)] ([0 < n], [0 < d]). *)
Definition floor_log2 (n d : Z) : Z :=
  let e0 := Z.log2 n - Z.log2 d in
  if n * 2 ^ Z.max 0 (- e0) <? d * 2 ^ Z.max 0 e0 then e0 - 1 else e0.

(** [m * 2^k] as a rational number. *)
Definition scale2 (m k : Z) : Q :=
  if k <? 0 then Qmake m (Z.to_pos (2 ^ (- k))) else inject_Z (m * 2 ^ k).

(** Binary64 has a significand of 53 bits and a least exponent of -1074;
    [b64_round] rounds as if there were no largest exponent. *)
Definition b64_round (x : Q) : Q :=
  let n := Qnum x in
  let d := Zpos (Qden x) in
  if n =? 0 then 0%Q
  else
    let a := Z.abs n in
    let k := Z.max (floor_log2 a d - 52) (- 1074) in
    let m := if k <? 0 then round_half_even (a * 2 ^ (- k)) d
             else round_half_even a (d * 2 ^ k) in
    Qred (scale2 (Z.sgn n * m) k).

Inductive float : Type :=
| Finite (q : Q)
| Inf (negative : bool)
| NaN.

Definition negative (q : Q) : bool := Qnum q <? 0.

(** The float nearest to a rational number. *)
Definition b64_of_Q (x : Q) : float :=
  let r := b64_round x in
  if Qle_bool (inject_Z (2 ^ 1024)) (Qabs r) then Inf (negative r)
  else Finite r.

(** [a * b], [a - b] and [a / b] on floats; only the division raises. *)
Definition float_mul (a b : float) : float :=
  match a, b with
  | NaN, _ | _, NaN => NaN
  | Inf s, Inf s' => Inf (xorb s s')
  | Inf s, Finite q | Finite q, Inf s =>
      if Qeq_bool q 0 then NaN else Inf (xorb s (negative q))
  | Finite x, Finite y => b64_of_Q (x * y)
  end.

Definition float_sub (a b : float) : float :=
  match a, b with
  | NaN, _ | _, NaN => NaN
  | Inf s, Inf s' => if Bool.eqb s s' then NaN else Inf s
  | Inf s, Finite _ => Inf s
  | Finite _, Inf s => Inf (negb s)
  | Finite x, Finite y => b64_of_Q (x - y)
  end.

Definition float_div (a b : float) : arith_error + float :=
  match b with
  | Finite y =>
      if Qeq_bool y 0 then inl ZeroDivisionError
      else inr match a with
               | NaN => NaN
               | Inf s => Inf (xorb s (negative y))
               | Finite x => b64_of_Q (x / y)
               end
  | Inf _ =>
      inr match a with
          | Finite _ => Finite 0
          | _ => NaN
          end
  | NaN => inr NaN
  end.

(** A number of [fields.json] or of the page: an [int] or a [float]. *)
Inductive number : Type :=
| Int (z : Z)
| Float (x : float).

(** The conversion of an operand to float: an [int] is rounded to the
    nearest float, and raises OverflowError when that is no finite
    float. *)
Definition as_float (n : number) : arith_error + float :=
  match n with
  | Int z =>
      match b64_of_Q (inject_Z z) with
      | Inf _ => inl OverflowError
      | x => inr x
      end
  | Float x => inr x
  end.

(** [a * b] and [a - b]: exact on two [int]s, on floats otherwise. *)
Definition number_mul (a b : number) : arith_error + number :=
  match a, b with
  | Int x, Int y => inr (Int (x * y))
  | _, _ =>
      let! x := as_float a in
      let! y := as_float b in
      inr (Float (float_mul x y))
  end.

Definition number_sub (a b : number) : arith_error + number :=
  match a, b with
  | Int x, Int y => inr (Int (x - y))
  | _, _ =>
      let! x := as_float a in
      let! y := as_float b in
      inr (Float (float_sub x y))
  end.

(** [a / b]: the quotient of two [int]s is rounded once, from the exact
    quotient, and raises OverflowError when it is too large for a float. *)
Definition number_truediv (a b : number) : arith_error + number :=
  match a, b with
  | Int x, Int y =>
      if y =? 0 then inl ZeroDivisionError
      else match b64_of_Q (inject_Z x / inject_Z y) with
           | Inf _ => inl OverflowError
           | q => inr (Float q)
           end
  | _, _ =>
      let! x := as_float a in
      let! y := as_float b in
      let! q := float_div x y in
      inr (Float q)
  end.

Definition transform_coordinates_b64 :=
  transform_coordinates number_mul number_sub number_truediv.

(** *** Operands and results within range

    [n] is an [int] of magnitude at most 2^53, or a finite float, and [q]
    is its value; such an [int] converts to float without rounding. *)
Definition plain (n : number) (q : Q) : Prop :=
  match n with
  | Int z => Z.abs z <= 2 ^ 53 /\ q = inject_Z z
  | Float (Finite x) => b64_round x = x /\ q = x
  | Float _ => False
  end.

(** The float nearest to [q] is finite. *)
Definition in_range (q : Q) : Prop :=
  (Qabs (b64_round q) < inject_Z (2 ^ 1024))%Q.

End Overlay.

(** ** [pdf_extract_fields.py] *)

Module Extract.
Import Py.

(** A ['/Rect'] entry: four numbers, in page space
    [left, bottom, right, top].  pypdf reads them as floats; the code only
    negates and compares them, which is exact, so they are kept as the
    rational numbers they stand for.  The sort key subscripts the array at
    1 and 0: an array with fewer than two numbers makes it raise
    IndexError, unless it is empty, which reads as an absent one; such
    arrays are outside the model. *)
Record pdf_rect : Type := PdfRect { q0 : Q; q1 : Q; q2 : Q; q3 : Q }.

(** An annotation dictionary and the dictionaries above it.  ['/Parent'] is
    an indirect reference into the objects of the document, not a nested
    value; [AP_N] holds the keys of [ann["/AP"]["/N"]] and is [None] when
    one of the two subscripts raises KeyError. *)
Definition ref : Type := nat.

Record annotation : Type := Annotation {
  T : option string;
  Parent : option ref;
  Rect : option pdf_rect;
  AP_N : option (list string)
}.

(** The objects of the document: what each reference resolves to. *)
Definition store : Type := ref -> annotation.

(** The [while annotation:] loop of [get_full_annotation_field_id].  The
    first argument bounds the number of tests of the loop condition; the
    source has no such bound.  A dictionary without keys is falsy like
    [None]; it has neither ['/T'] nor ['/Parent'], so that leaving the loop
    at it or after it gives the same [components]. *)
Fixpoint walk (fuel : nat) (st : store) (annotation : option annotation)
    (components : list string) : outcome (list string) :=
  match fuel with
  | O => OutOfFuel
  | S fuel' =>
      match annotation with
      | None => Done components
      | Some a =>
          let components' :=
            match T a with
            | Some field_name =>
                if String.eqb field_name "" then components
                else components ++ [field_name]
            | None => components
            end in
          walk fuel' st (option_map st (Parent a)) components'
      end
  end.

Definition get_full_annotation_field_id (fuel : nat) (st : store)
    (annotation : annotation) : outcome (option string) :=
  components <- walk fuel st (Some annotation) [] ;;
  Done (match components with
        | [] => None
        | _ => Some (String.concat "." (rev components))
        end).

(** A value of [reader.get_fields()].  ['/FT'] decides how ['/_States_'] is
    read: the names of the appearance states of a button, the
    [[value, text]] pairs of a choice list.  A state of a choice list is
    only read at [state[0]] and [state[1]], and the model keeps these two
    items: the export value and the display text when the state is an
    [[export, display]] array, the first two characters when it is a plain
    string ([Schema.items]); a state without an item 1 makes
    [make_field_dict] raise IndexError and is outside the model.  A missing
    ['/_States_'] reads as the empty list.  [Kids] is the truth value of
    [field.get("/Kids")]. *)
Inductive field_type : Type :=
| FT_Tx
| FT_Btn (states : list string)
| FT_Ch (states : list (string * string))
| FT_other (ft : option string).

Record pdf_field : Type := PdfField { FT : field_type; Kids : bool }.

(** The ["type"] of a schema entry; [unknown ft] is f"unknown ({ft})". *)
Inductive entry_type : Type :=
| text
| checkbox
| radio_group
| choice
| unknown (ft : option string).

(** A schema entry is a dictionary whose keys depend on the path that built
    it; an absent key is [None].  ["page"] and ["rect"] are written
    together; a ["rect"] whose value is [None] and an absent ["rect"] are
    read alike ([f.get("rect") or [0, 0, 0, 0]]) and share [None].  A radio
    option is the pair of its ["value"] and its ["rect"]. *)
Record field_info : Type := FieldInfo {
  field_id : string;
  type : entry_type;
  checked_value : option string;
  unchecked_value : option string;
  choice_options : option (list (string * string));
  page : option Z;
  rect : option pdf_rect;
  radio_options : option (list (string * option pdf_rect))
}.

(** Lines printed to [sys.stderr]. *)
Inductive warning : Type :=
| WarnUnexpectedStates (field_id : string)
| WarnNoLocation (field_id : string).

Definition entry_of (field_id : string) (t : entry_type) : field_info :=
  FieldInfo field_id t None None None None None None.

Definition with_values (checked unchecked : string) (f : field_info) : field_info :=
  FieldInfo (field_id f) (type f) (Some checked) (Some unchecked)
            (choice_options f) (page f) (rect f) (radio_options f).

Definition with_choice_options (o : list (string * string)) (f : field_info)
    : field_info :=
  FieldInfo (field_id f) (type f) (checked_value f) (unchecked_value f)
            (Some o) (page f) (rect f) (radio_options f).

Definition with_location (p : Z) (r : option pdf_rect) (f : field_info)
    : field_info :=
  FieldInfo (field_id f) (type f) (checked_value f) (unchecked_value f)
            (choice_options f) (Some p) r (radio_options f).

Definition with_radio_options (o : list (string * option pdf_rect))
    (f : field_info) : field_info :=
  FieldInfo (field_id f) (type f) (checked_value f) (unchecked_value f)
            (choice_options f) (page f) (rect f) (Some o).

(** ["/Off" in states] *)
Definition has_off (states : list string) : bool :=
  existsb (fun s => String.eqb s "/Off") states.

(** [def make_field_dict(field, field_id)], with what it prints. *)
Definition make_field_dict (field : pdf_field) (field_id : string)
    : field_info * list warning :=
  match FT field with
  | FT_Tx => (entry_of field_id text, [])
  | FT_Btn states =>
      let field_dict := entry_of field_id checkbox in
      match states with
      | [s0; s1] =>
          if has_off states
          then (with_values (if negb (String.eqb s0 "/Off") then s0 else s1)
                            "/Off" field_dict, [])
          else (with_values s0 s1 field_dict, [WarnUnexpectedStates field_id])
      | _ => (field_dict, [])
      end
  | FT_Ch states =>
      (with_choice_options (map (fun state => (fst state, snd state)) states)
                           (entry_of field_id choice), [])
  | FT_other ft => (entry_of field_id (unknown ft), [])
  end.

(** The first loop of [get_field_info], over [fields.items()]. *)
Record definitions : Type := Definitions {
  defs_info : dict field_info;
  defs_radio_names : list string;
  defs_warnings : list warning
}.

Definition is_btn (t : field_type) : bool :=
  match t with FT_Btn _ => true | _ => false end.

Fixpoint collect_fields (fields : dict pdf_field) (acc : definitions)
    : definitions :=
  match fields with
  | [] => acc
  | (field_id, field) :: fields' =>
      if Kids field
      then collect_fields fields'
             (if is_btn (FT field)
              then Definitions (defs_info acc)
                               (defs_radio_names acc ++ [field_id])
                               (defs_warnings acc)
              else acc)
      else
        let (field_dict, printed) := make_field_dict field field_id in
        collect_fields fields'
          (Definitions (dict_set field_id field_dict (defs_info acc))
                       (defs_radio_names acc)
                       (defs_warnings acc ++ printed))
  end.

(** [field_id in possible_radio_names] *)
Definition name_in (field_id : string) (names : list string) : bool :=
  existsb (String.eqb field_id) names.

(** The two dictionaries the scan of the pages writes to. *)
Record tables : Type := Tables {
  field_info_by_id : dict field_info;
  radio_fields_by_id : dict field_info
}.

(** [[v for v in ann["/AP"]["/N"] if v != "/Off"]] *)
Definition on_values_of (keys : list string) : list string :=
  filter (fun v => negb (String.eqb v "/Off")) keys.

(** [radio_fields_by_id[field_id]["radio_options"].append(...)], after the
    entry of the group was created if it was not there. *)
Definition add_radio_option (field_id : string) (page_no : Z) (value : string)
    (rect : option pdf_rect) (radio : dict field_info) : dict field_info :=
  let radio' :=
    if dict_mem field_id radio then radio
    else dict_set field_id
           (FieldInfo field_id radio_group None None None (Some page_no) None
                      (Some [])) radio in
  match dict_get field_id radio' with
  | Some group =>
      let options := match radio_options group with Some o => o | None => [] end in
      dict_set field_id (with_radio_options (options ++ [(value, rect)]) group)
               radio'
  | None => radio'
  end.

(** The body of [for ann in annotations]. *)
Definition visit_annotation (fuel : nat) (st : store)
    (possible_radio_names : list string) (page_index : nat)
    (ann : annotation) (t : tables) : outcome tables :=
  id <- get_full_annotation_field_id fuel st ann ;;
  match id with
  | None => Done t
  | Some field_id =>
      match dict_get field_id (field_info_by_id t) with
      | Some info =>
          Done (Tables
                  (dict_set field_id
                     (with_location (Z.of_nat page_index + 1) (Rect ann) info)
                     (field_info_by_id t))
                  (radio_fields_by_id t))
      | None =>
          if name_in field_id possible_radio_names
          then match AP_N ann with
               | None => Done t
               | Some keys =>
                   match on_values_of keys with
                   | [value] =>
                       Done (Tables (field_info_by_id t)
                               (add_radio_option field_id
                                  (Z.of_nat page_index + 1) value (Rect ann)
                                  (radio_fields_by_id t)))
                   | _ => Done t
                   end
               end
          else Done t
      end
  end.

Fixpoint visit_annotations (fuel : nat) (st : store)
    (possible_radio_names : list string) (page_index : nat)
    (annotations : list annotation) (t : tables) : outcome tables :=
  match annotations with
  | [] => Done t
  | ann :: annotations' =>
      t' <- visit_annotation fuel st possible_radio_names page_index ann t ;;
      visit_annotations fuel st possible_radio_names page_index annotations' t'
  end.

(** [for page_index, page in enumerate(reader.pages)]; a page is the list
    [page.get('/Annots', [])]. *)
Fixpoint visit_pages (fuel : nat) (st : store)
    (possible_radio_names : list string) (page_index : nat)
    (pages : list (list annotation)) (t : tables) : outcome tables :=
  match pages with
  | [] => Done t
  | annotations :: pages' =>
      t' <- visit_annotations fuel st possible_radio_names page_index
              annotations t ;;
      visit_pages fuel st possible_radio_names (S page_index) pages' t'
  end.

(** The filter on ["page" in field_info], with its warnings. *)
Fixpoint locate (infos : list field_info)
    : list field_info * list warning :=
  match infos with
  | [] => ([], [])
  | field_info :: infos' =>
      let (kept, printed) := locate infos' in
      match page field_info with
      | Some _ => (field_info :: kept, printed)
      | None => (kept, WarnNoLocation (field_id field_info) :: printed)
      end
  end.

(** [rect or [0, 0, 0, 0]] *)
Definition rect_or_zero (r : option pdf_rect) : pdf_rect :=
  match r with Some r => r | None => PdfRect 0 0 0 0 end.

(** The key [[f.get("page"), [-rect[1], rect[0]]]]. *)
Definition key : Type := (option Z * (Q * Q))%type.

(** [def sort_key(f)]; subscripting an empty ["radio_options"] raises. *)
Definition sort_key (f : field_info) : outcome key :=
  match radio_options f with
  | Some options =>
      match options with
      | [] => Raised IndexError
      | (_, r) :: _ =>
          let rect := rect_or_zero r in
          Done (page f, (- q1 rect, q0 rect)%Q)
      end
  | None =>
      let rect := rect_or_zero (rect f) in
      Done (page f, (- q1 rect, q0 rect)%Q)
  end.

(** Python compares lists from the first index at which they differ under
    [==], with [<] there.  The page of a key is never [None] when two keys
    are compared (every entry that reaches the sort has a page); [None] is
    put below the integers to keep the comparison total. *)
Definition Qltb (x y : Q) : bool := negb (Qle_bool y x).

Definition position_lt (a b : Q * Q) : bool :=
  if Qeq_bool (fst a) (fst b) then Qltb (snd a) (snd b)
  else Qltb (fst a) (fst b).

Definition key_lt (a b : key) : bool :=
  match fst a, fst b with
  | Some pa, Some pb =>
      if pa =? pb then position_lt (snd a) (snd b) else pa <? pb
  | None, None => position_lt (snd a) (snd b)
  | None, Some _ => true
  | Some _, None => false
  end.

(** [list.sort(key=...)] computes the key of every element once, before it
    compares anything, and is stable: elements with equal keys keep their
    order.  A stable sort is determined by its input; it is written here as
    the insertion of each element before the first one that is not below
    it. *)
Fixpoint keyed (l : list field_info) : outcome (list (key * field_info)) :=
  match l with
  | [] => Done []
  | f :: l' =>
      k <- sort_key f ;;
      rest <- keyed l' ;;
      Done ((k, f) :: rest)
  end.

Fixpoint insert_keyed (x : key * field_info) (l : list (key * field_info))
    : list (key * field_info) :=
  match l with
  | [] => [x]
  | y :: l' =>
      if key_lt (fst y) (fst x) then y :: insert_keyed x l' else x :: y :: l'
  end.

Fixpoint sort_keyed (l : list (key * field_info)) : list (key * field_info) :=
  match l with
  | [] => []
  | x :: l' => insert_keyed x (sort_keyed l')
  end.

Definition sort_fields (l : list field_info) : outcome (list field_info) :=
  decorated <- keyed l ;;
  Done (map snd (sort_keyed decorated)).

(** [def get_field_info(reader)]: [fields] is [reader.get_fields()] and
    [pages] is [reader.pages].  The result comes with the warnings printed
    on the way. *)
Definition get_field_info (fuel : nat) (st : store) (fields : dict pdf_field)
    (pages : list (list annotation))
    : outcome (list field_info * list warning) :=
  match fields with
  | [] => Done ([], [])
  | _ =>
      let defs := collect_fields fields (Definitions [] [] []) in
      t <- visit_pages fuel st (defs_radio_names defs) 0 pages
             (Tables (defs_info defs) []) ;;
      let (fields_with_location, printed) :=
        locate (dict_values (field_info_by_id t)) in
      sorted_fields <-
        sort_fields (fields_with_location
                     ++ dict_values (radio_fields_by_id t)) ;;
      Done (sorted_fields, defs_warnings defs ++ printed)
  end.

(** *** Parent chains

    The annotations met by the walk from [a]: [a] itself, its parent, and so
    on up to a dictionary without ['/Parent'].  The chain is [None] when
    more than [n] links are followed without reaching one, which is the
    case for every [n] on a cyclic graph. *)
Fixpoint chain (n : nat) (st : store) (a : annotation)
    : option (list annotation) :=
  match Parent a with
  | None => Some [a]
  | Some r =>
      match n with
      | O => None
      | S n' => option_map (cons a) (chain n' st (st r))
      end
  end.

(** The non-empty ['/T'] entries of a list of annotations. *)
Definition short_names (c : list annotation) : list string :=
  flat_map (fun a => match T a with
                     | Some name => if String.eqb name "" then [] else [name]
                     | None => []
                     end) c.

(** The loop never leaves: no number of iterations is enough. *)
Definition diverges (st : store) (a : annotation) : Prop :=
  forall fuel, get_full_annotation_field_id fuel st a = OutOfFuel.

(** A malformed graph: an annotation that is its own parent. *)
Definition cyclic_annotation : annotation :=
  Annotation (Some "a") (Some 0%nat) None None.

Definition cyclic_store : store := fun _ => cyclic_annotation.

(** A well-formed graph: the annotation "b" below the field "a". *)
Definition root_annotation : annotation := Annotation (Some "a") None None None.

Definition leaf_annotation : annotation :=
  Annotation (Some "b") (Some 0%nat) None None.

Definition tree_store : store := fun _ => root_annotation.

(** A document with one check box whose two states are ["/Yes"] and
    ["/No"], shown on its first page. *)
Definition yes_no_fields : dict pdf_field :=
  [("agree", PdfField (FT_Btn ["/Yes"; "/No"]) false)].

Definition yes_no_pages : list (list annotation) :=
  [[Annotation (Some "agree") None (Some (PdfRect 10 20 30 40)) None]].

(** *** Reading order

    The order of the design document: page ascending, then [-bottom]
    ascending, then [left] ascending, on the rectangle of the entry, which
    for a radio group is the rectangle of its first option.  A rectangle
    that is missing counts as [[0, 0, 0, 0]]. *)
Definition key_rect (f : field_info) : pdf_rect :=
  match type f with
  | radio_group =>
      match radio_options f with
      | Some ((_, r) :: _) => rect_or_zero r
      | _ => PdfRect 0 0 0 0
      end
  | _ => rect_or_zero (rect f)
  end.

Definition position_le (a b : Q * Q) : Prop :=
  (fst a < fst b)%Q \/ ((fst a == fst b)%Q /\ (snd a <= snd b)%Q).

Definition reading_order (f g : field_info) : Prop :=
  exists pf pg,
    page f = Some pf /\ page g = Some pg /\
    (pf < pg \/
     (pf = pg /\
      position_le (- q1 (key_rect f), q0 (key_rect f))%Q
                  (- q1 (key_rect g), q0 (key_rect g))%Q)).

(** [a] is not after [b] in the order of the keys. *)
Definition key_le (a b : key) : Prop :=
  match fst a, fst b with
  | Some pa, Some pb => pa < pb \/ (pa = pb /\ position_le (snd a) (snd b))
  | None, None => position_le (snd a) (snd b)
  | None, Some _ => True
  | Some _, None => False
  end.

(** *** What the two dictionaries of the scan hold

    An entry made by [make_field_dict] has no ["radio_options"], is not of
    type [radio_group], and has ["choice_options"] when it is of type
    [choice]; an entry of [radio_fields_by_id] is of type
    [radio_group], has a page and at least one option.  Both are filed
    under their own [field_id], and a dictionary has no key twice. *)
Definition plain_entry (f : field_info) : Prop :=
  radio_options f = None /\ type f <> radio_group /\
  (type f = choice -> choice_options f <> None).

Definition group_entry (f : field_info) : Prop :=
  type f = radio_group /\ page f <> None /\
  exists o options, radio_options f = Some (o :: options).

Definition filed (P : field_info -> Prop) (d : dict field_info) : Prop :=
  NoDup (map fst d) /\
  Forall (fun kv => field_id (snd kv) = fst kv /\ P (snd kv)) d.

Definition tables_ok (t : tables) : Prop :=
  filed plain_entry (field_info_by_id t) /\
  filed group_entry (radio_fields_by_id t).

(** The key of an entry in the words of the design document, and the
    entries that the sort can meet. *)
Definition reading_key (f : field_info) : key :=
  (page f, (- q1 (key_rect f), q0 (key_rect f))%Q).

Definition sortable (f : field_info) : Prop :=
  page f <> None /\ (plain_entry f \/ group_entry f).

(** A form of one page: a text field, a check box, and the radio group
    "gender" whose two buttons are annotations without a name of their own
    below the field of the group. *)
Definition sample_store : store :=
  fun _ => Annotation (Some "gender") None None None.

Definition sample_fields : dict pdf_field :=
  [("name", PdfField FT_Tx false);
   ("gender", PdfField (FT_Btn ["/M"; "/F"; "/Off"]) true);
   ("agree", PdfField (FT_Btn ["/Yes"; "/Off"]) false)].

Definition sample_pages : list (list annotation) :=
  [[Annotation (Some "agree") None (Some (PdfRect 50 100 60 110)) None;
    Annotation None (Some 0%nat) (Some (PdfRect 50 400 60 410))
               (Some ["/M"; "/Off"]);
    Annotation (Some "name") None (Some (PdfRect 50 700 200 720)) None;
    Annotation None (Some 0%nat) (Some (PdfRect 100 400 110 410))
               (Some ["/Off"; "/F"])]].

(** *** The buttons of a radio group

    The annotations of the document in the order of the scan, each with the
    index of its page; those whose field id is the name [g]; the option
    that such an annotation stands for when its appearance states hold
    exactly one state other than "/Off". *)
Fixpoint scan_from (page_index : nat) (pages : list (list annotation))
    : list (nat * annotation) :=
  match pages with
  | [] => []
  | annotations :: pages' =>
      map (pair page_index) annotations ++ scan_from (S page_index) pages'
  end.

Definition names_group (fuel : nat) (st : store) (g : string)
    (a : annotation) : bool :=
  match get_full_annotation_field_id fuel st a with
  | Done (Some id) => String.eqb id g
  | _ => false
  end.

Definition buttons (fuel : nat) (st : store) (g : string)
    (pages : list (list annotation)) : list (nat * annotation) :=
  filter (fun pa => names_group fuel st g (snd pa)) (scan_from 0 pages).

Definition radio_option_of (a : annotation)
    : option (string * option pdf_rect) :=
  match AP_N a with
  | Some keys =>
      match on_values_of keys with
      | [value] => Some (value, Rect a)
      | _ => None
      end
  | None => None
  end.

(** The two nested loops of the scan as one loop over [scan_from]. *)
Fixpoint visit_scan (fuel : nat) (st : store)
    (possible_radio_names : list string) (l : list (nat * annotation))
    (t : tables) : outcome tables :=
  match l with
  | [] => Done t
  | (page_index, ann) :: l' =>
      t' <- visit_annotation fuel st possible_radio_names page_index ann t ;;
      visit_scan fuel st possible_radio_names l' t'
  end.

(** The options placed by a list of buttons, and the entry of the group
    [g] once one more option is placed. *)
Definition placed_options (l : list (nat * annotation))
    : list (nat * (string * option pdf_rect)) :=
  flat_map (fun pa => match radio_option_of (snd pa) with
                      | Some o => [(fst pa, o)]
                      | None => []
                      end) l.

Definition grow (g : string) (cur : option field_info)
    (po : nat * (string * option pdf_rect)) : option field_info :=
  Some match cur with
       | Some group =>
           with_radio_options
             (match radio_options group with Some o => o | None => [] end
              ++ [snd po]) group
       | None =>
           FieldInfo g radio_group None None None
                     (Some (Z.of_nat (fst po) + 1)) None (Some [snd po])
       end.

Definition keyed_le (x y : key * field_info) : Prop := key_le (fst x) (fst y).

(** The annotations of a document all have a parent chain of at most [n]
    links. *)
Definition chains_within (n : nat) (st : store)
    (pages : list (list annotation)) : Prop :=
  Forall (Forall (fun a => chain n st a <> None)) pages.

End Extract.

(** ** [pdf_fill_form.py] *)

Module Fill.
Import Py.

(** An element of [field_values.json].  ["value"] is optional: the code
    tests ["value" in field]. *)
Record assignment : Type := Assignment {
  field_id : string;
  page : Z;
  value : option string
}.

(** What the script prints, one constructor per f-string:
    - [ErrCheckbox v id c u]: 'ERROR: Invalid value "{v}" for checkbox field
      "{id}". The checked value is "{c}" and the unchecked value is "{u}"';
    - [ErrRadio v id vs]: 'ERROR: Invalid value "{v}" for radio group field
      "{id}". Valid values are: {vs}';
    - [ErrChoice v id vs]: the same for a choice field;
    - [ErrFieldId id]: "ERROR: `{id}` is not a valid field ID";
    - [ErrPage id got expected]: "ERROR: Incorrect page number for `{id}`
      (got {got}, expected {expected})";
    - [Success]: "Successfully filled PDF form and saved to ...";
    - [GenericError e]: "Error: {e}", printed by [main] to [sys.stderr]. *)
Inductive message : Type :=
| ErrCheckbox (v id checked unchecked : string)
| ErrRadio (v id : string) (option_values : list string)
| ErrChoice (v id : string) (choice_values : list string)
| ErrFieldId (id : string)
| ErrPage (id : string) (got expected : Z)
| Success
| GenericError (e : exn).

(** [d[key]] on a schema entry: KeyError when the key is absent. *)
Definition subscript {A : Type} (key : string) (v : option A) : outcome A :=
  match v with
  | Some a => Done a
  | None => Raised (KeyError key)
  end.

(** [field_value not in values] *)
Definition not_in (field_value : string) (values : list string) : bool :=
  negb (existsb (String.eqb field_value) values).

(** [def validation_error_for_field_value(field_info, field_value)] *)
Definition validation_error_for_field_value (field_info : Extract.field_info)
    (field_value : string) : outcome (option message) :=
  let field_type := Extract.type field_info in
  let field_id := Extract.field_id field_info in
  match field_type with
  | Extract.checkbox =>
      checked_val <- subscript "checked_value" (Extract.checked_value field_info) ;;
      unchecked_val <-
        subscript "unchecked_value" (Extract.unchecked_value field_info) ;;
      if negb (String.eqb field_value checked_val)
         && negb (String.eqb field_value unchecked_val)
      then Done (Some (ErrCheckbox field_value field_id checked_val unchecked_val))
      else Done None
  | Extract.radio_group =>
      options <- subscript "radio_options" (Extract.radio_options field_info) ;;
      let option_values := map fst options in
      if not_in field_value option_values
      then Done (Some (ErrRadio field_value field_id option_values))
      else Done None
  | Extract.choice =>
      options <- subscript "choice_options" (Extract.choice_options field_info) ;;
      let choice_values := map fst options in
      if not_in field_value choice_values
      then Done (Some (ErrChoice field_value field_id choice_values))
      else Done None
  | _ => Done None
  end.

(** The document the script reads: its objects, [reader.get_fields()] and
    [reader.pages], with the bound handed to the walks of the parent
    chains. *)
Record reader : Type := Reader {
  fuel : nat;
  objects : Extract.store;
  fields_of : dict Extract.pdf_field;
  pages_of : list (list Extract.annotation)
}.

(** A [PdfWriter]: the calls of [update_page_form_field_values] it
    received, as (page number, [field_values]) in call order, and the flag
    set by [set_need_appearances_writer]. *)
Record writer : Type := Writer {
  updates : list (Z * dict string);
  need_appearances : bool
}.

(** What the script can change: the two output streams, the writer object,
    the file at [output_pdf_path]. *)
Record world : Type := World {
  stdout : list message;
  stderr : list message;
  pdf_writer : option writer;
  output_pdf : option writer
}.

Definition initial_world : world := World [] [] None None.

(** Computations that change the world and can raise.  The world is kept
    when an exception is raised: what was printed stays printed. *)
Definition io (A : Type) : Type := world -> outcome A * world.

Definition ret {A : Type} (a : A) : io A := fun w => (Done a, w).

Definition lift {A : Type} (m : outcome A) : io A := fun w => (m, w).

Definition io_bind {A B : Type} (m : io A) (k : A -> io B) : io B :=
  fun w =>
    match m w with
    | (Done a, w') => k a w'
    | (Raised e, w') => (Raised e, w')
    | (OutOfFuel, w') => (OutOfFuel, w')
    end.

Definition print (m : message) : io unit :=
  fun w => (Done tt, World (stdout w ++ [m]) (stderr w) (pdf_writer w) (output_pdf w)).

Definition print_err (m : message) : io unit :=
  fun w => (Done tt, World (stdout w) (stderr w ++ [m]) (pdf_writer w) (output_pdf w)).

Definition set_writer (wr : writer) : io unit :=
  fun w => (Done tt, World (stdout w) (stderr w) (Some wr) (output_pdf w)).

Definition write_output (wr : writer) : io unit :=
  fun w => (Done tt, World (stdout w) (stderr w) (pdf_writer w) (Some wr)).

Definition sys_exit {A : Type} (code : Z) : io A := lift (Raised (SystemExit code)).

End Fill.

Declare Scope io_scope.
Delimit Scope io_scope with io.
Notation "x <-- m ;; k" := (Fill.io_bind m (fun x => k))
  (at level 61, m at next level, right associativity) : io_scope.
Notation "m ;;; k" := (Fill.io_bind m (fun _ => k))
  (at level 61, right associativity) : io_scope.

Module FillForm.
Import Py Fill.
Local Open Scope io_scope.

(** The grouping [fields_by_page[page][field_id] = field["value"]]; the
    outer dictionary has integer keys. *)
Fixpoint page_get (p : Z) (d : list (Z * dict string)) : option (dict string) :=
  match d with
  | [] => None
  | (p', v) :: d' => if p =? p' then Some v else page_get p d'
  end.

Fixpoint page_set (p : Z) (v : dict string) (d : list (Z * dict string))
    : list (Z * dict string) :=
  match d with
  | [] => [(p, v)]
  | (p', v') :: d' => if p =? p' then (p', v) :: d' else (p', v') :: page_set p v d'
  end.

Fixpoint group_by_page (fields : list assignment)
    (fields_by_page : list (Z * dict string)) : list (Z * dict string) :=
  match fields with
  | [] => fields_by_page
  | field :: fields' =>
      match value field with
      | Some v =>
          let on_page :=
            match page_get (page field) fields_by_page with
            | Some d => d
            | None => []
            end in
          group_by_page fields'
            (page_set (page field) (dict_set (field_id field) v on_page)
                      fields_by_page)
      | None => group_by_page fields' fields_by_page
      end
  end.

(** [{f["field_id"]: f for f in field_info}] *)
Definition by_ids (field_info : list Extract.field_info)
    : dict Extract.field_info :=
  fold_left (fun d f => dict_set (Extract.field_id f) f d) field_info [].

(** The body of the validation loop; the result is the new [has_error]. *)
Definition check_field (fields_by_ids : dict Extract.field_info)
    (field : assignment) (has_error : bool) : io bool :=
  match dict_get (field_id field) fields_by_ids with
  | None =>
      print (ErrFieldId (field_id field)) ;;;
      ret true
  | Some existing_field =>
      expected <-- lift (subscript "page" (Extract.page existing_field)) ;;
      if negb (page field =? expected)
      then
        print (ErrPage (field_id field) (page field) expected) ;;;
        ret true
      else
        match value field with
        | Some v =>
            err <-- lift (validation_error_for_field_value existing_field v) ;;
            match err with
            | Some e => print e ;;; ret true
            | None => ret has_error
            end
        | None => ret has_error
        end
  end.

Fixpoint check_fields (fields_by_ids : dict Extract.field_info)
    (fields : list assignment) (has_error : bool) : io bool :=
  match fields with
  | [] => ret has_error
  | field :: fields' =>
      has_error' <-- check_field fields_by_ids field has_error ;;
      check_fields fields_by_ids fields' has_error'
  end.

(** [writer.pages[page - 1]]: Python indexing of a list of [n] pages. *)
Definition page_at (n : nat) (p : Z) : outcome unit :=
  if (- Z.of_nat n <=? p - 1) && (p - 1 <? Z.of_nat n) then Done tt
  else Raised IndexError.

(** The loop over [fields_by_page.items()]; the writer is held in the
    world and each call is recorded in it. *)
Fixpoint update_pages (n : nat) (fields_by_page : list (Z * dict string))
    (wr : writer) : io writer :=
  match fields_by_page with
  | [] => ret wr
  | (p, field_values) :: rest =>
      lift (page_at n p) ;;;
      let wr' := Writer (updates wr ++ [(p, field_values)]) (need_appearances wr) in
      set_writer wr' ;;;
      update_pages n rest wr'
  end.

(** [def fill_pdf_fields(input_pdf_path, fields_json_path, output_pdf_path)]:
    [fields] is the content of the JSON file and [rd] the [PdfReader] of the
    input.  The warnings of the extraction go to [sys.stderr] and are not
    kept. *)
Definition fill_pdf_fields (rd : reader) (fields : list assignment) : io unit :=
  let fields_by_page := group_by_page fields [] in
  extracted <-- lift (Extract.get_field_info (fuel rd) (objects rd)
                        (fields_of rd) (pages_of rd)) ;;
  let field_info := fst extracted in
  let fields_by_ids := by_ids field_info in
  has_error <-- check_fields fields_by_ids fields false ;;
  if has_error then sys_exit 1
  else
    let wr := Writer [] false in
    set_writer wr ;;;
    wr' <-- update_pages (List.length (pages_of rd)) fields_by_page wr ;;
    let wr'' := Writer (updates wr') true in
    set_writer wr'' ;;;
    write_output wr'' ;;;
    print Success.

(** [def main()], from the [try]: every [Exception] is reported and turned
    into exit status 1; [SystemExit] is not an [Exception] and passes. *)
Definition main (rd : reader) (fields : list assignment) : io unit :=
  fun w =>
    match fill_pdf_fields rd fields w with
    | (Raised (SystemExit c), w') => (Raised (SystemExit c), w')
    | (Raised e, w') =>
        (print_err (GenericError e) ;;; sys_exit 1) w'
    | r => r
    end.

(** *** Violations

    The rules of the design document for one assignment, against the
    entry that [fields_by_ids] holds for its [field_id]: the id must exist,
    the page must be the page of the entry, the value must be legal for the
    type of the entry. *)
Definition type_legal (e : Extract.field_info) (v : string) : Prop :=
  match Extract.type e with
  | Extract.checkbox =>
      Extract.checked_value e = Some v \/ Extract.unchecked_value e = Some v
  | Extract.radio_group =>
      exists options,
        Extract.radio_options e = Some options /\ In v (map fst options)
  | Extract.choice =>
      exists options,
        Extract.choice_options e = Some options /\ In v (map fst options)
  | _ => True
  end.

Definition unknown_field (d : dict Extract.field_info) (a : assignment) : Prop :=
  dict_get (field_id a) d = None.

Definition page_mismatch (d : dict Extract.field_info) (a : assignment) : Prop :=
  exists e, dict_get (field_id a) d = Some e /\ Extract.page e <> Some (page a).

Definition illegal_value (d : dict Extract.field_info) (a : assignment) : Prop :=
  exists e v,
    dict_get (field_id a) d = Some e /\ value a = Some v /\ ~ type_legal e v.

Definition invalid (d : dict Extract.field_info) (a : assignment) : Prop :=
  unknown_field d a \/ page_mismatch d a \/ illegal_value d a.

(** The message of the first rule that an assignment breaks, in the order
    id, page, value; no message when it breaks none. *)
Definition reported (d : dict Extract.field_info) (a : assignment)
    : list message :=
  match dict_get (field_id a) d with
  | None => [ErrFieldId (field_id a)]
  | Some e =>
      match Extract.page e with
      | Some expected =>
          if negb (page a =? expected)
          then [ErrPage (field_id a) (page a) expected]
          else match value a with
               | Some v =>
                   match validation_error_for_field_value e v with
                   | Done (Some m) => [m]
                   | _ => []
                   end
               | None => []
               end
      | None => []
      end
  end.

Definition some_reported (d : dict Extract.field_info) (a : assignment) : bool :=
  match reported d a with [] => false | _ => true end.

(** The field that an error message names. *)
Definition names_field (m : message) (id : string) : Prop :=
  match m with
  | ErrCheckbox _ id' _ _ | ErrRadio _ id' _ | ErrChoice _ id' _
  | ErrFieldId id' | ErrPage id' _ _ => id' = id
  | _ => False
  end.

(** An entry that carries the keys its type is read with. *)
Definition complete (e : Extract.field_info) : Prop :=
  Extract.page e <> None /\
  (Extract.type e = Extract.checkbox ->
   Extract.checked_value e <> None /\ Extract.unchecked_value e <> None) /\
  (Extract.type e = Extract.radio_group -> Extract.radio_options e <> None) /\
  (Extract.type e = Extract.choice -> Extract.choice_options e <> None).

Definition checkboxes_have_values (schema : list Extract.field_info) : Prop :=
  Forall (fun e => Extract.type e = Extract.checkbox ->
                   Extract.checked_value e <> None /\
                   Extract.unchecked_value e <> None) schema.

(** The world after more lines were printed to [sys.stdout]. *)
Definition printed_more (w : world) (ms : list message) : world :=
  World (stdout w ++ ms) (stderr w) (pdf_writer w) (output_pdf w).

(** The sample form as the input of the script, and a form with a push
    button, which is a button field without appearance states. *)
Definition sample_reader : reader :=
  Reader 3 Extract.sample_store Extract.sample_fields Extract.sample_pages.

Definition button_reader : reader :=
  Reader 3 Extract.sample_store
    [("submit", Extract.PdfField (Extract.FT_Btn []) false)]
    [[Extract.Annotation (Some "submit") None
        (Some (Extract.PdfRect 10 20 30 40)) None]].

(** The schema of the sample form, in reading order, and two assignment
    sets for it. *)
Definition sample_schema : list Extract.field_info :=
  [Extract.FieldInfo "name" Extract.text None None None (Some 1)
     (Some (Extract.PdfRect 50 700 200 720)) None;
   Extract.FieldInfo "gender" Extract.radio_group None None None (Some 1) None
     (Some [("/M", Some (Extract.PdfRect 50 400 60 410));
            ("/F", Some (Extract.PdfRect 100 400 110 410))]);
   Extract.FieldInfo "agree" Extract.checkbox (Some "/Yes") (Some "/Off") None
     (Some 1) (Some (Extract.PdfRect 50 100 60 110)) None].

Definition sample_assignments : list assignment :=
  [Assignment "name" 1 (Some "Ann");
   Assignment "nope" 1 (Some "x");
   Assignment "gender" 1 (Some "/X");
   Assignment "agree" 2 (Some "/Yes")].

Definition wrong_page_and_value : assignment :=
  Assignment "agree" 2 (Some "maybe").

(** A computation that only prints to [sys.stdout]. *)
Definition only_prints {A : Type} (m : io A) : Prop :=
  forall w r w',
    m w = (r, w') ->
    stderr w' = stderr w /\ pdf_writer w' = pdf_writer w /\
    output_pdf w' = output_pdf w.

End FillForm.

(** ** [pdf_validate_boxes.py], the image and the command line *)

Module Validator.
Import Py Boxes.

(** The outline colours of [draw.rectangle]. *)
Inductive colour : Type := red | blue.

(** What Pillow does is not part of the script and is left open:
    - [opens]: [Image.open(input_path)] returns;
    - [rectangle r]: [draw.rectangle(r, outline=..., width=2)] returns for
      the box [r] (Pillow raises ValueError for a box whose right edge lies
      left of its left edge, or whose bottom edge lies above its top edge);
    - [saves path]: [img.save(path)] returns.
    Where one of them is false Pillow raises an exception. *)
Record pillow : Type := Pillow {
  opens : bool;
  rectangle : rect -> bool;
  saves : string -> bool
}.

(** [def create_validation_image(page_number, fields_data, input_path,
    output_path)]: the image saved is the input image with the rectangles
    drawn on it; the result is the list of these rectangles, in drawing
    order, and [num_boxes], which the function prints, or [None] when
    Pillow raised, which is before the image is saved. *)
Fixpoint draw_fields (lib : pillow) (page : Z) (form_fields : list form_field)
    (drawn : list (rect * colour)) (num_boxes : nat)
    : option (list (rect * colour) * nat) :=
  match form_fields with
  | [] => Some (drawn, num_boxes)
  | field :: rest =>
      if page_number field =? page
      then
        if rectangle lib (entry_bounding_box field)
        then
          if rectangle lib (label_bounding_box field)
          then draw_fields lib page rest
                 (drawn ++ [(entry_bounding_box field, red);
                            (label_bounding_box field, blue)])
                 (num_boxes + 2)
          else None
        else None
      else draw_fields lib page rest drawn num_boxes
  end.

Definition create_validation_image (lib : pillow) (page : Z)
    (form_fields : list form_field) (output_path : string)
    : option (list (rect * colour) * nat) :=
  if opens lib
  then
    match draw_fields lib page form_fields [] 0 with
    | Some result => if saves lib output_path then Some result else None
    | None => None
    end
  else None.

(** The options of the command line after the path of [fields.json];
    [--page] is parsed as an integer. *)
Record args : Type := Args {
  image : option string;
  output : option string;
  page : option Z
}.

(** Truth values of option values: [None] and the empty string are false,
    [None] and 0 are false. *)
Definition truthy_string (s : option string) : bool :=
  match s with
  | Some s => negb (String.eqb s "")
  | None => false
  end.

Definition truthy_int (n : option Z) : bool :=
  match n with
  | Some n => negb (n =? 0)
  | None => false
  end.

(** ["FAILURE" in msg]: the findings are the messages that begin with
    "FAILURE:"; the three fixed messages do not hold the word. *)
Definition mentions_failure (m : message) : bool :=
  match m with
  | MsgSameField _ _ _ | MsgIntersect _ _ _ _ _ _ | MsgTooShort _ _ _ => true
  | MsgRead _ | MsgAbort | MsgSuccess => false
  end.

(** The lines of [sys.stderr]:
    "Error: --output is required when --image is specified",
    "Error: --page is required when --image is specified",
    "Error: Image not found: {path}",
    and [Traceback]: what is printed when Pillow raises, an exception that
    [main] does not catch and with which Python exits with status 1. *)
Inductive error_line : Type :=
| OutputRequired
| PageRequired
| ImageNotFound (path : string)
| Traceback.

(** What a run of [main] leaves: the messages printed, the line printed by
    [create_validation_image] ("Created validation image at {output} with
    {n} bounding boxes"), the error line, the rectangles of the image saved
    at [--output], and the exit status ([None] when [main] returns). *)
Record run : Type := Run {
  printed : list message;
  created : option (string * nat);
  error : option error_line;
  saved : option (list (rect * colour));
  status : option Z
}.

(** [def main()], from the validation on; [image_exists] is
    [image_path.exists()]. *)
Definition main (lib : pillow) (a : args) (image_exists : bool)
    (form_fields : list form_field) : run :=
  let messages := get_bounding_box_messages form_fields in
  let failed := existsb mentions_failure messages in
  let exit_status := if failed then Some 1 else None in
  if truthy_string (image a)
  then
    if negb (truthy_string (output a))
    then Run messages None (Some OutputRequired) None (Some 1)
    else if negb (truthy_int (page a))
    then Run messages None (Some PageRequired) None (Some 1)
    else if negb image_exists
    then Run messages None
             (Some (ImageNotFound (match image a with Some p => p | None => "" end)))
             None (Some 1)
    else
      let output_path := match output a with Some o => o | None => "" end in
      match create_validation_image lib
              (match page a with Some p => p | None => 0 end)
              form_fields output_path with
      | Some (drawn, num_boxes) =>
          Run messages (Some (output_path, num_boxes)) None (Some drawn)
              exit_status
      | None => Run messages None (Some Traceback) None (Some 1)
      end
  else Run messages None None None exit_status.

(** *** A layout without findings

    No two boxes of one page intersect, and every entry box with text
    metadata is at least as high as its font size. *)
Definition apart (ri rj : RectAndField) : Prop :=
  page_number (field ri) <> page_number (field rj) \/
  rects_intersect (raf_rect ri) (raf_rect rj) = false.

Definition no_overlap (form_fields : list form_field) : Prop :=
  ForallOrdPairs apart (rects_of 0 form_fields).

Definition tall_enough (form_fields : list form_field) : Prop :=
  Forall (fun f => match entry_text f with
                   | Some et => size_of et <= entry_height f
                   | None => True
                   end) form_fields.

(** The rectangles of the fields of one page: the entry box in red, then
    the label box in blue, field after field. *)
Definition boxes_of_page (p : Z) (form_fields : list form_field)
    : list (rect * colour) :=
  flat_map (fun f => if page_number f =? p
                     then [(entry_bounding_box f, red);
                           (label_bounding_box f, blue)]
                     else []) form_fields.

(** Pillow opens the image, draws every box of the list and saves to the
    path. *)
Definition obliging (lib : pillow) (boxes : list (rect * colour))
    (path : string) : bool :=
  opens lib && forallb (fun b => rectangle lib (fst b)) boxes
  && saves lib path.

(** The four conditions under which [main] calls
    [create_validation_image]. *)
Definition draws (a : args) (image_exists : bool) : bool :=
  truthy_string (image a) && truthy_string (output a)
  && truthy_int (page a) && image_exists.

End Validator.

(** ** Notions for the schema of [get_field_info] *)

Module Schema.
Import Py Extract.

(** The short name of an annotation: its ['/T'] when it is there and not
    empty. *)
Definition own_name (a : annotation) : option string :=
  match T a with
  | Some name => if String.eqb name "" then None else Some name
  | None => None
  end.

(** The id of a dictionary from the id of its parent and its own name. *)
Definition qualify (parent_id : option string) (name : option string)
    : option string :=
  match name with
  | Some n =>
      Some (match parent_id with
            | Some p => (p ++ "." ++ n)%string
            | None => n
            end)
  | None => parent_id
  end.

(** The annotations whose field id is [id], in the order of the scan, each
    with the index of its page. *)
Definition widgets (fuel : nat) (st : store) (id : string)
    (pages : list (list annotation)) : list (nat * annotation) :=
  filter (fun pa => names_group fuel st id (snd pa)) (scan_from 0 pages).

(** An entry after its ["page"] and ["rect"] were written once per
    annotation of a list. *)
Definition relocate (e : field_info) (l : list (nat * annotation))
    : field_info :=
  fold_left (fun e pa => with_location (Z.of_nat (fst pa) + 1) (Rect (snd pa)) e)
            l e.

(** The page of an entry is a page of a document of [n] pages. *)
Definition page_in_range (n : nat) (e : field_info) : Prop :=
  exists p, page e = Some p /\ 1 <= p <= Z.of_nat n.

(** An entry of a table of the extractor that has a page has one of the
    [n] pages of the document. *)
Definition page_ok (n : nat) (kv : string * field_info) : Prop :=
  match page (snd kv) with
  | Some p => 1 <= p <= Z.of_nat n
  | None => True
  end.

(** An element of the ['/_States_'] of a choice field, as pypdf hands over
    the ['/Opt'] array: an [[export, display]] array of two strings, or a
    plain string. *)
Inductive opt : Type :=
| OptPair (export display : string)
| OptText (s : string).

(** [state[0]] and [state[1]]; [None] is the IndexError on a string of
    fewer than two characters. *)
Definition items (o : opt) : option (string * string) :=
  match o with
  | OptPair export display => Some (export, display)
  | OptText (String c0 (String c1 _)) =>
      Some (String c0 EmptyString, String c1 EmptyString)
  | OptText _ => None
  end.

(** The states of a choice field as [make_field_dict] reads them. *)
Fixpoint read_states (opts : list opt) : option (list (string * string)) :=
  match opts with
  | [] => Some []
  | o :: rest =>
      match items o, read_states rest with
      | Some state, Some states => Some (state :: states)
      | _, _ => None
      end
  end.

(** The field that a warning names. *)
Definition warned (w : warning) : string :=
  match w with
  | WarnUnexpectedStates id | WarnNoLocation id => id
  end.

End Schema.

(** ** [pdf_check_form.py] *)

Module Probe.
Import Py Fill.

(** [def check_form(pdf_path)]: [bool(reader.get_fields())], false for
    [None] and for the empty dictionary. *)
Definition check_form (rd : reader) : bool :=
  match fields_of rd with
  | [] => false
  | _ => true
  end.

(** The two answers of [main]: "This PDF has fillable form fields" with the
    advice to use [pdf_fill_form.py], or "This PDF does not have fillable
    form fields ..." with the advice to use [pdf_fill_annotations.py]. *)
Inductive answer : Type := Fillable | NotFillable.

Definition main (rd : reader) : answer :=
  let has_fields := check_form rd in
  if has_fields then Fillable else NotFillable.

End Probe.

(** ** Notions for [pdf_fill_form.py] *)

Module Filling.
Import Py Fill FillForm.

(** The value that the assignments give to the field [id] of page [p]: the
    ["value"] of the last assignment of this page and id that has one. *)
Definition last_value (p : Z) (id : string) (fields : list assignment)
    : option string :=
  fold_left (fun acc a =>
               if (page a =? p) && String.eqb (field_id a) id
               then match value a with Some v => Some v | None => acc end
               else acc)
            fields None.

(** The value recorded for [id] on page [p] in [fields_by_page]. *)
Definition recorded (p : Z) (id : string)
    (fields_by_page : list (Z * dict string)) : option string :=
  match page_get p fields_by_page with
  | Some d => dict_get id d
  | None => None
  end.



End Filling.

(** ** [pdf_fill_annotations.py], the filler *)

Module Annotate.
Import Overlay.

(** [fields.json] is taken as parsed, with the keys that the filler
    subscripts present and page numbers that are integers; its other
    numbers are Python numbers.  The exceptions of [fill_pdf_form]: [next]
    on an exhausted generator, [pdf_dimensions[page_num]] on a missing key,
    an exception of the arithmetic of [transform_coordinates], and an
    exception raised inside pypdf. *)
Inductive failure : Type :=
| StopIteration
| KeyError (page_num : Z)
| Arithmetic (e : arith_error)
| LibraryError.

(** [field["entry_text"]]: each key is optional. *)
Record entry_text : Type := EntryText {
  text : option string;
  font : option string;
  font_size : option Z;
  font_color : option string
}.

(** [str(n)] of an integer. *)
Definition str (n : Z) : string := NilZero.string_of_int (Z.to_int n).

(** An element of [fields_data["form_fields"]], with the keys that the
    filler reads; ["entry_text"] is optional. *)
Record form_field : Type := FormField {
  page_number : Z;
  entry_bounding_box : bbox number;
  field_entry_text : option entry_text
}.

(** An element of [fields_data["pages"]]. *)
Record page_info : Type := PageInfo {
  info_page_number : Z;
  image_width : number;
  image_height : number
}.

Record fields_data : Type := FieldsData {
  pages : list page_info;
  form_fields : list form_field
}.

(** The arguments of [FreeText(text=..., rect=..., font=..., font_size=...,
    font_color=..., border_color=None, background_color=None)]. *)
Record free_text : Type := FreeText {
  ft_text : string;
  ft_rect : pdf_box number;
  ft_font : string;
  ft_font_size : string;
  ft_font_color : string
}.

(** One [FreeText(...)] followed by [writer.add_annotation(page_number=...,
    annotation=...)]: the page index and the annotation. *)
Definition call : Type := (Z * free_text)%type.

(** What pypdf does is not part of the script and is left open:
    - [loads]: [PdfReader(input_pdf_path)], [writer.append(reader)] and the
      reading of the media boxes return;
    - [accepts earlier c]: after the calls [earlier], [FreeText] and
      [add_annotation] return for the call [c];
    - [writes calls]: [writer.write(output)] returns.
    Where one of them is false pypdf raises an exception. *)
Record pypdf : Type := Pypdf {
  loads : bool;
  accepts : list call -> call -> bool;
  writes : list call -> bool
}.

(** The first loop: [pdf_dimensions[i + 1] = [float(mediabox.width),
    float(mediabox.height)]] for the pages of the reader. *)
Fixpoint pdf_dimensions_from (i : Z) (reader_pages : list (float * float))
    : list (Z * (float * float)) :=
  match reader_pages with
  | [] => []
  | mediabox :: rest => (i + 1, mediabox) :: pdf_dimensions_from (i + 1) rest
  end.

Definition pdf_dimensions (reader_pages : list (float * float))
    : list (Z * (float * float)) :=
  pdf_dimensions_from 0 reader_pages.

(** [pdf_dimensions[page_num]] *)
Fixpoint dimensions_get (page_num : Z) (d : list (Z * (float * float)))
    : option (float * float) :=
  match d with
  | [] => None
  | (k, v) :: d' => if k =? page_num then Some v else dimensions_get page_num d'
  end.

(** [next(p for p in fields_data["pages"] if p["page_number"] == page_num)] *)
Fixpoint next_page (ps : list page_info) (page_num : Z) : option page_info :=
  match ps with
  | [] => None
  | p :: ps' =>
      if info_page_number p =? page_num then Some p else next_page ps' page_num
  end.

(** The second loop, with the calls made so far as accumulator; the list
    [annotations] of the source is the list of their second components. *)
Fixpoint process (lib : pypdf) (data : fields_data)
    (dims : list (Z * (float * float)))
    (fields : list form_field) (annotations : list call)
    : failure + list call :=
  match fields with
  | [] => inr annotations
  | field :: rest =>
      let page_num := page_number field in
      match next_page (pages data) page_num with
      | None => inl StopIteration
      | Some info =>
          match dimensions_get page_num dims with
          | None => inl (KeyError page_num)
          | Some (pdf_width, pdf_height) =>
              match transform_coordinates_b64 (entry_bounding_box field)
                      (image_width info) (image_height info)
                      (Float pdf_width) (Float pdf_height) with
              | inl e => inl (Arithmetic e)
              | inr transformed_entry_box =>
                  match field_entry_text field with
                  | None => process lib data dims rest annotations
                  | Some et =>
                      match text et with
                      | None => process lib data dims rest annotations
                      | Some t =>
                          if String.eqb t EmptyString
                          then process lib data dims rest annotations
                          else
                            let font_name :=
                              match font et with
                              | Some f => f
                              | None => "Arial"
                              end in
                            let size :=
                              (str match font_size et with
                                   | Some s => s
                                   | None => 14
                                   end ++ "pt")%string in
                            let color :=
                              match font_color et with
                              | Some c => c
                              | None => "000000"
                              end in
                            let annotation :=
                              FreeText t transformed_entry_box font_name
                                       size color in
                            if accepts lib annotations
                                 (page_num - 1, annotation)
                            then process lib data dims rest
                                   (annotations ++ [(page_num - 1, annotation)])
                            else inl LibraryError
                      end
                  end
              end
          end
      end
  end.

(** The file at [output_pdf_path]: as it was, opened for writing by a
    [writer.write] that raised, or written with the annotations. *)
Inductive output : Type :=
| Untouched
| Opened
| Written (calls : list call).

(** [def fill_pdf_form(input_pdf_path, fields_json_path, output_pdf_path)]:
    the calls it made when it returns, or the exception that ended it and
    the state of the output file. *)
Definition fill_pdf_form (lib : pypdf) (data : fields_data)
    (reader_pages : list (float * float))
    : failure * output + list call :=
  if negb (loads lib) then inl (LibraryError, Untouched)
  else
    match process lib data (pdf_dimensions reader_pages)
                  (form_fields data) [] with
    | inl e => inl (e, Untouched)
    | inr annotations =>
        if writes lib annotations then inr annotations
        else inl (LibraryError, Opened)
    end.

(** What [main] prints and leaves behind. *)
Inductive line : Type :=
| Saved
| Added (n : nat).

Inductive error_line : Type :=
| InputNotFound
| FieldsNotFound
| Error (e : failure).

Record run : Type := Run {
  printed : list line;
  error : option error_line;
  saved : output;
  status : Z
}.

(** [def main()] *)
Definition main (lib : pypdf) (input_exists fields_exists : bool)
    (data : fields_data) (reader_pages : list (float * float)) : run :=
  if negb input_exists then Run [] (Some InputNotFound) Untouched 1
  else if negb fields_exists then Run [] (Some FieldsNotFound) Untouched 1
  else
    match fill_pdf_form lib data reader_pages with
    | inr annotations =>
        Run [Saved; Added (length annotations)] None (Written annotations) 0
    | inl (e, file) => Run [] (Some (Error e)) file 1
    end.

(** *** What the filler needs of a field

    [info] is the first page record of [fields.json] with the number
    [page_num]. *)
Definition first_record (data : fields_data) (page_num : Z) (info : page_info)
    : Prop :=
  exists before after,
    pages data = before ++ info :: after /\
    info_page_number info = page_num /\
    Forall (fun p => info_page_number p <> page_num) before.

(** The field lies on a page of the document, [fields.json] has a record
    for this page, and the arithmetic transforms its box to [box] without
    raising. *)
Definition placed (data : fields_data) (reader_pages : list (float * float))
    (field : form_field) (box : pdf_box number) : Prop :=
  exists info mediabox,
    first_record data (page_number field) info /\
    1 <= page_number field <= Z.of_nat (length reader_pages) /\
    nth_error reader_pages (Z.to_nat (page_number field - 1)) = Some mediabox /\
    transform_coordinates_b64 (entry_bounding_box field)
      (image_width info) (image_height info)
      (Float (fst mediabox)) (Float (snd mediabox))
    = inr box.

Definition placeable (data : fields_data) (reader_pages : list (float * float))
    (field : form_field) : Prop :=
  exists box, placed data reader_pages field box.

(** The field has a non-empty ["text"]. *)
Definition has_text (field : form_field) : bool :=
  match field_entry_text field with
  | Some et =>
      match text et with
      | Some t => negb (String.eqb t EmptyString)
      | None => false
      end
  | None => false
  end.

(** The call that a field with text stands for. *)
Definition annotates (data : fields_data) (reader_pages : list (float * float))
    (field : form_field) (c : call) : Prop :=
  fst c = page_number field - 1 /\
  placed data reader_pages field (ft_rect (snd c)) /\
  exists et,
    field_entry_text field = Some et /\
    text et = Some (ft_text (snd c)) /\
    ft_font (snd c) = match font et with Some f => f | None => "Arial" end /\
    ft_font_size (snd c)
    = (str match font_size et with Some s => s | None => 14 end ++ "pt")%string /\
    ft_font_color (snd c)
    = match font_color et with Some c => c | None => "000000" end.

(** pypdf accepted each call of the list [calls], made after the calls
    [earlier]. *)
Fixpoint accepted_from (lib : pypdf) (earlier calls : list call) : bool :=
  match calls with
  | [] => true
  | c :: rest =>
      accepts lib earlier c && accepted_from lib (earlier ++ [c]) rest
  end.

Definition all_accepted (lib : pypdf) (calls : list call) : Prop :=
  accepted_from lib [] calls = true.

(** A pypdf that raises nowhere. *)
Definition willing : pypdf :=
  Pypdf true (fun _ _ => true) (fun _ => true).

(** *** Why the run stops at a field

    An [int] too large to convert to float, and a number that is zero. *)
Definition too_large (n : number) : bool :=
  match as_float n with
  | inl _ => true
  | inr _ => false
  end.

Definition is_zero (n : number) : bool :=
  match n with
  | Int z => z =? 0
  | Float (Finite q) => Qeq_bool q 0
  | Float _ => false
  end.

(** A float that is zero. *)
Definition float_zero (x : float) : bool :=
  match x with
  | Finite q => Qeq_bool q 0
  | _ => false
  end.

(** The exception of a division of a float by [n]. *)
Definition divisor_cause (n : number) : option arith_error :=
  if too_large n then Some OverflowError
  else if is_zero n then Some ZeroDivisionError
  else None.

(** The exception of [transform_coordinates] on the float dimensions of a
    page: an image width that cannot divide, an image height that cannot
    divide, or a coordinate of the box that is no float. *)
Definition arithmetic_cause (bb : bbox number)
    (image_width image_height : number) : option arith_error :=
  match divisor_cause image_width with
  | Some e => Some e
  | None =>
      match divisor_cause image_height with
      | Some e => Some e
      | None =>
          if too_large (b0 bb) || too_large (b2 bb)
             || too_large (b1 bb) || too_large (b3 bb)
          then Some OverflowError
          else None
      end
  end.

(** The cause for which the script itself stops at a field, if it does: no
    record for the page of the field, no such page in the document, or an
    exception of the arithmetic. *)
Definition cause (data : fields_data) (reader_pages : list (float * float))
    (field : form_field) : option failure :=
  match find (fun p => info_page_number p =? page_number field) (pages data) with
  | None => Some StopIteration
  | Some info =>
      if (page_number field <? 1)
         || (Z.of_nat (length reader_pages) <? page_number field)
      then Some (KeyError (page_number field))
      else
        match arithmetic_cause (entry_bounding_box field)
                (image_width info) (image_height info) with
        | Some e => Some (Arithmetic e)
        | None => None
        end
  end.

(** The example of the help text of the script, with a second field left
    empty, on a one-page document of 612 by 792 points. *)
Definition johnson : fields_data :=
  FieldsData
    [PageInfo 1 (Int 800) (Int 1100)]
    [FormField 1 (BBox (Int 100) (Int 125) (Int 280) (Int 142))
       (Some (EntryText (Some "Johnson") None (Some 14) (Some "000000")));
     FormField 1 (BBox (Int 100) (Int 160) (Int 280) (Int 177)) None].

Definition letter : list (float * float) :=
  [(Finite (612 # 1), Finite (792 # 1))].

(** Three fields for a document of one page: the second names a page
    that the document does not have, the third a page without a record. *)
Definition stray : fields_data :=
  FieldsData
    [PageInfo 1 (Int 800) (Int 1100); PageInfo 2 (Int 800) (Int 1100)]
    [FormField 1 (BBox (Int 100) (Int 125) (Int 280) (Int 142))
       (Some (EntryText (Some "Johnson") None None None));
     FormField 2 (BBox (Int 100) (Int 125) (Int 280) (Int 142)) None;
     FormField 3 (BBox (Int 100) (Int 125) (Int 280) (Int 142)) None].

(** A field whose box lies far out, on a page pictured by an image of
    one pixel: the products are infinite, and the arithmetic raises no
    exception. *)
Definition remote : fields_data :=
  FieldsData
    [PageInfo 1 (Int 1) (Int 1)]
    [FormField 1 (BBox (Float (Finite (inject_Z (2 ^ 1023))))
                       (Int 125)
                       (Float (Finite (inject_Z (2 ^ 1023))))
                       (Int 142))
       (Some (EntryText (Some "Johnson") None None None))].

End Annotate.

(* ===================================================================== *)
(** * Part II: the properties                                             *)
(* ===================================================================== *)


(** ** The geometry validator *)

Section BoxesFacts.
Import Boxes.

(** [rects_intersect] as a proposition on the coordinates. *)
Lemma rects_intersect_true (r1 r2 : rect) :
  rects_intersect r1 r2 = true <->
  ix0 r1 < ix2 r2 /\ ix0 r2 < ix2 r1 /\ ix1 r1 < ix3 r2 /\ ix1 r2 < ix3 r1.
Proof.
  unfold rects_intersect.
  rewrite negb_true_iff, !orb_false_iff, Z.geb_leb, Z.geb_leb, !Z.leb_gt.
  tauto.
Qed.

(** C2.  [rects_intersect r1 r2] is false exactly when
    [r1.left >= r2.right] or [r1.right <= r2.left] or [r1.top >= r2.bottom]
    or [r1.bottom <= r2.top], and true otherwise; two rectangles with a
    touching pair of edges (the right edge of one on the left edge of the
    other, the bottom edge of one on the top edge of the other) do not
    intersect; two rectangles whose common region has positive width and
    positive height intersect. *)
Theorem rects_intersect_spec (r1 r2 : rect) :
  (rects_intersect r1 r2 = false <->
     ix0 r1 >= ix2 r2 \/ ix2 r1 <= ix0 r2 \/
     ix1 r1 >= ix3 r2 \/ ix3 r1 <= ix1 r2)
  /\ (rects_intersect r1 r2 = true <->
     ~ (ix0 r1 >= ix2 r2 \/ ix2 r1 <= ix0 r2 \/
        ix1 r1 >= ix3 r2 \/ ix3 r1 <= ix1 r2))
  /\ (ix2 r1 = ix0 r2 \/ ix0 r1 = ix2 r2 \/
      ix3 r1 = ix1 r2 \/ ix1 r1 = ix3 r2 ->
      rects_intersect r1 r2 = false)
  /\ (Z.max (ix0 r1) (ix0 r2) < Z.min (ix2 r1) (ix2 r2) /\
      Z.max (ix1 r1) (ix1 r2) < Z.min (ix3 r1) (ix3 r2) ->
      rects_intersect r1 r2 = true).
Proof.
  pose proof (rects_intersect_true r1 r2) as Ht.
  assert (Hf : rects_intersect r1 r2 = false <->
               ~ (ix0 r1 < ix2 r2 /\ ix0 r2 < ix2 r1 /\
                  ix1 r1 < ix3 r2 /\ ix1 r2 < ix3 r1)).
  { rewrite <- Ht. destruct (rects_intersect r1 r2); split; congruence. }
  split; [| split; [| split]].
  - rewrite Hf. lia.
  - rewrite Ht. lia.
  - intros H. apply Hf. lia.
  - rewrite Ht, !Z.max_lub_lt_iff, !Z.min_glb_lt_iff. lia.
Qed.


(** *** The bound on the number of messages *)

Lemma emit_nil (s : loop_state) : below_bound s -> emit [] s = Next s.
Proof.
  unfold below_bound, emit. intros H. simpl. rewrite Nat.add_0_r, app_nil_r.
  apply Nat.ltb_lt in H. rewrite H. now destruct s.
Qed.

Lemma emit_one (m : message) (s : loop_state) :
  below_bound s -> emit [m] s = append_checked m s.
Proof.
  unfold below_bound, emit, append_checked. intros H.
  rewrite length_app. change (length [m]) with 1%nat.
  destruct (Nat.ltb_spec (length (fst s) + 1) 20) as [Hlt | Hge].
  - destruct (Nat.leb_spec 20 (length (fst s) + 1)); [lia | reflexivity].
  - destruct (Nat.leb_spec 20 (length (fst s) + 1)); [| lia].
    rewrite firstn_all2; [reflexivity |].
    rewrite length_app. change (length [m]) with 1%nat. lia.
Qed.

Lemma emit_next (f : list message) (s s' : loop_state) :
  emit f s = Next s' -> below_bound s'.
Proof.
  unfold emit, below_bound.
  destruct (Nat.ltb_spec (length (fst s) + length f) 20); [| discriminate].
  intros [= <-]. simpl. rewrite length_app. lia.
Qed.

(** Emitting [f1 ++ f2] is emitting [f1], then [f2] unless [f1] left the
    function. *)
Lemma emit_app (f1 f2 : list message) (s : loop_state) :
  below_bound s ->
  emit (f1 ++ f2) s =
  match emit f1 s with
  | Return ms => Return ms
  | Next s1 => emit f2 s1
  end.
Proof.
  unfold below_bound, emit. intros Hs. rewrite length_app.
  destruct (Nat.ltb_spec (length (fst s) + length f1) 20) as [H1 | H1].
  - cbn [fst snd]. rewrite length_app, app_assoc.
    rewrite <- Nat.add_assoc.
    destruct (Nat.ltb_spec (length (fst s) + (length f1 + length f2)) 20).
    + f_equal. f_equal. destruct f1, f2; reflexivity.
    + reflexivity.
  - destruct (Nat.ltb_spec (length (fst s) + (length f1 + length f2)) 20);
      [lia |].
    f_equal. f_equal. rewrite app_assoc.
    rewrite firstn_app.
    replace (20 - length (fst s ++ f1))%nat with 0%nat
      by (rewrite length_app; lia).
    now rewrite firstn_O, app_nil_r.
Qed.

Lemma inner_loop_emit (ri : RectAndField) (rest : list RectAndField) :
  forall s, below_bound s ->
  inner_loop ri rest s = emit (pair_findings ri rest) s.
Proof.
  induction rest as [| rj rest IH]; intros s Hs.
  - simpl. now rewrite emit_nil.
  - unfold pair_findings. simpl. fold (pair_findings ri rest).
    rewrite emit_app by assumption.
    destruct ((page_number (field ri) =? page_number (field rj))
              && rects_intersect (raf_rect ri) (raf_rect rj)).
    + rewrite emit_one by assumption.
      destruct (append_checked (intersection_message ri rj) s) as [s1 | ms] eqn:E;
        [| reflexivity].
      apply IH. rewrite <- emit_one in E by assumption.
      now apply emit_next in E.
    + rewrite emit_nil by assumption. now apply IH.
Qed.

Lemma height_check_emit (ri : RectAndField) (s : loop_state) :
  below_bound s -> height_check ri s = emit (height_finding ri) s.
Proof.
  intros Hs. unfold height_check, height_finding.
  destruct (rect_type ri); [now rewrite emit_nil |].
  destruct (entry_text (field ri)) as [et |]; [| now rewrite emit_nil].
  cbv zeta.
  destruct (ix3 (raf_rect ri) - ix1 (raf_rect ri) <?
            match font_size et with Some n => n | None => 14 end).
  - now rewrite emit_one.
  - now rewrite emit_nil.
Qed.

Lemma outer_loop_emit (l : list RectAndField) :
  forall s, below_bound s -> outer_loop l s = emit (all_findings l) s.
Proof.
  induction l as [| ri rest IH]; intros s Hs.
  - simpl. now rewrite emit_nil.
  - simpl. rewrite emit_app by assumption.
    rewrite inner_loop_emit by assumption.
    destruct (emit (pair_findings ri rest) s) as [s1 | ms] eqn:E1;
      [| reflexivity].
    apply emit_next in E1.
    rewrite emit_app by assumption.
    rewrite height_check_emit by assumption.
    destruct (emit (height_finding ri) s1) as [s2 | ms] eqn:E2;
      [| reflexivity].
    apply emit_next in E2. now apply IH.
Qed.

(** The output of the validator in terms of the findings. *)
Lemma get_bounding_box_messages_findings (form_fields : list form_field) :
  get_bounding_box_messages form_fields =
  MsgRead (length form_fields) ::
  let found := all_findings (rects_of 0 form_fields) in
  if (length found <? 19)%nat
  then found ++ match found with [] => [MsgSuccess] | _ => [] end
  else firstn 19 found ++ [MsgAbort].
Proof.
  unfold get_bounding_box_messages.
  rewrite outer_loop_emit by (unfold below_bound; simpl; lia).
  unfold emit. cbn [fst snd length app]. cbv zeta.
  change (1 + length (all_findings (rects_of 0 form_fields)) <? 20)%nat
    with (length (all_findings (rects_of 0 form_fields)) <? 19)%nat.
  destruct (length (all_findings (rects_of 0 form_fields)) <? 19)%nat.
  - destruct (all_findings (rects_of 0 form_fields)); simpl.
    + reflexivity.
    + now rewrite app_nil_r.
  - reflexivity.
Qed.


Lemma intersection_message_finding (ri rj : RectAndField) :
  is_finding (intersection_message ri rj) = true.
Proof. unfold intersection_message. now destruct (Nat.eqb _ _). Qed.

Lemma pair_findings_findings (ri : RectAndField) (rest : list RectAndField) :
  Forall (fun m => is_finding m = true) (pair_findings ri rest).
Proof.
  unfold pair_findings. induction rest as [| rj rest IH]; simpl.
  - constructor.
  - apply Forall_app. split; [| exact IH].
    destruct (_ && _); repeat constructor.
    apply intersection_message_finding.
Qed.

Lemma height_finding_findings (ri : RectAndField) :
  Forall (fun m => is_finding m = true) (height_finding ri).
Proof.
  unfold height_finding.
  destruct (rect_type ri); [constructor |].
  destruct (entry_text (field ri)); [| constructor].
  cbv zeta. destruct (_ <? _); repeat constructor.
Qed.

Lemma all_findings_findings (l : list RectAndField) :
  Forall (fun m => is_finding m = true) (all_findings l).
Proof.
  induction l as [| ri rest IH]; simpl.
  - constructor.
  - apply Forall_app. split; [apply pair_findings_findings |].
    apply Forall_app. split; [apply height_finding_findings | exact IH].
Qed.

Lemma in_firstn (A : Type) (n : nat) (x : A) (l : list A) :
  In x (firstn n l) -> In x l.
Proof.
  intros H. rewrite <- (firstn_skipn n l). apply in_or_app. now left.
Qed.

Lemma filter_all (A : Type) (p : A -> bool) (l : list A) :
  Forall (fun x => p x = true) l -> filter p l = l.
Proof.
  induction 1 as [| x l Hx _ IH]; simpl; [reflexivity |].
  now rewrite Hx, IH.
Qed.

Lemma not_in_findings (m : message) (l : list message) :
  is_finding m = false -> Forall (fun x => is_finding x = true) l -> ~ In m l.
Proof.
  intros Hm Hl Hin. rewrite Forall_forall in Hl. apply Hl in Hin. congruence.
Qed.

(** The shape of the output and the condition of the notice, for the two
    statements below. *)
Lemma bounded_reporting_shape (form_fields : list form_field) :
  let found := all_findings (rects_of 0 form_fields) in
  let messages := get_bounding_box_messages form_fields in
  messages =
    MsgRead (length form_fields) ::
    (if (length found <? 19)%nat
     then found ++ match found with [] => [MsgSuccess] | _ => [] end
     else firstn 19 found ++ [MsgAbort])
  /\ (In MsgAbort messages <-> (19 <= length found)%nat).
Proof.
  cbv zeta.
  pose proof (get_bounding_box_messages_findings form_fields) as E.
  cbv zeta in E.
  pose proof (all_findings_findings (rects_of 0 form_fields)) as F.
  set (found := all_findings (rects_of 0 form_fields)) in *.
  set (messages := get_bounding_box_messages form_fields) in *.
  split; [exact E |].
  rewrite E. destruct (Nat.ltb_spec (length found) 19) as [Hlt | Hge].
  - split; [| lia]. intros [H | H]; [discriminate |].
    apply in_app_or in H. destruct H as [H | H].
    + now apply not_in_findings in H.
    + destruct found; simpl in H; intuition discriminate.
  - split; [intros _; exact Hge |]. intros _. right.
    apply in_or_app. right. now left.
Qed.

(** C4.  The output of the geometry validator is the line "Read n fields"
    followed by the findings; as soon as the number of messages reaches 20,
    that is with the 19th finding, the notice "Aborting further checks" is
    appended as the last message and nothing else is reported.  The notice
    appears exactly when there are at least 19 findings.  On 25 fields whose
    boxes all overlap on one page, 19 of the 600 intersecting pairs are
    reported (fewer than C(25,2) = 300), then the notice. *)
Theorem bounded_reporting (form_fields : list form_field) :
  let found := all_findings (rects_of 0 form_fields) in
  let messages := get_bounding_box_messages form_fields in
  messages =
    MsgRead (length form_fields) ::
    (if (length found <? 19)%nat
     then found ++ match found with [] => [MsgSuccess] | _ => [] end
     else firstn 19 found ++ [MsgAbort])
  /\ (length messages <= 21)%nat
  /\ (In MsgAbort messages <-> (19 <= length found)%nat)
  /\ (In MsgAbort messages ->
      length messages = 21%nat /\
      last messages MsgSuccess = MsgAbort /\
      filter is_finding messages = firstn 19 found)
  /\ (let ms := get_bounding_box_messages (overlapping_fields 25) in
      length ms = 21%nat /\
      last ms MsgSuccess = MsgAbort /\
      length (filter is_finding ms) = 19%nat /\
      length (all_findings (rects_of 0 (overlapping_fields 25))) = 600%nat).
Proof.
  cbv zeta.
  pose proof (bounded_reporting_shape form_fields) as [E Habort].
  pose proof (all_findings_findings (rects_of 0 form_fields)) as F.
  set (found := all_findings (rects_of 0 form_fields)) in *.
  set (messages := get_bounding_box_messages form_fields) in *.
  assert (Hfirst : Forall (fun m => is_finding m = true) (firstn 19 found)).
  { rewrite Forall_forall in *. intros m Hm. apply F.
    eapply in_firstn; exact Hm. }
  split; [exact E |]. split; [| split; [exact Habort | split]].
  - rewrite E. destruct (Nat.ltb_spec (length found) 19) as [Hlt | Hge].
    + cbn [length]. rewrite length_app. destruct found; simpl in *; lia.
    + cbn [length]. rewrite length_app, length_firstn. cbn [length]. lia.
  - intros H. apply Habort in H. rewrite E.
    destruct (Nat.ltb_spec (length found) 19) as [Hlt | Hge]; [lia |].
    split; [| split].
    + cbn [length]. rewrite length_app, length_firstn. cbn [length]. lia.
    + change (MsgRead (length form_fields) :: firstn 19 found ++ [MsgAbort])
        with ((MsgRead (length form_fields) :: firstn 19 found) ++ [MsgAbort]).
      apply last_last.
    + cbn [filter is_finding]. rewrite filter_app. cbn [filter is_finding].
      rewrite app_nil_r. now apply filter_all.
  - vm_compute. repeat split.
Qed.

(** The height findings among all findings: they come from the entry boxes
    with text metadata that are lower than their font size. *)
Lemma too_short_in_pair_findings (ri : RectAndField)
    (rest : list RectAndField) (h fs : Z) (d : string) :
  ~ In (MsgTooShort h d fs) (pair_findings ri rest).
Proof.
  unfold pair_findings. rewrite in_flat_map. intros [rj [_ H]].
  destruct (_ && _); [| exact H].
  destruct H as [H | []]. unfold intersection_message in H.
  destruct (Nat.eqb _ _); discriminate.
Qed.

Lemma too_short_in_all_findings (fs : list form_field) :
  forall (k : nat) (m : message),
  (exists h d n, m = MsgTooShort h d n) ->
  (In m (all_findings (rects_of k fs)) <->
   exists f et, In f fs /\ entry_text f = Some et /\
                entry_height f < size_of et /\
                m = MsgTooShort (entry_height f) (description f) (size_of et)).
Proof.
  induction fs as [| f fs IH]; intros k m Hm.
  - simpl. split; [intros [] | intros [f [et [[] _]]]].
  - destruct Hm as [h [d [n ->]]].
    cbn [rects_of all_findings]. rewrite !in_app_iff.
    rewrite (IH (S k)) by eauto.
    unfold height_finding at 1 2. cbn [rect_type field raf_rect].
    fold (entry_height f).
    split.
    + intros [H | [[] | [H | [H | H]]]].
      * now apply too_short_in_pair_findings in H.
      * now apply too_short_in_pair_findings in H.
      * destruct (entry_text f) as [et |] eqn:Et; [| destruct H].
        fold (size_of et) in H.
        destruct (Z.ltb_spec (entry_height f) (size_of et)); [| destruct H].
        destruct H as [H | []]. exists f, et.
        repeat split; auto. now left.
      * destruct H as [f' [et [Hin H]]]. exists f', et. split; [now right | exact H].
    + intros [f' [et [[-> | Hin] [Et [Hlt Hm]]]]].
      * right. right. right. left. rewrite Et. fold (size_of et).
        apply Z.ltb_lt in Hlt. rewrite Hlt. left. now symmetry.
      * right. right. right. right. exists f', et. auto.
Qed.

(** C7, as amended.  In the output of the validator, a "too short" message always
    stems from an entry box that carries text metadata and whose height
    [bottom - top] is below its font size; a box without text metadata is
    never the origin of one, whatever its height.  When the validator has
    not aborted, an entry box with text metadata is flagged exactly when
    its height is below the font size.  The check itself, each time the
    loop reaches it, appends the message exactly when an entry box has text
    metadata and a height below the font size.  A single field of height 10 and
    font size 14 is flagged, one of height 25 is not, and one of height 5
    without text metadata is not. *)
Theorem entry_height_check (form_fields : list form_field) :
  let messages := get_bounding_box_messages form_fields in
  (forall h d fs, In (MsgTooShort h d fs) messages ->
     exists f et, In f form_fields /\ entry_text f = Some et /\
                  d = description f /\ h = entry_height f /\
                  fs = size_of et /\ h < fs)
  /\ (forall f et, In f form_fields -> entry_text f = Some et ->
      ~ In MsgAbort messages ->
      (In (MsgTooShort (entry_height f) (description f) (size_of et)) messages
       <-> entry_height f < size_of et))
  /\ (forall f fs, In f form_fields ->
      entry_text f = Some (EntryText (Some fs)) ->
      ~ In MsgAbort messages ->
      (In (MsgTooShort (ix3 (entry_bounding_box f) - ix1 (entry_bounding_box f))
                       (description f) fs) messages
       <-> ix3 (entry_bounding_box f) - ix1 (entry_bounding_box f) < fs))
  /\ (forall ri s,
      height_check ri s =
      match rect_type ri, entry_text (field ri) with
      | Entry, Some et =>
          if ix3 (raf_rect ri) - ix1 (raf_rect ri) <? size_of et
          then append_checked
                 (MsgTooShort (ix3 (raf_rect ri) - ix1 (raf_rect ri))
                              (description (field ri)) (size_of et)) s
          else Next s
      | _, _ => Next s
      end)
  /\ get_bounding_box_messages
       [FormField "TooSmallEntry" 1 (Rect 10 10 100 30) (Rect 110 10 200 20)
                  (Some (EntryText (Some 14)))]
     = [MsgRead 1; MsgTooShort 10 "TooSmallEntry" 14]
  /\ get_bounding_box_messages
       [FormField "AdequateEntry" 1 (Rect 10 10 100 30) (Rect 110 10 200 35)
                  (Some (EntryText (Some 14)))]
     = [MsgRead 1; MsgSuccess]
  /\ get_bounding_box_messages
       [FormField "NoEntryText" 1 (Rect 10 10 100 30) (Rect 110 10 200 15) None]
     = [MsgRead 1; MsgSuccess].
Proof.
  cbv zeta.
  pose proof (bounded_reporting_shape form_fields) as [E Habort].
  set (found := all_findings (rects_of 0 form_fields)) in *.
  set (messages := get_bounding_box_messages form_fields) in *.
  assert (Hsound : forall h d fs, In (MsgTooShort h d fs) messages ->
            In (MsgTooShort h d fs) found).
  { intros h d fs. rewrite E. intros [H | H]; [discriminate |].
    destruct (length found <? 19)%nat.
    - apply in_app_or in H. destruct H as [H | H]; [exact H |].
      destruct found; simpl in H; intuition discriminate.
    - apply in_app_or in H. destruct H as [H | H].
      + eapply in_firstn; exact H.
      + simpl in H. intuition discriminate. }
  assert (Hcomplete : ~ In MsgAbort messages ->
            forall m, In m found -> In m messages).
  { intros Hno m Hm. rewrite Habort in Hno. rewrite E.
    destruct (Nat.ltb_spec (length found) 19); [| lia].
    right. apply in_or_app. now left. }
  assert (Hmain : forall f et, In f form_fields -> entry_text f = Some et ->
      ~ In MsgAbort messages ->
      (In (MsgTooShort (entry_height f) (description f) (size_of et)) messages
       <-> entry_height f < size_of et)).
  { intros f et Hf Et Hno. split.
    - intros H. apply Hsound in H. unfold found in H.
      apply too_short_in_all_findings in H; [| eauto].
      destruct H as [f' [et' [_ [_ [Hlt Hm]]]]].
      injection Hm as -> _ ->. exact Hlt.
    - intros Hlt. apply Hcomplete; [exact Hno |]. unfold found.
      apply too_short_in_all_findings; [eauto |]. exists f, et. auto. }
  split; [| split; [exact Hmain | split; [| split]]].
  - intros h d fs H. apply Hsound in H. unfold found in H.
    apply too_short_in_all_findings in H; [| eauto].
    destruct H as [f [et [Hin [Et [Hlt Hm]]]]].
    injection Hm as -> -> ->. exists f, et. repeat split; assumption.
  - intros f fs Hf Et Hno. apply (Hmain f _ Hf Et Hno).
  - intros ri s. unfold height_check.
    destruct (rect_type ri); [reflexivity |].
    now destruct (entry_text (field ri)).
  - repeat split.
Qed.

(** C7, as stated, fails when the validator stops early.  On 25 fields of
    one page with the same boxes, each entry box has text metadata, height 5
    and font size 14, so each is too short; the 24 intersections of the
    first label box fill the output before the first height check is
    reached, and the validator returns without a single "too short"
    message. *)
Lemma entry_height_not_reached :
  Forall (fun f => entry_text f = Some (EntryText (Some 14))
                   /\ entry_height f = 5 /\ entry_height f < 14)
         (crowded_fields 25)
  /\ filter is_too_short (get_bounding_box_messages (crowded_fields 25)) = []
  /\ ~ In (MsgTooShort 5 "Field0" 14)
         (get_bounding_box_messages (crowded_fields 25))
  /\ last (get_bounding_box_messages (crowded_fields 25)) MsgSuccess = MsgAbort
  /\ length (get_bounding_box_messages (crowded_fields 25)) = 21%nat.
Proof.
  split; [| split; [| split; [| split]]].
  - repeat constructor.
  - vm_compute. reflexivity.
  - intros H.
    assert (Hf : In (MsgTooShort 5 "Field0" 14)
                    (filter is_too_short
                       (get_bounding_box_messages (crowded_fields 25))))
      by (apply filter_In; split; [exact H | reflexivity]).
    assert (E : filter is_too_short
                  (get_bounding_box_messages (crowded_fields 25)) = [])
      by (vm_compute; reflexivity).
    rewrite E in Hf. destruct Hf.
  - vm_compute. reflexivity.
  - vm_compute. reflexivity.
Qed.

End BoxesFacts.

(** ** The coordinate transform of the overlay filler *)

Section OverlayFacts.
Import Overlay.

Lemma Qdiv_checked_pos (x y : Q) :
  (0 < y)%Q -> Qdiv_checked x y = inr (x / y)%Q.
Proof.
  intros Hy. unfold Qdiv_checked.
  destruct (Qeq_bool y 0) eqn:E; [| reflexivity].
  apply Qeq_bool_eq in E. rewrite E in Hy. now apply Qlt_irrefl in Hy.
Qed.

(** *** Integers that are floats *)

Lemma round_half_even_multiple (q d : Z) :
  0 < d -> round_half_even (q * d) d = q.
Proof.
  intros Hd. unfold round_half_even.
  rewrite Z.div_mul, Z.mod_mul by lia.
  change (2 * 0) with 0.
  destruct (Z.compare_spec 0 d); [lia | reflexivity | lia].
Qed.

Lemma Qred_inject_Z (z : Z) : Qred (inject_Z z) = inject_Z z.
Proof.
  unfold Qred, inject_Z.
  pose proof (Z.ggcd_gcd z 1) as Hg.
  pose proof (Z.ggcd_correct_divisors z 1) as Hd.
  destruct (Z.ggcd z 1) as [g [aa bb]]. cbn [fst snd] in *.
  rewrite Z.gcd_1_r in Hg. subst g. destruct Hd as [Ha Hb].
  replace aa with z by lia. replace bb with 1 by lia. reflexivity.
Qed.

(** An integer of magnitude at most 2^53 is a float. *)
Lemma b64_round_int (z : Z) :
  Z.abs z <= 2 ^ 53 -> b64_round (inject_Z z) = inject_Z z.
Proof.
  intros Hz. unfold b64_round.
  change (Qnum (inject_Z z)) with z. change (Z.pos (Qden (inject_Z z))) with 1.
  destruct (Z.eqb_spec z 0) as [-> | Hne]; [reflexivity |].
  transitivity (Qred (inject_Z z)); [| apply Qred_inject_Z].
  apply Qred_complete.
  set (a := Z.abs z) in *.
  assert (Ha : 0 < a) by (unfold a; lia).
  assert (Hsgn : Z.sgn z * a = z) by (unfold a; lia).
  pose proof (Z.log2_spec a Ha) as [Hlo Hhi].
  pose proof (Z.log2_nonneg a) as Hnn.
  assert (Hlog : Z.log2 a <= 53).
  { destruct (Z_le_gt_dec (Z.log2 a) 53) as [H | H]; [exact H |].
    assert (2 ^ 54 <= 2 ^ Z.log2 a) by (apply Z.pow_le_mono_r; lia).
    assert (2 ^ 53 < 2 ^ 54) by reflexivity. lia. }
  assert (Hfl : floor_log2 a 1 = Z.log2 a).
  { unfold floor_log2. change (Z.log2 1) with 0. rewrite Z.sub_0_r.
    rewrite (Z.max_l 0 (- Z.log2 a)), (Z.max_r 0 (Z.log2 a)) by lia.
    change (2 ^ 0) with 1.
    destruct (Z.ltb_spec (a * 1) (1 * 2 ^ Z.log2 a)); [lia | reflexivity]. }
  rewrite Hfl. rewrite (Z.max_l (Z.log2 a - 52) (- 1074)) by lia.
  unfold scale2.
  destruct (Z.ltb_spec (Z.log2 a - 52) 0) as [Hk | Hk].
  - replace (a * 2 ^ (- (Z.log2 a - 52))) with (a * 2 ^ (- (Z.log2 a - 52)) * 1)
      by lia.
    rewrite round_half_even_multiple by lia.
    assert (Hp : 0 < 2 ^ (- (Z.log2 a - 52))) by (apply Z.pow_pos_nonneg; lia).
    unfold Qeq. cbn [Qnum Qden inject_Z].
    rewrite Z2Pos.id by exact Hp. rewrite Z.mul_1_r.
    rewrite Z.mul_assoc, Hsgn. reflexivity.
  - assert (Hcases : Z.log2 a = 52 \/ Z.log2 a = 53) by lia.
    destruct Hcases as [E | E]; rewrite E in *.
    + change (52 - 52) with 0. change (1 * 2 ^ 0) with 1.
      replace a with (a * 1) at 1 by lia.
      rewrite round_half_even_multiple by lia.
      change (2 ^ 0) with 1. rewrite Z.mul_1_r, Hsgn. reflexivity.
    + assert (Ea : a = 2 ^ 53) by lia. rewrite Ea in *.
      change (53 - 52) with 1. change (1 * 2 ^ 1) with 2.
      change (2 ^ 53) with (2 ^ 52 * 2) at 1.
      rewrite round_half_even_multiple by lia.
      change (2 ^ 1) with 2.
      replace (Z.sgn z * 2 ^ 52 * 2) with (Z.sgn z * 2 ^ 53) by
        (change (2 ^ 53) with (2 ^ 52 * 2); lia).
      rewrite Hsgn. reflexivity.
Qed.

Lemma b64_of_Q_in_range (q : Q) :
  in_range q -> b64_of_Q q = Finite (b64_round q).
Proof.
  unfold in_range, b64_of_Q. intros H.
  destruct (Qle_bool (inject_Z (2 ^ 1024)) (Qabs (b64_round q))) eqn:E;
    [| reflexivity].
  apply Qle_bool_iff in E. exfalso. eapply Qlt_not_le; eassumption.
Qed.

Lemma as_float_plain (n : number) (q : Q) :
  plain n q -> as_float n = inr (Finite q).
Proof.
  destruct n as [z | [x | s |]]; cbn [plain as_float]; try contradiction.
  - intros [Hz ->].
    rewrite b64_of_Q_in_range; [now rewrite b64_round_int |].
    unfold in_range. rewrite b64_round_int by exact Hz.
    assert (H53 : 2 ^ 53 < 2 ^ 1024) by reflexivity.
    unfold Qabs, inject_Z, Qlt. cbn [Qnum Qden]. lia.
  - now intros [_ ->].
Qed.

(** The three operations on operands and results within range. *)
Lemma number_truediv_plain (a b : number) (x y : Q) :
  plain a x -> plain b y -> ~ (y == 0)%Q -> in_range (x / y) ->
  number_truediv a b = inr (Float (Finite (b64_round (x / y)))).
Proof.
  intros Ha Hb Hy Hr.
  assert (Hzero : Qeq_bool y 0 = false).
  { destruct (Qeq_bool y 0) eqn:E; [| reflexivity].
    apply Qeq_bool_eq in E. contradiction. }
  assert (Hfloat :
    (let! u := as_float a in let! v := as_float b in
     let! q := float_div u v in inr (Float q))
    = inr (Float (Finite (b64_round (x / y))))).
  { rewrite (as_float_plain a x Ha), (as_float_plain b y Hb).
    cbn [and_then float_div]. rewrite Hzero. cbn [and_then].
    now rewrite b64_of_Q_in_range. }
  destruct a as [za | fa], b as [zb | fb]; try exact Hfloat.
  cbn [plain] in Ha, Hb. destruct Ha as [_ ->], Hb as [_ ->].
  cbn [number_truediv].
  destruct (Z.eqb_spec zb 0) as [-> | _]; [now contradiction Hy |].
  now rewrite b64_of_Q_in_range.
Qed.

Lemma number_mul_float (a : number) (x s : Q) :
  plain a x -> in_range (x * s) ->
  number_mul a (Float (Finite s)) = inr (Float (Finite (b64_round (x * s)))).
Proof.
  intros Ha Hr.
  assert (E : (let! u := as_float a in let! v := as_float (Float (Finite s)) in
               inr (Float (float_mul u v)))
              = inr (Float (Finite (b64_round (x * s))))).
  { rewrite (as_float_plain a x Ha). cbn [and_then as_float float_mul].
    now rewrite b64_of_Q_in_range. }
  destruct a; exact E.
Qed.

Lemma number_sub_float (a : number) (x m : Q) :
  plain a x -> in_range (x - m) ->
  number_sub a (Float (Finite m)) = inr (Float (Finite (b64_round (x - m)))).
Proof.
  intros Ha Hr.
  assert (E : (let! u := as_float a in let! v := as_float (Float (Finite m)) in
               inr (Float (float_sub u v)))
              = inr (Float (Finite (b64_round (x - m))))).
  { rewrite (as_float_plain a x Ha). cbn [and_then as_float float_sub].
    now rewrite b64_of_Q_in_range. }
  destruct a; exact E.
Qed.

(** C3, as amended.  With exact arithmetic, for positive image dimensions,
    [transform_coordinates] returns
    [(l*w/W, h - b*h/H, r*w/W, h - t*h/H)] as (left, bottom, right, top).
    Python computes in binary64, scale factors first: for operands that
    are finite floats or integers of magnitude at most 2^53, and as long
    as no intermediate result leaves the range of the finite floats, it
    returns [l * (w / W)], [h - b * (h / H)], [r * (w / W)] and
    [h - t * (h / H)] with each operation rounded.  On image (800, 1100),
    page (612, 792) and box [100, 125, 280, 142] the floats returned are
    left = 76.5, bottom = 689.76, top = 702 and
    right = 214.20000000000002. *)
Theorem transform_coordinates_formula (l t r b W H w h : Q) :
  (0 < W)%Q -> (0 < H)%Q ->
  (exists box,
     transform_coordinates_exact (BBox l t r b) W H w h = inr box /\
     (left box == l * w / W)%Q /\
     (bottom box == h - b * h / H)%Q /\
     (right box == r * w / W)%Q /\
     (top box == h - t * h / H)%Q)
  /\ (forall nl nt nr nb nW nH nw nh : number,
        plain nl l -> plain nt t -> plain nr r -> plain nb b ->
        plain nW W -> plain nH H -> plain nw w -> plain nh h ->
        let sx := b64_round (w / W) in
        let sy := b64_round (h / H) in
        in_range (w / W) -> in_range (h / H) ->
        in_range (l * sx) -> in_range (r * sx) ->
        in_range (t * sy) -> in_range (b * sy) ->
        in_range (h - b64_round (t * sy)) ->
        in_range (h - b64_round (b * sy)) ->
        transform_coordinates_b64 (BBox nl nt nr nb) nW nH nw nh =
        inr (PdfBox (Float (Finite (b64_round (l * sx))))
                    (Float (Finite (b64_round (h - b64_round (b * sy)))))
                    (Float (Finite (b64_round (r * sx))))
                    (Float (Finite (b64_round (h - b64_round (t * sy)))))))
  /\ (transform_coordinates_b64
        (BBox (Int 100) (Int 125) (Int 280) (Int 142))
        (Int 800) (Int 1100) (Int 612) (Int 792) =
      inr (PdfBox (Float (Finite (b64_round 76.5)))
                  (Float (Finite (b64_round 689.76)))
                  (Float (Finite (b64_round 214.20000000000002)))
                  (Float (Finite (b64_round 702)))))%Q.
Proof.
  intros HW HH.
  assert (HW0 : ~ (W == 0)%Q)
    by (intros E; rewrite E in HW; now apply Qlt_irrefl in HW).
  assert (HH0 : ~ (H == 0)%Q)
    by (intros E; rewrite E in HH; now apply Qlt_irrefl in HH).
  split; [| split].
  - unfold transform_coordinates_exact, transform_coordinates.
    rewrite !Qdiv_checked_pos by assumption. cbn [and_then].
    eexists. split; [reflexivity |]. cbn [left bottom right top b0 b1 b2 b3].
    repeat split; field; assumption.
  - intros nl nt nr nb nW nH nw nh Pl Pt Pr Pb PW PH Pw Ph sx sy
           Rx Ry Rl Rr Rt Rb Rtop Rbottom.
    unfold transform_coordinates_b64, transform_coordinates.
    cbn [b0 b1 b2 b3].
    rewrite (number_truediv_plain nw nW w W Pw PW HW0 Rx). cbn [and_then].
    rewrite (number_truediv_plain nh nH h H Ph PH HH0 Ry). cbn [and_then].
    fold sx sy.
    rewrite (number_mul_float nl l sx Pl Rl). cbn [and_then].
    rewrite (number_mul_float nr r sx Pr Rr). cbn [and_then].
    rewrite (number_mul_float nt t sy Pt Rt). cbn [and_then].
    rewrite (number_sub_float nh h _ Ph Rtop). cbn [and_then].
    rewrite (number_mul_float nb b sy Pb Rb). cbn [and_then].
    rewrite (number_sub_float nh h _ Ph Rbottom). cbn [and_then].
    reflexivity.
  - vm_compute. reflexivity.
Qed.

(** The statement above at the example of the design document: the exact
    values, and the floats that Python returns for the integers of the
    example. *)
Lemma transform_coordinates_formula_witness :
  (0 < 800)%Q /\ (0 < 1100)%Q /\
  (exists box,
    (transform_coordinates_exact (BBox 100 125 280 142) 800 1100 612 792
     = inr box)%Q /\
    (left box == 76.5)%Q /\ (bottom box == 689.76)%Q /\
    (right box == 214.2)%Q /\ (top box == 702)%Q)
  /\ transform_coordinates_b64
       (BBox (Int 100) (Float (Finite 125)) (Int 280) (Int 142))
       (Int 800) (Int 1100) (Float (Finite 612)) (Float (Finite 792))
     = inr (PdfBox (Float (Finite (153 # 2)))
                   (Float (Finite (3033596561499095 # 4398046511104)))
                   (Float (Finite (7536492501427815 # 35184372088832)))
                   (Float (Finite 702))).
Proof.
  assert (HW : (0 < 800)%Q) by reflexivity.
  assert (HH : (0 < 1100)%Q) by reflexivity.
  split; [exact HW |]. split; [exact HH |].
  destruct (transform_coordinates_formula 100%Q 125%Q 280%Q 142%Q
              800%Q 1100%Q 612%Q 792%Q HW HH)
    as [[box [E [Hl [Hb [Hr Ht]]]]] [Hfloat _]].
  split.
  - exists box. split; [exact E |].
    rewrite Hl, Hb, Hr, Ht. repeat split; reflexivity.
  - rewrite (Hfloat (Int 100) (Float (Finite 125)) (Int 280) (Int 142)
               (Int 800) (Int 1100) (Float (Finite 612)) (Float (Finite 792)));
      try (vm_compute; reflexivity);
      try (cbn [plain]; split; [vm_compute; try reflexivity; discriminate
                               | reflexivity]).
Defined.

(** C3, as stated, fails on the floats the code computes: on the example
    the right edge returned is not the float 214.2 (it is the next float
    above it), although [280 * 612 / 800] evaluates to 214.2. *)
Lemma transform_coordinates_right_edge :
  exists box,
    transform_coordinates_b64
      (BBox (Int 100) (Int 125) (Int 280) (Int 142))
      (Int 800) (Int 1100) (Int 612) (Int 792) = inr box /\
    right box <> Float (b64_of_Q 214.2%Q) /\
    (let! p := number_mul (Int 280) (Int 612) in number_truediv p (Int 800))
    = inr (Float (b64_of_Q 214.2%Q)) /\
    left box = Float (b64_of_Q 76.5%Q) /\
    top box = Float (b64_of_Q 702%Q) /\
    bottom box = Float (b64_of_Q 689.76%Q).
Proof.
  eexists. split; [vm_compute; reflexivity |].
  cbn [left right top bottom].
  split; [| split; [| split; [| split]]];
    try (vm_compute; reflexivity).
  vm_compute. discriminate.
Qed.

(** Beyond the range: a product of floats that is too large is an
    infinity, not an exception; an integer operand too large for a float
    raises OverflowError, a quotient of integers too; a zero image width
    raises ZeroDivisionError; an integer above 2^53 is rounded when it
    meets a float. *)
Example transform_coordinates_beyond :
  transform_coordinates_b64
    (BBox (Float (Finite (inject_Z (2 ^ 1023)))) (Int 0) (Int 0) (Int 0))
    (Int 1) (Int 1) (Float (Finite 612)) (Float (Finite 792))
  = inr (PdfBox (Float (Inf false)) (Float (Finite 792))
                (Float (Finite 0)) (Float (Finite 792)))
  /\ transform_coordinates_b64
       (BBox (Int (10 ^ 400)) (Int 0) (Int 0) (Int 0))
       (Int 1) (Int 1) (Float (Finite 612)) (Float (Finite 792))
     = inl OverflowError
  /\ number_truediv (Int (10 ^ 400)) (Int 1) = inl OverflowError
  /\ transform_coordinates_b64
       (BBox (Int 100) (Int 125) (Int 280) (Int 142))
       (Int 0) (Int 1100) (Float (Finite 612)) (Float (Finite 792))
     = inl ZeroDivisionError
  /\ number_mul (Int (2 ^ 53 + 1)) (Float (Finite 1))
     = inr (Float (Finite (inject_Z (2 ^ 53)))).
Proof. repeat split; vm_compute; reflexivity. Qed.

End OverlayFacts.

(** ** The field schema extractor *)

Section ExtractFacts.
Import Py Extract.

(** *** The walk along the parent chain *)

Lemma short_names_cons (a : annotation) (c : list annotation) :
  short_names (a :: c) = short_names [a] ++ short_names c.
Proof. unfold short_names. simpl. now rewrite app_nil_r. Qed.

(** On a finite chain the loop collects the short names leaf first and
    leaves after one test of its condition per annotation, plus one. *)
Lemma walk_chain (st : store) :
  forall (n : nat) (a : annotation) (c : list annotation)
         (components : list string) (fuel : nat),
  chain n st a = Some c ->
  (length c < fuel)%nat ->
  walk fuel st (Some a) components = Done (components ++ short_names c).
Proof.
  induction n as [| n IH]; intros a c components fuel Hc Hfuel.
  - simpl in Hc. destruct (Parent a) as [r |] eqn:Pa; [discriminate |].
    injection Hc as <-. simpl in Hfuel.
    destruct fuel as [| [| fuel]]; try lia.
    cbn [walk]. rewrite Pa. cbn [option_map].
    unfold short_names. simpl. rewrite app_nil_r.
    destruct (T a) as [name |]; [| now rewrite app_nil_r].
    destruct (String.eqb name ""); [now rewrite app_nil_r | reflexivity].
  - simpl in Hc. destruct (Parent a) as [r |] eqn:Pa.
    + destruct (chain n st (st r)) as [c' |] eqn:Hc'; [| discriminate].
      injection Hc as <-. simpl in Hfuel.
      destruct fuel as [| fuel]; [lia |].
      cbn [walk]. rewrite Pa. cbn [option_map].
      rewrite (IH (st r) c' _ fuel Hc') by lia.
      rewrite short_names_cons, app_assoc. f_equal. f_equal.
      unfold short_names. simpl. rewrite app_nil_r.
      destruct (T a) as [name |]; [| now rewrite app_nil_r].
      destruct (String.eqb name ""); [now rewrite app_nil_r | reflexivity].
    + injection Hc as <-. simpl in Hfuel.
      destruct fuel as [| [| fuel]]; try lia.
      cbn [walk]. rewrite Pa. cbn [option_map].
      unfold short_names. simpl. rewrite app_nil_r.
      destruct (T a) as [name |]; [| now rewrite app_nil_r].
      destruct (String.eqb name ""); [now rewrite app_nil_r | reflexivity].
Qed.

(** C6, as amended.  For every annotation whose parent chain is finite, the
    construction of the field id terminates, after one iteration per
    dictionary of the chain, with the short names joined by dots from the
    root to the leaf ([None] when there is no name). *)
Theorem get_full_annotation_field_id_terminates (st : store) (n : nat)
    (a : annotation) (c : list annotation) :
  chain n st a = Some c ->
  forall fuel, (length c < fuel)%nat ->
  get_full_annotation_field_id fuel st a =
  Done (match short_names c with
        | [] => None
        | names => Some (String.concat "." (rev names))
        end).
Proof.
  intros Hc fuel Hfuel. unfold get_full_annotation_field_id.
  rewrite (walk_chain st n a c [] fuel Hc Hfuel). cbn [bind app].
  now destruct (short_names c).
Qed.

(** The statement above on the annotation "b" of the field "a". *)
Lemma get_full_annotation_field_id_terminates_witness :
  chain 1 tree_store leaf_annotation = Some [leaf_annotation; root_annotation]
  /\ get_full_annotation_field_id 3 tree_store leaf_annotation
     = Done (Some "a.b").
Proof.
  assert (Hc : chain 1 tree_store leaf_annotation
               = Some [leaf_annotation; root_annotation]) by reflexivity.
  split; [exact Hc |].
  apply (get_full_annotation_field_id_terminates tree_store 1 leaf_annotation
           [leaf_annotation; root_annotation] Hc 3%nat).
  simpl. lia.
Defined.

Lemma walk_cyclic (fuel : nat) :
  forall components,
  walk fuel cyclic_store (Some cyclic_annotation) components = OutOfFuel.
Proof.
  induction fuel as [| fuel IH]; intros components; [reflexivity |].
  cbn [walk]. apply IH.
Qed.

(** C6, as stated, fails: the loop has no depth guard.  On an annotation
    that is its own parent no number of iterations lets the function
    return, and no chain to a root exists. *)
Lemma get_full_annotation_field_id_cyclic :
  diverges cyclic_store cyclic_annotation
  /\ ~ (exists fuel id,
          get_full_annotation_field_id fuel cyclic_store cyclic_annotation
          = Done id).
Proof.
  assert (D : diverges cyclic_store cyclic_annotation).
  { intros fuel. unfold get_full_annotation_field_id.
    now rewrite walk_cyclic. }
  split; [exact D |].
  intros [fuel [id H]]. rewrite D in H. discriminate.
Qed.

(** *** Check boxes *)

(** C8.  For a button field with exactly two states: when the first is
    "/Off" the checked value is the second, when the second is "/Off" the
    checked value is the first, and the unchecked value is "/Off", without
    a warning; when neither is "/Off" a warning is printed, the checked
    value is the first state and the unchecked value the second.  The
    extraction goes on: a document with such a check box yields its entry
    together with the warning. *)
Theorem make_field_dict_checkbox (field_id : string) (kids : bool) :
  (forall s1,
     let r := make_field_dict (PdfField (FT_Btn ["/Off"; s1]) kids) field_id in
     type (fst r) = checkbox /\ checked_value (fst r) = Some s1 /\
     unchecked_value (fst r) = Some "/Off" /\ snd r = [])
  /\ (forall s0,
     let r := make_field_dict (PdfField (FT_Btn [s0; "/Off"]) kids) field_id in
     type (fst r) = checkbox /\ checked_value (fst r) = Some s0 /\
     unchecked_value (fst r) = Some "/Off" /\ snd r = [])
  /\ (forall s0 s1, s0 <> "/Off" -> s1 <> "/Off" ->
     let r := make_field_dict (PdfField (FT_Btn [s0; s1]) kids) field_id in
     type (fst r) = checkbox /\ checked_value (fst r) = Some s0 /\
     unchecked_value (fst r) = Some s1 /\
     snd r = [WarnUnexpectedStates field_id])
  /\ get_field_info 2 tree_store yes_no_fields yes_no_pages =
     Done ([FieldInfo "agree" checkbox (Some "/Yes") (Some "/No") None
                      (Some 1) (Some (PdfRect 10 20 30 40)) None],
           [WarnUnexpectedStates "agree"]).
Proof.
  split; [| split; [| split; [| reflexivity]]].
  - intros s1. unfold make_field_dict. cbn. repeat split.
  - intros s0. unfold make_field_dict. cbn.
    destruct (String.eqb_spec s0 "/Off") as [-> | Hne]; cbn; repeat split.
  - intros s0 s1 H0 H1. unfold make_field_dict. cbn.
    apply String.eqb_neq in H0, H1. rewrite H0, H1. cbn. repeat split.
Qed.

(** *** The order of the keys and the sort *)

Lemma Qltb_lt (x y : Q) : Qltb x y = true <-> (x < y)%Q.
Proof.
  unfold Qltb. rewrite negb_true_iff. split.
  - intros H. apply Qnot_le_lt. intros Hle.
    apply Qle_bool_iff in Hle. congruence.
  - intros H. destruct (Qle_bool y x) eqn:E; [| reflexivity].
    apply Qle_bool_iff in E. now apply Qlt_not_le in H.
Qed.

Lemma position_lt_false (a b : Q * Q) :
  position_lt b a = false <-> position_le a b.
Proof.
  unfold position_lt, position_le.
  destruct (Qeq_bool (fst b) (fst a)) eqn:E.
  - apply Qeq_bool_iff in E.
    rewrite <- not_true_iff_false, Qltb_lt. split.
    + intros H. right. split; [now symmetry |]. now apply Qnot_lt_le.
    + intros [H | [_ H]].
      * rewrite E in H. now apply Qlt_irrefl in H.
      * now apply Qle_not_lt.
  - apply Qeq_bool_neq in E.
    rewrite <- not_true_iff_false, Qltb_lt. split.
    + intros H. left. apply Qnot_lt_le in H.
      apply Qle_lteq in H. destruct H as [H | H]; [exact H |].
      exfalso. apply E. now symmetry.
    + intros [H | [H _]].
      * intros H'. apply (Qlt_irrefl (fst a)). now apply Qlt_trans with (fst b).
      * exfalso. apply E. now symmetry.
Qed.

Lemma key_lt_false (a b : key) : key_lt b a = false <-> key_le a b.
Proof.
  unfold key_lt, key_le.
  destruct (fst a) as [pa |], (fst b) as [pb |].
  - destruct (Z.eqb_spec pb pa) as [-> | Hne].
    + rewrite position_lt_false. split; [intros H; right; auto |].
      intros [H | [_ H]]; [lia | exact H].
    + rewrite Z.ltb_ge. split; [intros H; left; lia |].
      intros [H | [H _]]; lia.
  - split; [discriminate | intros []].
  - split; [constructor | reflexivity].
  - apply position_lt_false.
Qed.

Lemma position_le_trans (a b c : Q * Q) :
  position_le a b -> position_le b c -> position_le a c.
Proof.
  unfold position_le. intros [H1 | [H1 H1']] [H2 | [H2 H2']].
  - left. now apply Qlt_trans with (fst b).
  - left. now rewrite <- H2.
  - left. now rewrite H1.
  - right. split; [now rewrite H1 | now apply Qle_trans with (snd b)].
Qed.

Lemma position_le_total (a b : Q * Q) : position_le a b \/ position_le b a.
Proof.
  unfold position_le.
  destruct (Q_dec (fst a) (fst b)) as [[H | H] | H]; auto.
  destruct (Qlt_le_dec (snd b) (snd a)) as [H' | H'].
  - right. right. split; [now symmetry | now apply Qlt_le_weak].
  - left. right. split; assumption.
Qed.

Lemma key_le_trans (a b c : key) : key_le a b -> key_le b c -> key_le a c.
Proof.
  unfold key_le.
  destruct (fst a) as [pa |], (fst b) as [pb |], (fst c) as [pc |];
    try tauto.
  - intros [H1 | [-> H1]] [H2 | [-> H2]]; try (left; lia).
    right. split; [reflexivity |]. now apply position_le_trans with (snd b).
  - apply position_le_trans.
Qed.

Lemma key_le_total (a b : key) : key_le a b \/ key_le b a.
Proof.
  unfold key_le.
  destruct (fst a) as [pa |], (fst b) as [pb |]; auto.
  - destruct (Z.lt_trichotomy pa pb) as [H | [-> | H]]; auto.
    destruct (position_le_total (snd a) (snd b)); auto.
  - apply position_le_total.
Qed.

Lemma insert_keyed_perm (x : key * field_info) (l : list (key * field_info)) :
  Permutation (insert_keyed x l) (x :: l).
Proof.
  induction l as [| y l IH]; simpl; [reflexivity |].
  destruct (key_lt (fst y) (fst x)); [| reflexivity].
  rewrite IH. apply perm_swap.
Qed.

Lemma sort_keyed_perm (l : list (key * field_info)) :
  Permutation (sort_keyed l) l.
Proof.
  induction l as [| x l IH]; simpl; [reflexivity |].
  rewrite insert_keyed_perm. now constructor.
Qed.

Lemma insert_keyed_sorted (x : key * field_info)
    (l : list (key * field_info)) :
  StronglySorted keyed_le l -> StronglySorted keyed_le (insert_keyed x l).
Proof.
  induction 1 as [| y l Hl IH Hy]; simpl.
  - repeat constructor.
  - destruct (key_lt (fst y) (fst x)) eqn:E.
    + constructor; [exact IH |].
      eapply Permutation_Forall; [symmetry; apply insert_keyed_perm |].
      constructor; [| exact Hy].
      unfold keyed_le. destruct (key_le_total (fst y) (fst x)) as [H | H];
        [exact H |].
      apply key_lt_false in H. congruence.
    + apply key_lt_false in E.
      constructor; [now constructor |].
      constructor; [exact E |].
      eapply Forall_impl; [| exact Hy].
      intros z Hz. unfold keyed_le in *. now apply key_le_trans with (fst y).
Qed.

Lemma sort_keyed_sorted (l : list (key * field_info)) :
  StronglySorted keyed_le (sort_keyed l).
Proof.
  induction l as [| x l IH]; simpl; [constructor |].
  now apply insert_keyed_sorted.
Qed.

(** *** Dictionaries *)

Section DictFacts.
Context {V : Type}.
Implicit Types (d : dict V) (k : string) (v : V).

Lemma dict_get_set_same k v d : dict_get k (dict_set k v d) = Some v.
Proof.
  induction d as [| [k' v'] d IH]; simpl.
  - now rewrite String.eqb_refl.
  - destruct (String.eqb k k') eqn:E; simpl; now rewrite E.
Qed.

Lemma dict_get_set_other k k' v d :
  k <> k' -> dict_get k' (dict_set k v d) = dict_get k' d.
Proof.
  intros Hne. induction d as [| [k0 v0] d IH]; simpl.
  - apply String.eqb_neq in Hne. rewrite String.eqb_sym in Hne.
    now rewrite Hne.
  - destruct (String.eqb_spec k k0) as [-> | H0]; simpl.
    + destruct (String.eqb_spec k' k0) as [-> | H1]; [contradiction | reflexivity].
    + now rewrite IH.
Qed.

Lemma dict_set_set k v1 v2 d : dict_set k v2 (dict_set k v1 d) = dict_set k v2 d.
Proof.
  induction d as [| [k' v'] d IH]; simpl.
  - now rewrite String.eqb_refl.
  - destruct (String.eqb k k') eqn:E; simpl; rewrite E; [reflexivity |].
    now rewrite IH.
Qed.

Lemma dict_get_in k v d : dict_get k d = Some v -> In (k, v) d.
Proof.
  induction d as [| [k' v'] d IH]; simpl; [discriminate |].
  destruct (String.eqb_spec k k') as [-> | Hne].
  - intros [= ->]. now left.
  - intros H. right. now apply IH.
Qed.

Lemma dict_get_none k d : dict_get k d = None <-> ~ In k (map fst d).
Proof.
  induction d as [| [k' v'] d IH]; simpl; [tauto |].
  destruct (String.eqb_spec k k') as [-> | Hne].
  - split; [discriminate | intros H; exfalso; apply H; now left].
  - rewrite IH. split; [intros H [E | H']; [congruence | tauto] | tauto].
Qed.

Lemma in_dict_get k v d : NoDup (map fst d) -> In (k, v) d -> dict_get k d = Some v.
Proof.
  induction d as [| [k' v'] d IH]; simpl; [intros _ [] |].
  intros Hnd [E | Hin].
  - injection E as -> ->. now rewrite String.eqb_refl.
  - inversion Hnd as [| ? ? Hk Hd]; subst.
    destruct (String.eqb_spec k k') as [-> | Hne].
    + exfalso. apply Hk. now apply (in_map fst) in Hin.
    + now apply IH.
Qed.

Lemma dict_set_keys k v d :
  map fst (dict_set k v d) =
  if dict_mem k d then map fst d else map fst d ++ [k].
Proof.
  unfold dict_mem. induction d as [| [k' v'] d IH]; simpl; [reflexivity |].
  destruct (String.eqb k k') eqn:E; simpl; [reflexivity |].
  rewrite IH. now destruct (dict_get k d).
Qed.

Lemma dict_set_nodup k v d :
  NoDup (map fst d) -> NoDup (map fst (dict_set k v d)).
Proof.
  intros H. rewrite dict_set_keys. unfold dict_mem.
  destruct (dict_get k d) eqn:E; [exact H |].
  apply dict_get_none in E.
  apply NoDup_rev in H. rewrite <- (rev_involutive (map fst d ++ [k])).
  apply NoDup_rev. rewrite rev_app_distr. simpl.
  constructor; [| exact H]. now rewrite <- in_rev.
Qed.

Lemma dict_set_forall (P : string * V -> Prop) k v d :
  Forall P d -> P (k, v) -> Forall P (dict_set k v d).
Proof.
  intros Hd Hk. induction Hd as [| [k' v'] d Hx Hd IH]; simpl.
  - now repeat constructor.
  - destruct (String.eqb_spec k k') as [-> | Hne]; constructor; auto.
Qed.

(** The values of a dictionary filed under the key [k]. *)
Lemma dict_values_filter (key_of : V -> string) k d :
  NoDup (map fst d) ->
  Forall (fun kv => key_of (snd kv) = fst kv) d ->
  filter (fun v => String.eqb (key_of v) k) (dict_values d) =
  match dict_get k d with Some v => [v] | None => [] end.
Proof.
  unfold dict_values.
  induction d as [| [k' v'] d IH]; simpl; [reflexivity |].
  intros Hnd Hd. inversion Hnd as [| ? ? Hk Hnd']; subst.
  inversion Hd as [| ? ? Hv Hd']; subst. simpl in Hv.
  rewrite Hv, IH by assumption.
  destruct (String.eqb_spec k' k) as [-> | Hne].
  - rewrite String.eqb_refl.
    destruct (dict_get k d) eqn:E; [| reflexivity].
    apply dict_get_in in E. exfalso. apply Hk.
    now apply (in_map fst) in E.
  - apply not_eq_sym in Hne. apply String.eqb_neq in Hne. now rewrite Hne.
Qed.

End DictFacts.

(** *** Invariants of the scan *)

Lemma filed_nil (P : field_info -> Prop) : filed P [].
Proof. split; constructor. Qed.

Lemma filed_set (P : field_info -> Prop) (d : dict field_info)
    (k : string) (v : field_info) :
  filed P d -> field_id v = k -> P v -> filed P (dict_set k v d).
Proof.
  intros [Hnd Hd] Hk Hv. split.
  - now apply dict_set_nodup.
  - apply dict_set_forall; [exact Hd |]. now split.
Qed.

Lemma filed_get (P : field_info -> Prop) (d : dict field_info)
    (k : string) (v : field_info) :
  filed P d -> dict_get k d = Some v -> field_id v = k /\ P v.
Proof.
  intros [_ Hd] Hget. apply dict_get_in in Hget.
  rewrite Forall_forall in Hd. exact (Hd _ Hget).
Qed.

Lemma make_field_dict_plain (field : pdf_field) (id : string) :
  field_id (fst (make_field_dict field id)) = id /\
  plain_entry (fst (make_field_dict field id)).
Proof.
  unfold make_field_dict, plain_entry.
  destruct (FT field) as [| states | states | ft]; cbn;
    try (repeat split; (reflexivity || discriminate)).
  destruct states as [| s0 [| s1 [| s2 states]]]; cbn;
    try (repeat split; (reflexivity || discriminate)).
  destruct (_ || _); cbn; repeat split; (reflexivity || discriminate).
Qed.

Lemma collect_fields_filed (fields : dict pdf_field) :
  forall acc, filed plain_entry (defs_info acc) ->
  filed plain_entry (defs_info (collect_fields fields acc)).
Proof.
  induction fields as [| [id field] fields IH]; intros acc Hacc;
    [exact Hacc |].
  cbn [collect_fields]. destruct (Kids field).
  - apply IH. now destruct (is_btn (FT field)).
  - destruct (make_field_dict field id) as [field_dict printed] eqn:E.
    apply IH. cbn [defs_info].
    pose proof (make_field_dict_plain field id) as [Hid Hplain].
    rewrite E in Hid, Hplain. now apply filed_set.
Qed.

Lemma with_location_plain (p : Z) (r : option pdf_rect) (f : field_info) :
  plain_entry f -> plain_entry (with_location p r f).
Proof. intros H. exact H. Qed.

Lemma add_radio_option_filed (id : string) (p : Z) (value : string)
    (r : option pdf_rect) (radio : dict field_info) :
  filed group_entry radio ->
  filed group_entry (add_radio_option id p value r radio).
Proof.
  intros Hr. unfold add_radio_option, dict_mem.
  destruct (dict_get id radio) as [group |] eqn:E.
  - rewrite E. destruct (filed_get _ _ _ _ Hr E) as [Hid [Ht [Hp Ho]]].
    apply filed_set; [exact Hr | exact Hid |].
    split; [exact Ht |]. split; [exact Hp |].
    destruct Ho as [o [options Ho]]. cbn. rewrite Ho.
    now exists o, (options ++ [(value, r)]).
  - rewrite dict_get_set_same, dict_set_set.
    apply filed_set; [exact Hr | reflexivity |].
    split; [reflexivity |]. split; [discriminate |].
    now exists (value, r), [].
Qed.

Lemma visit_annotation_ok (fuel : nat) (st : store) (names : list string)
    (page_index : nat) (ann : annotation) (t t' : tables) :
  tables_ok t ->
  visit_annotation fuel st names page_index ann t = Done t' ->
  tables_ok t'.
Proof.
  intros [Hi Hr]. unfold visit_annotation.
  destruct (get_full_annotation_field_id fuel st ann) as [id | |];
    cbn [bind]; try discriminate.
  destruct id as [id |]; [| intros [= <-]; now split].
  destruct (dict_get id (field_info_by_id t)) as [info |] eqn:E.
  - intros [= <-]. split; [| exact Hr]. cbn.
    destruct (filed_get _ _ _ _ Hi E) as [Hid Hp].
    now apply filed_set.
  - destruct (name_in id names); [| intros [= <-]; now split].
    destruct (AP_N ann) as [keys |]; [| intros [= <-]; now split].
    destruct (on_values_of keys) as [| value [| ? ?]];
      intros [= <-]; try now split.
    split; [exact Hi |]. cbn. now apply add_radio_option_filed.
Qed.

Lemma chain_length (st : store) :
  forall n a c, chain n st a = Some c -> (length c <= S n)%nat.
Proof.
  induction n as [| n IH]; intros a c; simpl;
    destruct (Parent a) as [r |]; try discriminate.
  - intros [= <-]. simpl. lia.
  - destruct (chain n st (st r)) as [c' |] eqn:E; [| discriminate].
    intros [= <-]. simpl. apply IH in E. lia.
  - intros [= <-]. simpl. lia.
Qed.

(** With a finite chain and enough iterations the id is computed. *)
Lemma get_full_annotation_field_id_done (st : store) (n fuel : nat)
    (a : annotation) :
  chain n st a <> None -> (S n < fuel)%nat ->
  exists id, get_full_annotation_field_id fuel st a = Done id.
Proof.
  intros Hc Hfuel. destruct (chain n st a) as [c |] eqn:E; [| congruence].
  eexists. unfold get_full_annotation_field_id.
  rewrite (walk_chain st n a c [] fuel E); [reflexivity |].
  apply chain_length in E. lia.
Qed.

Lemma visit_annotation_done (fuel n : nat) (st : store) (names : list string)
    (page_index : nat) (ann : annotation) (t : tables) :
  chain n st ann <> None -> (S n < fuel)%nat ->
  exists t', visit_annotation fuel st names page_index ann t = Done t'.
Proof.
  intros Hc Hfuel.
  destruct (get_full_annotation_field_id_done st n fuel ann Hc Hfuel)
    as [id Hid].
  unfold visit_annotation. rewrite Hid. cbn [bind].
  destruct id as [id |]; [| eauto].
  destruct (dict_get id (field_info_by_id t)); [eauto |].
  destruct (name_in id names); [| eauto].
  destruct (AP_N ann) as [keys |]; [| eauto].
  destruct (on_values_of keys) as [| value [| ? ?]]; eauto.
Qed.

Lemma visit_annotations_done (fuel n : nat) (st : store)
    (names : list string) (page_index : nat) (anns : list annotation) :
  (S n < fuel)%nat ->
  Forall (fun a => chain n st a <> None) anns ->
  forall t, tables_ok t ->
  exists t', visit_annotations fuel st names page_index anns t = Done t'
             /\ tables_ok t'.
Proof.
  intros Hfuel. induction 1 as [| a anns Ha _ IH]; intros t Ht.
  - exists t. now split.
  - cbn [visit_annotations].
    destruct (visit_annotation_done fuel n st names page_index a t Ha Hfuel)
      as [t1 H1].
    rewrite H1. cbn [bind]. apply IH.
    eapply visit_annotation_ok; eassumption.
Qed.

Lemma visit_pages_done (fuel n : nat) (st : store) (names : list string)
    (pages : list (list annotation)) :
  (S n < fuel)%nat -> chains_within n st pages ->
  forall page_index t, tables_ok t ->
  exists t', visit_pages fuel st names page_index pages t = Done t'
             /\ tables_ok t'.
Proof.
  intros Hfuel. unfold chains_within.
  induction 1 as [| anns pages Ha _ IH]; intros page_index t Ht.
  - exists t. now split.
  - cbn [visit_pages].
    destruct (visit_annotations_done fuel n st names page_index anns Hfuel Ha
                t Ht) as [t1 [H1 Ht1]].
    rewrite H1. cbn [bind]. now apply IH.
Qed.

(** *** The sort of the entries *)

Lemma locate_kept (P : field_info -> Prop) (infos : list field_info) :
  Forall P infos ->
  Forall (fun f => page f <> None /\ P f) (fst (locate infos)).
Proof.
  induction 1 as [| f infos Hf _ IH]; simpl; [constructor |].
  destruct (locate infos) as [kept printed]. simpl in IH.
  destruct (page f) eqn:E; simpl; [| exact IH].
  constructor; [| exact IH]. split; [congruence | exact Hf].
Qed.

Lemma sort_key_sortable (f : field_info) :
  sortable f -> sort_key f = Done (reading_key f).
Proof.
  unfold sortable, sort_key, reading_key, key_rect.
  intros [_ [[Ho [Ht _]] | [Ht [_ [[v r] [options Ho]]]]]]; rewrite Ho.
  - destruct (type f); try reflexivity. congruence.
  - now rewrite Ht.
Qed.

Lemma keyed_sortable (l : list field_info) :
  Forall sortable l -> keyed l = Done (map (fun f => (reading_key f, f)) l).
Proof.
  induction 1 as [| f l Hf _ IH]; simpl; [reflexivity |].
  now rewrite (sort_key_sortable f Hf), IH.
Qed.

Lemma reading_key_order (f g : field_info) :
  sortable f -> sortable g ->
  key_le (reading_key f) (reading_key g) -> reading_order f g.
Proof.
  unfold sortable, key_le, reading_key, reading_order. cbn [fst snd].
  intros [Hf _] [Hg _].
  destruct (page f) as [pf |]; [| congruence].
  destruct (page g) as [pg |]; [| congruence].
  intros H. now exists pf, pg.
Qed.

Lemma StronglySorted_map (A B : Type) (R : A -> A -> Prop)
    (R' : B -> B -> Prop) (P : A -> Prop) (f : A -> B) (l : list A) :
  (forall x y, P x -> P y -> R x y -> R' (f x) (f y)) ->
  Forall P l -> StronglySorted R l -> StronglySorted R' (map f l).
Proof.
  intros HR HP HS. induction HS as [| x l _ IH Hx]; simpl; [constructor |].
  inversion HP as [| ? ? Px Pl]; subst.
  constructor; [now apply IH |].
  rewrite Forall_map. rewrite Forall_forall in *.
  intros y Hy. apply HR; auto.
Qed.

(** Sorting sortable entries succeeds and puts them in reading order. *)
Lemma sort_fields_sorted (l : list field_info) :
  Forall sortable l ->
  exists sorted,
    sort_fields l = Done sorted /\ Permutation sorted l /\
    StronglySorted reading_order sorted.
Proof.
  intros Hl. unfold sort_fields. rewrite (keyed_sortable l Hl). cbn [bind].
  set (d := map (fun f => (reading_key f, f)) l).
  eexists. split; [reflexivity |].
  assert (Hd : Forall (fun kf => fst kf = reading_key (snd kf)
                                /\ sortable (snd kf)) (sort_keyed d)).
  { eapply Permutation_Forall; [symmetry; apply sort_keyed_perm |].
    unfold d. rewrite Forall_map. eapply Forall_impl; [| exact Hl].
    intros f Hf. now split. }
  split.
  - rewrite (Permutation_map snd (sort_keyed_perm d)).
    unfold d. rewrite map_map. cbn [snd]. now rewrite map_id.
  - eapply StronglySorted_map; [| exact Hd | apply sort_keyed_sorted].
    intros [k1 f1] [k2 f2] [E1 S1] [E2 S2] Hle.
    unfold keyed_le in Hle. cbn [fst snd] in *. subst.
    now apply reading_key_order.
Qed.

(** The entries that reach the sort. *)
Lemma sortable_entries (t : tables) :
  tables_ok t ->
  Forall sortable (fst (locate (dict_values (field_info_by_id t)))
                   ++ dict_values (radio_fields_by_id t)).
Proof.
  intros [[_ Hi] [_ Hr]]. apply Forall_app. split.
  - eapply Forall_impl;
      [| apply (locate_kept plain_entry)].
    + intros f [Hp Hf]. split; [exact Hp | now left].
    + unfold dict_values. rewrite Forall_map.
      eapply Forall_impl; [| exact Hi]. now intros kv [_ H].
  - unfold dict_values. rewrite Forall_map.
    eapply Forall_impl; [| exact Hr].
    intros kv [_ H]. split; [apply H | now right].
Qed.

(** What [get_field_info] returns, in terms of the tables of the scan. *)
Lemma get_field_info_done (n fuel : nat) (st : store)
    (fields : dict pdf_field) (pages : list (list annotation)) :
  chains_within n st pages -> (S n < fuel)%nat -> fields <> [] ->
  exists t sorted,
    let defs := collect_fields fields (Definitions [] [] []) in
    visit_pages fuel st (defs_radio_names defs) 0 pages
      (Tables (defs_info defs) []) = Done t /\
    tables_ok t /\
    get_field_info fuel st fields pages =
      Done (sorted,
            defs_warnings defs
            ++ snd (locate (dict_values (field_info_by_id t)))) /\
    Permutation sorted
      (fst (locate (dict_values (field_info_by_id t)))
       ++ dict_values (radio_fields_by_id t)) /\
    StronglySorted reading_order sorted.
Proof.
  intros Hc Hfuel Hne. cbv zeta.
  set (defs := collect_fields fields (Definitions [] [] [])).
  assert (Hok : tables_ok (Tables (defs_info defs) [])).
  { split; [| apply filed_nil]. cbn. apply collect_fields_filed.
    apply filed_nil. }
  destruct (visit_pages_done fuel n st (defs_radio_names defs) pages Hfuel Hc
              0%nat _ Hok) as [t [Ht Htok]].
  destruct (sort_fields_sorted _ (sortable_entries t Htok))
    as [sorted [Hs [Hperm Hsorted]]].
  exists t, sorted. split; [exact Ht |]. split; [exact Htok |].
  split; [| now split].
  unfold get_field_info. destruct fields as [| kv fields']; [congruence |].
  fold defs. rewrite Ht. cbn [bind].
  destruct (locate (dict_values (field_info_by_id t))) as [kept printed].
  cbn [fst snd] in *. rewrite Hs. reflexivity.
Qed.

(** *** Radio groups *)

Lemma visit_scan_app (fuel : nat) (st : store) (names : list string)
    (l1 l2 : list (nat * annotation)) :
  forall t,
  visit_scan fuel st names (l1 ++ l2) t =
  (t' <- visit_scan fuel st names l1 t ;; visit_scan fuel st names l2 t').
Proof.
  induction l1 as [| [k a] l1 IH]; intros t; [reflexivity |].
  cbn [app visit_scan].
  destruct (visit_annotation fuel st names k a t); cbn [bind];
    [apply IH | reflexivity | reflexivity].
Qed.

Lemma visit_annotations_scan (fuel : nat) (st : store) (names : list string)
    (k : nat) (anns : list annotation) :
  forall t,
  visit_annotations fuel st names k anns t =
  visit_scan fuel st names (map (pair k) anns) t.
Proof.
  induction anns as [| a anns IH]; intros t; [reflexivity |].
  cbn [visit_annotations map visit_scan].
  destruct (visit_annotation fuel st names k a t); cbn [bind];
    [apply IH | reflexivity | reflexivity].
Qed.

Lemma visit_pages_scan (fuel : nat) (st : store) (names : list string)
    (pages : list (list annotation)) :
  forall k t,
  visit_pages fuel st names k pages t =
  visit_scan fuel st names (scan_from k pages) t.
Proof.
  induction pages as [| anns pages IH]; intros k t; [reflexivity |].
  cbn [visit_pages scan_from].
  rewrite visit_scan_app, visit_annotations_scan.
  destruct (visit_scan fuel st names (map (pair k) anns) t); cbn [bind];
    [apply IH | reflexivity | reflexivity].
Qed.

Lemma add_radio_option_get_same (g : string) (k : nat) (value : string)
    (r : option pdf_rect) (radio : dict field_info) :
  dict_get g (add_radio_option g (Z.of_nat k + 1) value r radio) =
  grow g (dict_get g radio) (k, (value, r)).
Proof.
  unfold add_radio_option, dict_mem, grow.
  destruct (dict_get g radio) as [group |] eqn:E.
  - rewrite E. now rewrite dict_get_set_same.
  - now rewrite dict_get_set_same, dict_set_set, dict_get_set_same.
Qed.

Lemma add_radio_option_get_other (g id : string) (p : Z) (value : string)
    (r : option pdf_rect) (radio : dict field_info) :
  id <> g ->
  dict_get g (add_radio_option id p value r radio) = dict_get g radio.
Proof.
  intros Hne. unfold add_radio_option, dict_mem.
  destruct (dict_get id radio) as [group |] eqn:E.
  - rewrite E. now apply dict_get_set_other.
  - rewrite dict_get_set_same, dict_set_set. now apply dict_get_set_other.
Qed.

Section Group.
Variables (fuel : nat) (st : store) (names : list string) (g : string).
Hypothesis g_named : name_in g names = true.

(** One annotation: the entry of [g] grows by the option of the
    annotation when the annotation is a button of [g], and is left alone
    otherwise; [g] stays out of the dictionary of the plain fields. *)
Lemma visit_annotation_group (k : nat) (a : annotation) (t t' : tables) :
  dict_get g (field_info_by_id t) = None ->
  visit_annotation fuel st names k a t = Done t' ->
  dict_get g (field_info_by_id t') = None /\
  dict_get g (radio_fields_by_id t') =
  fold_left (grow g)
    (placed_options
       (filter (fun pa => names_group fuel st g (snd pa)) [(k, a)]))
    (dict_get g (radio_fields_by_id t)).
Proof.
  intros Hg. unfold visit_annotation, names_group, placed_options.
  cbn [filter snd].
  destruct (get_full_annotation_field_id fuel st a) as [id | |];
    cbn [bind]; try discriminate.
  destruct id as [id |]; [| intros [= <-]; now split].
  destruct (dict_get id (field_info_by_id t)) as [info |] eqn:E.
  - assert (Hne : id <> g) by congruence.
    intros [= <-]. cbn [field_info_by_id radio_fields_by_id].
    rewrite dict_get_set_other by exact Hne.
    apply String.eqb_neq in Hne. rewrite Hne. now split.
  - destruct (String.eqb_spec id g) as [-> | Hne].
    + rewrite g_named. cbn [flat_map fst snd]. unfold radio_option_of.
      destruct (AP_N a) as [keys |]; [| intros [= <-]; now split].
      destruct (on_values_of keys) as [| value [| ? ?]];
        intros [= <-]; try now split.
      cbn [field_info_by_id radio_fields_by_id app fold_left].
      split; [exact Hg |]. apply add_radio_option_get_same.
    + cbn [flat_map fold_left].
      destruct (name_in id names); [| intros [= <-]; now split].
      destruct (AP_N a) as [keys |]; [| intros [= <-]; now split].
      destruct (on_values_of keys) as [| value [| ? ?]];
        intros [= <-]; try now split.
      cbn [field_info_by_id radio_fields_by_id].
      split; [exact Hg |]. now apply add_radio_option_get_other.
Qed.

Lemma visit_scan_group (l : list (nat * annotation)) :
  forall t t',
  dict_get g (field_info_by_id t) = None ->
  visit_scan fuel st names l t = Done t' ->
  dict_get g (field_info_by_id t') = None /\
  dict_get g (radio_fields_by_id t') =
  fold_left (grow g)
    (placed_options (filter (fun pa => names_group fuel st g (snd pa)) l))
    (dict_get g (radio_fields_by_id t)).
Proof.
  induction l as [| [k a] l IH]; intros t t' Hg.
  - intros [= <-]. now split.
  - cbn [visit_scan].
    destruct (visit_annotation fuel st names k a t) as [t1 | |] eqn:E1;
      cbn [bind]; try discriminate.
    intros Hrest.
    destruct (visit_annotation_group k a t t1 Hg E1) as [Hg1 Hr1].
    destruct (IH t1 t' Hg1 Hrest) as [Hg' Hr'].
    split; [exact Hg' |]. rewrite Hr', Hr1.
    change ((k, a) :: l) with ([(k, a)] ++ l).
    rewrite filter_app. unfold placed_options at 3.
    rewrite flat_map_app, fold_left_app. reflexivity.
Qed.

End Group.

(** The entry that a non-empty list of placed options builds. *)
Lemma fold_grow_some (g : string) (placed : list (nat * (string * option pdf_rect))) :
  forall group,
  fold_left (grow g) placed (Some group) =
  Some (match placed with
        | [] => group
        | _ => with_radio_options
                 (match radio_options group with Some o => o | None => [] end
                  ++ map snd placed) group
        end).
Proof.
  induction placed as [| po placed IH]; intros group; [reflexivity |].
  cbn [fold_left]. unfold grow at 2. rewrite IH.
  destruct placed as [| po' placed]; [reflexivity |].
  cbn. now rewrite <- app_assoc.
Qed.

Lemma fold_grow_none (g : string) (po : nat * (string * option pdf_rect))
    (placed : list (nat * (string * option pdf_rect))) :
  fold_left (grow g) (po :: placed) None =
  Some (FieldInfo g radio_group None None None (Some (Z.of_nat (fst po) + 1))
                  None (Some (map snd (po :: placed)))).
Proof.
  cbn [fold_left]. unfold grow at 2. rewrite fold_grow_some.
  now destruct placed.
Qed.

(** The first loop: a button field with children gives its name to
    [possible_radio_names] and gets no entry of its own. *)
Lemma collect_fields_names (g : string) (field : pdf_field)
    (fields : dict pdf_field) :
  forall acc,
  In (g, field) fields \/ name_in g (defs_radio_names acc) = true ->
  Kids field = true -> is_btn (FT field) = true ->
  name_in g (defs_radio_names (collect_fields fields acc)) = true.
Proof.
  induction fields as [| [id f] fields IH]; intros acc Hin Hk Hb.
  - destruct Hin as [[] | H]. exact H.
  - cbn [collect_fields].
    destruct Hin as [[E | Hin] | Hacc].
    + injection E as -> ->. rewrite Hk, Hb. apply IH; auto.
      right. cbn. unfold name_in. rewrite existsb_app. cbn.
      now rewrite String.eqb_refl, orb_true_r.
    + destruct (Kids f); [| destruct (make_field_dict f id)]; apply IH; auto.
    + destruct (Kids f).
      * apply IH; auto. right. destruct (is_btn (FT f)); [| exact Hacc].
        cbn. unfold name_in in *. rewrite existsb_app. now rewrite Hacc.
      * destruct (make_field_dict f id). apply IH; auto.
Qed.

Lemma collect_fields_no_entry (g : string) (fields : dict pdf_field) :
  forall acc,
  (forall f, In (g, f) fields -> Kids f = true) ->
  dict_get g (defs_info acc) = None ->
  dict_get g (defs_info (collect_fields fields acc)) = None.
Proof.
  induction fields as [| [id f] fields IH]; intros acc Hk Hacc;
    [exact Hacc |].
  cbn [collect_fields].
  assert (Hk' : forall f', In (g, f') fields -> Kids f' = true)
    by (intros f' H; apply Hk; now right).
  destruct (Kids f) eqn:Kf.
  - apply IH; [exact Hk' |]. now destruct (is_btn (FT f)).
  - destruct (make_field_dict f id) as [field_dict printed].
    apply IH; [exact Hk' |]. cbn [defs_info].
    rewrite dict_get_set_other; [exact Hacc |].
    intros ->. specialize (Hk f (or_introl eq_refl)). congruence.
Qed.

Lemma nodup_keys_unique (V : Type) (d : dict V) (k : string) (v v' : V) :
  NoDup (map fst d) -> In (k, v) d -> In (k, v') d -> v = v'.
Proof.
  intros Hnd H1 H2. apply (in_dict_get k v d Hnd) in H1.
  apply (in_dict_get k v' d Hnd) in H2. congruence.
Qed.

Lemma Permutation_filter (A : Type) (p : A -> bool) (l l' : list A) :
  Permutation l l' -> Permutation (filter p l) (filter p l').
Proof.
  induction 1 as [| x l l' _ IH | x y l | l l' l'' _ IH1 _ IH2]; simpl.
  - constructor.
  - destruct (p x); [now constructor | exact IH].
  - destruct (p x), (p y); try reflexivity. apply perm_swap.
  - now transitivity (filter p l').
Qed.

Lemma locate_filter (p : field_info -> bool) (infos : list field_info) :
  filter p infos = [] -> filter p (fst (locate infos)) = [].
Proof.
  induction infos as [| f infos IH]; simpl; [reflexivity |].
  destruct (locate infos) as [kept printed]. simpl in IH.
  destruct (p f) eqn:E; [discriminate |]. intros H.
  destruct (page f); simpl; [rewrite E |]; now apply IH.
Qed.

Lemma placed_options_all (l : list (nat * annotation)) :
  Forall (fun pa => radio_option_of (snd pa) <> None) l ->
  map (fun po => Some (snd po)) (placed_options l) =
  map (fun pa => radio_option_of (snd pa)) l.
Proof.
  unfold placed_options.
  induction 1 as [| pa l Hpa _ IH]; simpl; [reflexivity |].
  destruct (radio_option_of (snd pa)) as [o |]; [| congruence].
  simpl. now rewrite IH.
Qed.

(** C5.  Let [g] be the name of a button field with children, in a
    document whose annotations have finite parent chains, and let the
    annotations whose field id is [g] (its buttons, N of them, N > 0) each
    have exactly one appearance state other than "/Off".  Then the
    extraction returns a schema with exactly one entry of id [g]; it is a
    [radio_group] whose options are the (value, rect) pairs of the N
    buttons, one per button, in the order of the scan of the pages. *)
Theorem radio_group_single_entry (n fuel : nat) (st : store)
    (fields : dict pdf_field) (pages : list (list annotation))
    (g : string) (field : pdf_field) :
  NoDup (map fst fields) ->
  In (g, field) fields -> Kids field = true -> is_btn (FT field) = true ->
  chains_within n st pages -> (S n < fuel)%nat ->
  buttons fuel st g pages <> [] ->
  Forall (fun pa => radio_option_of (snd pa) <> None)
         (buttons fuel st g pages) ->
  exists sorted_fields printed entry options,
    get_field_info fuel st fields pages = Done (sorted_fields, printed) /\
    filter (fun f => String.eqb (field_id f) g) sorted_fields = [entry] /\
    type entry = radio_group /\
    radio_options entry = Some options /\
    length options = length (buttons fuel st g pages) /\
    map Some options =
    map (fun pa => radio_option_of (snd pa)) (buttons fuel st g pages).
Proof.
  intros Hnd Hin Hk Hb Hc Hfuel Hne Hall.
  assert (Hfields : fields <> []) by (intros ->; destruct Hin).
  destruct (get_field_info_done n fuel st fields pages Hc Hfuel Hfields)
    as [t [sorted [Hvisit [[Hinfo Hradio] [Hres [Hperm _]]]]]].
  cbv zeta in Hvisit.
  set (defs := collect_fields fields (Definitions [] [] [])) in *.
  rewrite visit_pages_scan in Hvisit.
  assert (Hname : name_in g (defs_radio_names defs) = true).
  { apply (collect_fields_names g field); auto. }
  assert (Hnone : dict_get g (defs_info defs) = None).
  { apply collect_fields_no_entry; [| reflexivity].
    intros f Hf. now rewrite (nodup_keys_unique _ fields g f field Hnd Hf Hin). }
  destruct (visit_scan_group fuel st (defs_radio_names defs) g Hname
              (scan_from 0 pages) (Tables (defs_info defs) []) t Hnone Hvisit)
    as [Hg Hgroup].
  fold (buttons fuel st g pages) in Hgroup. cbn [radio_fields_by_id] in Hgroup.
  pose proof (placed_options_all _ Hall) as Hplaced.
  destruct (placed_options (buttons fuel st g pages)) as [| po placed] eqn:Ep.
  { destruct (buttons fuel st g pages); [congruence | discriminate]. }
  cbn [dict_get] in Hgroup. rewrite fold_grow_none in Hgroup.
  set (entry := FieldInfo g radio_group None None None
                  (Some (Z.of_nat (fst po) + 1)) None
                  (Some (map snd (po :: placed)))) in *.
  exists sorted, (defs_warnings defs
                  ++ snd (locate (dict_values (field_info_by_id t)))),
    entry, (map snd (po :: placed)).
  split; [exact Hres |]. split; [| split; [reflexivity | split; [reflexivity |]]].
  - apply Permutation_filter
      with (p := fun f => String.eqb (field_id f) g) in Hperm.
    rewrite filter_app in Hperm.
    rewrite locate_filter in Hperm.
    + rewrite (dict_values_filter field_id g (radio_fields_by_id t)) in Hperm.
      * rewrite Hgroup in Hperm. cbn [app] in Hperm.
        apply Permutation_sym, Permutation_length_1_inv in Hperm. exact Hperm.
      * apply Hradio.
      * eapply Forall_impl; [| apply Hradio]. now intros kv [H _].
    + rewrite (dict_values_filter field_id g (field_info_by_id t)).
      * now rewrite Hg.
      * apply Hinfo.
      * eapply Forall_impl; [| apply Hinfo]. now intros kv [H _].
  - rewrite <- Hplaced. rewrite map_map.
    split; [| reflexivity].
    rewrite <- (length_map (fun pa => radio_option_of (snd pa))
                  (buttons fuel st g pages)).
    rewrite <- Hplaced. now rewrite !length_map.
Qed.

(** The statement above on the sample form, whose group "gender" has two
    buttons. *)
Lemma radio_group_single_entry_witness :
  exists sorted_fields printed entry,
    get_field_info 3 sample_store sample_fields sample_pages
    = Done (sorted_fields, printed) /\
    filter (fun f => String.eqb (field_id f) "gender") sorted_fields
    = [entry] /\
    radio_options entry =
    Some [("/M", Some (PdfRect 50 400 60 410));
          ("/F", Some (PdfRect 100 400 110 410))].
Proof.
  assert (Hnd : NoDup (map fst sample_fields)).
  { repeat constructor; simpl; intuition discriminate. }
  assert (Hin : In ("gender", PdfField (FT_Btn ["/M"; "/F"; "/Off"]) true)
                   sample_fields) by (right; left; reflexivity).
  assert (Hc : chains_within 1 sample_store sample_pages)
    by (repeat constructor; discriminate).
  assert (Hfuel : (2 < 3)%nat) by lia.
  assert (Hne : buttons 3 sample_store "gender" sample_pages <> [])
    by discriminate.
  assert (Hall : Forall (fun pa => radio_option_of (snd pa) <> None)
                        (buttons 3 sample_store "gender" sample_pages))
    by (repeat constructor; discriminate).
  destruct (radio_group_single_entry 1 3 sample_store sample_fields
              sample_pages "gender" _ Hnd Hin eq_refl eq_refl Hc Hfuel
              Hne Hall)
    as [sorted [printed [entry [options [E [Hf [_ [Ho [_ Hm]]]]]]]]].
  exists sorted, printed, entry. split; [exact E |]. split; [exact Hf |].
  rewrite Ho. f_equal.
  change (map (fun pa => radio_option_of (snd pa))
            (buttons 3 sample_store "gender" sample_pages))
    with [Some ("/M", Some (PdfRect 50 400 60 410));
          Some ("/F", Some (PdfRect 100 400 110 410))] in Hm.
  destruct options as [| o1 [| o2 [| o3 options]]]; try discriminate.
  simpl in Hm. injection Hm as -> ->. reflexivity.
Defined.

(** *** The entries of an extracted schema *)

Lemma visit_scan_ok (fuel : nat) (st : store) (names : list string)
    (l : list (nat * annotation)) :
  forall t t', tables_ok t -> visit_scan fuel st names l t = Done t' ->
  tables_ok t'.
Proof.
  induction l as [| [k a] l IH]; intros t t' Ht.
  - now intros [= <-].
  - cbn [visit_scan].
    destruct (visit_annotation fuel st names k a t) as [t1 | |] eqn:E;
      cbn [bind]; try discriminate.
    apply IH. eapply visit_annotation_ok; eassumption.
Qed.

(** Whenever the extraction returns, every entry has a page and is either
    an entry made by [make_field_dict] or the entry of a radio group, and
    the entries are in reading order. *)
Lemma get_field_info_returns (fuel : nat) (st : store)
    (fields : dict pdf_field) (pages : list (list annotation))
    (schema : list field_info) (printed : list warning) :
  get_field_info fuel st fields pages = Done (schema, printed) ->
  Forall sortable schema /\ StronglySorted reading_order schema.
Proof.
  unfold get_field_info. destruct fields as [| kv fields'].
  - intros [= <- _]. split; constructor.
  - set (defs := collect_fields (kv :: fields') (Definitions [] [] [])).
    destruct (visit_pages fuel st (defs_radio_names defs) 0 pages
                (Tables (defs_info defs) [])) as [t | |] eqn:Ev;
      cbn [bind]; try discriminate.
    rewrite visit_pages_scan in Ev.
    assert (Hok : tables_ok t).
    { eapply visit_scan_ok; [| exact Ev].
      split; [| apply filed_nil]. cbn [field_info_by_id].
      apply collect_fields_filed. apply filed_nil. }
    pose proof (sortable_entries t Hok) as Hs.
    destruct (locate (dict_values (field_info_by_id t))) as [kept w].
    cbn [fst] in Hs.
    destruct (sort_fields_sorted _ Hs) as [sorted [E [Hperm Hsorted]]].
    rewrite E. cbn [bind]. intros [= <- _].
    split; [| exact Hsorted].
    eapply Permutation_Forall; [symmetry; exact Hperm | exact Hs].
Qed.

Lemma get_field_info_sortable (fuel : nat) (st : store)
    (fields : dict pdf_field) (pages : list (list annotation))
    (schema : list field_info) (printed : list warning) :
  get_field_info fuel st fields pages = Done (schema, printed) ->
  Forall sortable schema.
Proof. intros H. now apply get_field_info_returns in H. Qed.

(** C9.  Every schema that the extraction returns is sorted by page, then
    by [-bottom], then by [left], where the rectangle of a radio group is
    the rectangle of its first option and rectangles are
    [left, bottom, right, top]: every entry is in reading order with every
    entry after it.  The extraction does return when the parent chains of
    the annotations are finite. *)
Theorem get_field_info_sorted (n fuel : nat) (st : store)
    (fields : dict pdf_field) (pages : list (list annotation)) :
  (forall sorted_fields printed,
     get_field_info fuel st fields pages = Done (sorted_fields, printed) ->
     StronglySorted reading_order sorted_fields)
  /\ (chains_within n st pages -> (S n < fuel)%nat ->
      exists sorted_fields printed,
        get_field_info fuel st fields pages = Done (sorted_fields, printed)).
Proof.
  split.
  - intros sorted_fields printed H. now apply get_field_info_returns in H.
  - intros Hc Hfuel. destruct fields as [| kv fields'] eqn:E.
    + now exists [], [].
    + rewrite <- E.
      destruct (get_field_info_done n fuel st fields pages Hc Hfuel)
        as [t [sorted [_ [_ [H _]]]]]; [congruence |].
      eauto.
Qed.

(** The statement above on the sample form: the text field at the top,
    then the radio group, then the check box. *)
Lemma get_field_info_sorted_witness :
  exists sorted_fields printed,
    get_field_info 3 sample_store sample_fields sample_pages
    = Done (sorted_fields, printed) /\
    map field_id sorted_fields = ["name"; "gender"; "agree"] /\
    StronglySorted reading_order sorted_fields.
Proof.
  assert (Hc : chains_within 1 sample_store sample_pages)
    by (repeat constructor; discriminate).
  assert (Hfuel : (2 < 3)%nat) by lia.
  destruct (get_field_info_sorted 1 3 sample_store sample_fields sample_pages)
    as [Hsorted Hdone].
  destruct (Hdone Hc Hfuel) as [sorted_fields [printed E]].
  exists sorted_fields, printed. split; [exact E |].
  split; [| exact (Hsorted _ _ E)].
  vm_compute in E. injection E as <- _. reflexivity.
Defined.

End ExtractFacts.

(** ** The value validator and the native form filler *)

Section FillFacts.
Import Py Fill FillForm.

Lemma printed_more_nil (w : world) : printed_more w [] = w.
Proof. destruct w. unfold printed_more. cbn. now rewrite app_nil_r. Qed.

Lemma printed_more_app (w : world) (a b : list message) :
  printed_more (printed_more w a) b = printed_more w (a ++ b).
Proof. unfold printed_more. cbn. now rewrite app_assoc. Qed.

(** [fields_by_ids] holds entries of the schema under their own id. *)
Lemma by_ids_entry (schema : list Extract.field_info) (k : string)
    (e : Extract.field_info) :
  dict_get k (by_ids schema) = Some e ->
  In e schema /\ Extract.field_id e = k.
Proof.
  unfold by_ids.
  assert (G : forall l d,
            (forall k e, dict_get k d = Some e ->
                         (In e schema) /\ Extract.field_id e = k) ->
            (forall e, In e l -> In e schema) ->
            forall k e,
            dict_get k (fold_left (fun d f => dict_set (Extract.field_id f) f d)
                          l d) = Some e ->
            In e schema /\ Extract.field_id e = k).
  { induction l as [| f l IH]; intros d Hd Hl k' e'; [apply Hd |].
    cbn [fold_left]. apply IH.
    - intros k0 e0.
      destruct (String.eqb_spec (Extract.field_id f) k0) as [<- | Hne].
      + rewrite dict_get_set_same. intros [= <-].
        split; [apply Hl; now left | reflexivity].
      + rewrite dict_get_set_other by exact Hne. apply Hd.
    - intros e0 H0. apply Hl. now right. }
  apply (G schema []); [discriminate | auto].
Qed.

Lemma not_in_spec (v : string) (l : list string) :
  not_in v l = false <-> In v l.
Proof.
  unfold not_in. rewrite negb_false_iff, existsb_exists. split.
  - intros [x [Hx E]]. apply String.eqb_eq in E. now subst.
  - intros H. exists v. split; [exact H | apply String.eqb_refl].
Qed.

(** On a complete entry the validation returns, and returns no message
    exactly for the legal values. *)
Lemma validation_complete (e : Extract.field_info) (v : string) :
  complete e ->
  exists r,
    validation_error_for_field_value e v = Done r /\
    (r = None <-> type_legal e v) /\
    (forall m, r = Some m -> names_field m (Extract.field_id e)).
Proof.
  intros [_ [Hc [Hr Hch]]].
  unfold validation_error_for_field_value, type_legal.
  destruct (Extract.type e) eqn:Et.
  - exists None. repeat split; auto; discriminate.
  - destruct (Hc eq_refl) as [H1 H2].
    destruct (Extract.checked_value e) as [c |]; [| congruence].
    destruct (Extract.unchecked_value e) as [u |]; [| congruence].
    cbn [subscript bind].
    destruct (String.eqb_spec v c) as [-> | Hvc]; cbn [negb andb].
    + exists None. repeat split; auto; discriminate.
    + destruct (String.eqb_spec v u) as [-> | Hvu]; cbn [negb].
      * exists None. repeat split; auto; discriminate.
      * eexists. split; [reflexivity |]. split.
        -- split; [discriminate |]. intros [[= E] | [= E]]; congruence.
        -- intros m [= <-]. reflexivity.
  - specialize (Hr eq_refl).
    destruct (Extract.radio_options e) as [options |]; [| congruence].
    cbn [subscript bind].
    destruct (not_in v (map fst options)) eqn:E.
    + eexists. split; [reflexivity |]. split.
      * split; [discriminate |]. intros [o [[= <-] Hin]].
        apply not_in_spec in Hin. congruence.
      * intros m [= <-]. reflexivity.
    + exists None. split; [reflexivity |]. split; [| discriminate].
      split; [| reflexivity]. intros _. exists options.
      split; [reflexivity | now apply not_in_spec].
  - specialize (Hch eq_refl).
    destruct (Extract.choice_options e) as [options |]; [| congruence].
    cbn [subscript bind].
    destruct (not_in v (map fst options)) eqn:E.
    + eexists. split; [reflexivity |]. split.
      * split; [discriminate |]. intros [o [[= <-] Hin]].
        apply not_in_spec in Hin. congruence.
      * intros m [= <-]. reflexivity.
    + exists None. split; [reflexivity |]. split; [| discriminate].
      split; [| reflexivity]. intros _. exists options.
      split; [reflexivity | now apply not_in_spec].
  - exists None. repeat split; auto; discriminate.
Qed.

(** One turn of the validation loop prints the message of the first rule
    broken, if any, and changes nothing else. *)
Lemma check_field_reported (d : dict Extract.field_info) (a : assignment)
    (has_error : bool) (w : world) :
  (forall e, dict_get (field_id a) d = Some e -> complete e) ->
  check_field d a has_error w =
  (Done (has_error || some_reported d a), printed_more w (reported d a)).
Proof.
  intros Hc. unfold check_field, some_reported, reported.
  destruct (dict_get (field_id a) d) as [e |].
  - specialize (Hc e eq_refl).
    pose proof Hc as [Hp _].
    destruct (Extract.page e) as [expected |]; [| congruence].
    unfold io_bind, lift. cbn [subscript].
    destruct (negb (page a =? expected)).
    + unfold print, ret, printed_more. now rewrite orb_true_r.
    + destruct (value a) as [v |].
      * destruct (validation_complete e v Hc) as [r [Hr _]]. rewrite Hr.
        destruct r as [m |].
        -- unfold print, ret, printed_more. now rewrite orb_true_r.
        -- unfold ret. now rewrite printed_more_nil, orb_false_r.
      * unfold ret. now rewrite printed_more_nil, orb_false_r.
  - unfold io_bind, print, ret, printed_more. now rewrite orb_true_r.
Qed.

Lemma check_fields_reported (d : dict Extract.field_info)
    (fields : list assignment) :
  (forall k e, dict_get k d = Some e -> complete e) ->
  forall has_error w,
  check_fields d fields has_error w =
  (Done (has_error || existsb (some_reported d) fields),
   printed_more w (flat_map (reported d) fields)).
Proof.
  intros Hc. induction fields as [| a fields IH]; intros has_error w.
  - cbn. unfold ret. now rewrite printed_more_nil, orb_false_r.
  - cbn [check_fields existsb flat_map]. unfold io_bind.
    rewrite check_field_reported by (intros e; apply Hc).
    rewrite IH, printed_more_app, orb_assoc. reflexivity.
Qed.

(** An assignment is invalid exactly when a message is reported for it;
    the message names its field. *)
Lemma invalid_reported (d : dict Extract.field_info) (a : assignment) :
  (forall e, dict_get (field_id a) d = Some e ->
             complete e /\ Extract.field_id e = field_id a) ->
  (invalid d a <->
   exists m, reported d a = [m] /\ names_field m (field_id a))
  /\ (~ invalid d a <-> reported d a = []).
Proof.
  intros Hc.
  unfold invalid, unknown_field, page_mismatch, illegal_value, reported.
  destruct (dict_get (field_id a) d) as [e |].
  - destruct (Hc e eq_refl) as [He Hid].
    pose proof He as [Hp _].
    destruct (Extract.page e) as [expected |] eqn:Ep; [| congruence].
    destruct (Z.eqb_spec (page a) expected) as [-> | Hne]; cbn [negb].
    + destruct (value a) as [v |].
      * destruct (validation_complete e v He) as [r [Hr [Hl Hn]]].
        rewrite Hr. destruct r as [m |].
        -- assert (Hil : ~ type_legal e v)
             by (intros H; apply Hl in H; discriminate).
           split; split.
           ++ intros _. exists m. split; [reflexivity |].
              rewrite <- Hid. now apply Hn.
           ++ intros _. right. right. now exists e, v.
           ++ intros H. exfalso. apply H. right. right. now exists e, v.
           ++ discriminate.
        -- assert (Hleg : type_legal e v) by now apply Hl.
           split; split.
           ++ intros [H | [[e' [[= <-] H]] | [e' [v' [[= <-] [[= <-] H]]]]]];
                [discriminate | congruence | contradiction].
           ++ intros [m [H _]]. discriminate.
           ++ reflexivity.
           ++ intros _ [H | [[e' [[= <-] H]] | [e' [v' [[= <-] [[= <-] H]]]]]];
                [discriminate | congruence | contradiction].
      * split; split.
        -- intros [H | [[e' [[= <-] H]] | [e' [v' [_ [H _]]]]]];
             [discriminate | congruence | discriminate].
        -- intros [m [H _]]. discriminate.
        -- reflexivity.
        -- intros _ [H | [[e' [[= <-] H]] | [e' [v' [_ [H _]]]]]];
             [discriminate | congruence | discriminate].
    + split; split.
      * intros _. eexists. split; [reflexivity | reflexivity].
      * intros _. right. left. exists e. split; [reflexivity |].
        rewrite Ep. congruence.
      * intros H. exfalso. apply H. right. left. exists e.
        split; [reflexivity |]. rewrite Ep. congruence.
      * discriminate.
  - split; split.
    + intros _. eexists. split; reflexivity.
    + intros _. now left.
    + intros H. exfalso. apply H. now left.
    + discriminate.
Qed.

(** The entries of an extracted schema are complete but for the values of
    the check boxes. *)
Lemma extracted_complete (rd : reader) (schema : list Extract.field_info)
    (printed : list Extract.warning) :
  Extract.get_field_info (fuel rd) (objects rd) (fields_of rd) (pages_of rd)
  = Done (schema, printed) ->
  checkboxes_have_values schema ->
  forall k e, dict_get k (by_ids schema) = Some e ->
  complete e /\ Extract.field_id e = k.
Proof.
  intros Hx Hcb k e He. apply by_ids_entry in He. destruct He as [Hin Hid].
  split; [| exact Hid].
  apply get_field_info_sortable in Hx.
  unfold checkboxes_have_values in Hcb. rewrite Forall_forall in Hx, Hcb.
  destruct (Hx e Hin) as [Hp Hkind]. specialize (Hcb e Hin).
  split; [exact Hp |]. split; [exact Hcb |].
  destruct Hkind as [[Ho [Ht Hch]] | [Ht [_ [o [options Ho]]]]].
  - split; [congruence | exact Hch].
  - split; [rewrite Ho; discriminate | rewrite Ht; discriminate].
Qed.

(** C1, as amended.  Against an extracted schema whose check boxes have
    their two values, and for every assignment set with at least one
    invalid assignment, [fill_pdf_fields] prints one error message for
    each invalid assignment, in order, and none for the others; the
    message names the field of the assignment and tells the first rule
    that the assignment breaks among id, page and value.  Then it exits
    with status 1: no writer was created, no output was written. *)
Theorem fill_pdf_fields_rejects (rd : reader)
    (schema : list Extract.field_info) (printed : list Extract.warning)
    (fields : list assignment) :
  Extract.get_field_info (fuel rd) (objects rd) (fields_of rd) (pages_of rd)
  = Done (schema, printed) ->
  checkboxes_have_values schema ->
  Exists (invalid (by_ids schema)) fields ->
  exists w,
    fill_pdf_fields rd fields initial_world = (Raised (SystemExit 1), w) /\
    stdout w = flat_map (reported (by_ids schema)) fields /\
    (forall a,
       (invalid (by_ids schema) a <->
        exists m, reported (by_ids schema) a = [m]
                  /\ names_field m (field_id a)) /\
       (~ invalid (by_ids schema) a <-> reported (by_ids schema) a = [])) /\
    stderr w = [] /\ pdf_writer w = None /\ output_pdf w = None.
Proof.
  intros Hx Hcb Hinv.
  pose proof (extracted_complete rd schema printed Hx Hcb) as Hc.
  assert (Hrep : forall a,
            (invalid (by_ids schema) a <->
             exists m, reported (by_ids schema) a = [m]
                       /\ names_field m (field_id a)) /\
            (~ invalid (by_ids schema) a <-> reported (by_ids schema) a = [])).
  { intros a. apply invalid_reported. intros e. apply Hc. }
  assert (Herr : existsb (some_reported (by_ids schema)) fields = true).
  { apply existsb_exists. apply Exists_exists in Hinv.
    destruct Hinv as [a [Hin Ha]]. exists a. split; [exact Hin |].
    destruct (Hrep a) as [[H1 _] _]. destruct (H1 Ha) as [m [Hm _]].
    unfold some_reported. now rewrite Hm. }
  exists (printed_more initial_world
            (flat_map (reported (by_ids schema)) fields)).
  split; [| repeat split; try reflexivity; apply Hrep].
  unfold fill_pdf_fields, io_bind, lift. rewrite Hx. cbn [fst].
  rewrite check_fields_reported by (intros k e He; now apply (Hc k e)).
  cbn [orb]. rewrite Herr. reflexivity.
Qed.

(** The statement above on the sample form: of four assignments the first
    is valid, the others break one rule each. *)
Lemma fill_pdf_fields_rejects_witness :
  exists w,
    fill_pdf_fields sample_reader sample_assignments initial_world
    = (Raised (SystemExit 1), w) /\
    stdout w = [ErrFieldId "nope"; ErrRadio "/X" "gender" ["/M"; "/F"];
                ErrPage "agree" 2 1] /\
    pdf_writer w = None /\ output_pdf w = None.
Proof.
  assert (Hx : Extract.get_field_info (fuel sample_reader)
                 (objects sample_reader) (fields_of sample_reader)
                 (pages_of sample_reader) = Done (sample_schema, []))
    by reflexivity.
  assert (Hcb : checkboxes_have_values sample_schema)
    by (repeat constructor; discriminate).
  assert (Hinv : Exists (invalid (by_ids sample_schema)) sample_assignments)
    by (apply Exists_cons_tl, Exists_cons_hd; left; reflexivity).
  destruct (fill_pdf_fields_rejects sample_reader sample_schema []
              sample_assignments Hx Hcb Hinv)
    as [w [E [Hout [_ [_ [Hw Ho]]]]]].
  exists w. split; [exact E |]. split; [| now split].
  rewrite Hout. reflexivity.
Defined.

(** C1, as stated, fails: an assignment that names the wrong page and
    carries an illegal value breaks two rules, and one message is printed
    for it, about the page; the message about the value is not printed. *)
Lemma fill_pdf_fields_one_message :
  page_mismatch (by_ids sample_schema) wrong_page_and_value /\
  illegal_value (by_ids sample_schema) wrong_page_and_value /\
  exists e m w,
    dict_get "agree" (by_ids sample_schema) = Some e /\
    validation_error_for_field_value e "maybe" = Done (Some m) /\
    fill_pdf_fields sample_reader [wrong_page_and_value] initial_world
    = (Raised (SystemExit 1), w) /\
    stdout w = [ErrPage "agree" 2 1] /\
    existsb (fun m' => match m' with ErrCheckbox _ _ _ _ => true | _ => false end)
            (stdout w) = false.
Proof.
  split; [| split].
  - eexists. split; [reflexivity | discriminate].
  - eexists. exists "maybe". split; [reflexivity |]. split; [reflexivity |].
    intros [H | H]; discriminate.
  - do 3 eexists. repeat split; vm_compute; reflexivity.
Qed.

(** *** Check boxes without values *)

Lemma only_prints_ret (A : Type) (a : A) : only_prints (ret a).
Proof. intros w r w' [= _ <-]. auto. Qed.

Lemma only_prints_lift (A : Type) (m : outcome A) : only_prints (lift m).
Proof. intros w r w' [= _ <-]. auto. Qed.

Lemma only_prints_print (m : message) : only_prints (print m).
Proof. intros w r w' [= _ <-]. auto. Qed.

Lemma only_prints_bind (A B : Type) (m : io A) (k : A -> io B) :
  only_prints m -> (forall a, only_prints (k a)) -> only_prints (io_bind m k).
Proof.
  intros Hm Hk w r w'. unfold io_bind.
  destruct (m w) as [[a | e |] w1] eqn:E; specialize (Hm _ _ _ E).
  - intros H. apply Hk in H. destruct Hm as [E1 [E2 E3]].
    now rewrite E1, E2, E3 in H.
  - now intros [= _ <-].
  - now intros [= _ <-].
Qed.

Lemma check_field_only_prints (d : dict Extract.field_info) (a : assignment)
    (has_error : bool) :
  only_prints (check_field d a has_error).
Proof.
  unfold check_field.
  destruct (dict_get (field_id a) d) as [e |].
  - apply only_prints_bind; [apply only_prints_lift |]. intros expected.
    destruct (negb (page a =? expected)).
    + apply only_prints_bind; [apply only_prints_print |].
      intros _. apply only_prints_ret.
    + destruct (value a) as [v |]; [| apply only_prints_ret].
      apply only_prints_bind; [apply only_prints_lift |].
      intros [m |]; [| apply only_prints_ret].
      apply only_prints_bind; [apply only_prints_print |].
      intros _. apply only_prints_ret.
  - apply only_prints_bind; [apply only_prints_print |].
    intros _. apply only_prints_ret.
Qed.

Lemma check_fields_only_prints (d : dict Extract.field_info)
    (fields : list assignment) :
  forall has_error, only_prints (check_fields d fields has_error).
Proof.
  induction fields as [| a fields IH]; intros has_error.
  - apply only_prints_ret.
  - cbn [check_fields]. apply only_prints_bind;
      [apply check_field_only_prints | exact IH].
Qed.

Lemma check_fields_app (d : dict Extract.field_info)
    (l1 l2 : list assignment) :
  forall has_error w,
  check_fields d (l1 ++ l2) has_error w =
  io_bind (check_fields d l1 has_error)
          (fun has_error' => check_fields d l2 has_error') w.
Proof.
  induction l1 as [| a l1 IH]; intros has_error w; [reflexivity |].
  cbn [app check_fields]. unfold io_bind at 1 2 3.
  destruct (check_field d a has_error w) as [[he | e |] w1];
    [| reflexivity | reflexivity].
  rewrite IH. reflexivity.
Qed.

(** C10.  For a button field whose list of states does not have exactly
    two elements, [make_field_dict] returns an entry of type [checkbox]
    without ["checked_value"] and without ["unchecked_value"].  On such an
    entry the validation raises KeyError for every value.  An assignment of
    a value to such an entry, on its page, makes [fill_pdf_fields] leave
    with this KeyError as soon as the loop reaches it: nothing is printed
    for the assignment, no writer is created and nothing is written, and
    [main] reports the exception on [sys.stderr] and exits with status 1.
    A push button, which has no state, is an example. *)
Theorem checkbox_without_values :
  (forall states id kids,
     length states <> 2%nat ->
     let e := fst (Extract.make_field_dict
                     (Extract.PdfField (Extract.FT_Btn states) kids) id) in
     Extract.type e = Extract.checkbox /\
     Extract.checked_value e = None /\ Extract.unchecked_value e = None)
  /\ (forall e v,
     Extract.type e = Extract.checkbox -> Extract.checked_value e = None ->
     validation_error_for_field_value e v = Raised (KeyError "checked_value"))
  /\ (forall rd schema printed before a after e v has_error w,
     Extract.get_field_info (fuel rd) (objects rd) (fields_of rd) (pages_of rd)
     = Done (schema, printed) ->
     check_fields (by_ids schema) before false initial_world
     = (Done has_error, w) ->
     dict_get (field_id a) (by_ids schema) = Some e ->
     Extract.type e = Extract.checkbox -> Extract.checked_value e = None ->
     Extract.page e = Some (page a) -> value a = Some v ->
     fill_pdf_fields rd (before ++ a :: after) initial_world
     = (Raised (KeyError "checked_value"), w) /\
     main rd (before ++ a :: after) initial_world
     = (Raised (SystemExit 1),
        World (stdout w) [GenericError (KeyError "checked_value")] None None) /\
     pdf_writer w = None /\ output_pdf w = None)
  /\ main button_reader [Assignment "submit" 1 (Some "/Yes")] initial_world
     = (Raised (SystemExit 1),
        World [] [GenericError (KeyError "checked_value")] None None).
Proof.
  split; [| split; [| split; [| reflexivity]]].
  - intros states id kids Hlen. unfold Extract.make_field_dict. cbn.
    destruct states as [| s0 [| s1 [| s2 states]]]; cbn; auto.
    now contradiction Hlen.
  - intros e v Ht Hc. unfold validation_error_for_field_value.
    now rewrite Ht, Hc.
  - intros rd schema printed before a after e v has_error w
           Hx Hbefore He Ht Hc Hp Hv.
    destruct (check_fields_only_prints _ _ _ _ _ _ Hbefore)
      as [Hse [Hw Ho]].
    cbn in Hse, Hw, Ho.
    assert (Hfill : fill_pdf_fields rd (before ++ a :: after) initial_world
                    = (Raised (KeyError "checked_value"), w)).
    { unfold fill_pdf_fields, io_bind at 1, lift at 1. rewrite Hx. cbn [fst].
      unfold io_bind at 1. rewrite check_fields_app.
      unfold io_bind at 1. rewrite Hbefore.
      cbn [check_fields]. unfold io_bind at 1.
      unfold check_field. rewrite He.
      unfold io_bind at 1, lift at 1. rewrite Hp. cbn [subscript].
      rewrite Z.eqb_refl. cbn [negb]. rewrite Hv.
      unfold io_bind at 1, lift at 1. unfold validation_error_for_field_value.
      rewrite Ht, Hc. reflexivity. }
    split; [exact Hfill |]. split; [| now split].
    unfold main. rewrite Hfill. unfold io_bind, print_err, sys_exit, lift.
    now rewrite Hse, Hw, Ho.
Qed.

End FillFacts.

(** ** More on the geometry validator *)

Section ValidatorFacts.
Import Boxes Validator.

(** X1.  [rects_intersect] is symmetric, so that comparing every box with
    the boxes after it compares every pair; a rectangle intersects itself
    exactly when it has positive width and positive height. *)
Theorem rects_intersect_sym (r1 r2 : rect) :
  rects_intersect r1 r2 = rects_intersect r2 r1
  /\ (rects_intersect r1 r1 = true <-> ix0 r1 < ix2 r1 /\ ix1 r1 < ix3 r1).
Proof.
  split.
  - destruct (rects_intersect r1 r2) eqn:E1, (rects_intersect r2 r1) eqn:E2;
      try reflexivity.
    + apply rects_intersect_true in E1.
      assert (rects_intersect r2 r1 = true) by (apply rects_intersect_true; lia).
      congruence.
    + apply rects_intersect_true in E2.
      assert (rects_intersect r1 r2 = true) by (apply rects_intersect_true; lia).
      congruence.
  - rewrite rects_intersect_true. lia.
Qed.

Lemma pair_findings_nil (ri : RectAndField) (rest : list RectAndField) :
  pair_findings ri rest = [] <-> Forall (apart ri) rest.
Proof.
  unfold pair_findings, apart. induction rest as [| rj rest IH]; simpl.
  - split; constructor.
  - destruct (Z.eqb_spec (page_number (field ri)) (page_number (field rj)))
      as [E | E];
      destruct (rects_intersect (raf_rect ri) (raf_rect rj)) eqn:Ei;
      cbn [andb app].
    + split; [discriminate |]. intros H. inversion H as [| ? ? [H1 | H1] _].
      * contradiction.
      * congruence.
    + rewrite IH. split.
      * intros H. constructor; [now right | exact H].
      * intros H. now inversion H.
    + rewrite IH. split.
      * intros H. constructor; [now left | exact H].
      * intros H. now inversion H.
    + rewrite IH. split.
      * intros H. constructor; [now left | exact H].
      * intros H. now inversion H.
Qed.

Lemma all_findings_nil (l : list RectAndField) :
  all_findings l = [] <->
  ForallOrdPairs apart l /\ Forall (fun ri => height_finding ri = []) l.
Proof.
  induction l as [| ri rest IH]; simpl.
  - split; [intros _; split; constructor | reflexivity].
  - split.
    + intros H. apply app_eq_nil in H. destruct H as [Hp H].
      apply app_eq_nil in H. destruct H as [Hh Hr].
      apply IH in Hr. destruct Hr as [Hr1 Hr2].
      apply pair_findings_nil in Hp. split; constructor; assumption.
    + intros [H1 H2]. inversion H1 as [| ? ? Hp Hr1]; subst.
      inversion H2 as [| ? ? Hh Hr2]; subst.
      apply pair_findings_nil in Hp. rewrite Hp, Hh. cbn [app].
      apply IH. now split.
Qed.

Lemma heights_of_fields (fs : list form_field) :
  forall k,
  Forall (fun ri => height_finding ri = []) (rects_of k fs) <->
  Forall (fun f => match entry_text f with
                   | Some et => size_of et <= entry_height f
                   | None => True
                   end) fs.
Proof.
  induction fs as [| f fs IH]; intros k; simpl.
  - split; constructor.
  - split.
    + intros H. inversion H as [| ? ? _ H']; subst.
      inversion H' as [| ? ? He H'']; subst.
      constructor; [| now apply (IH (S k))].
      unfold height_finding in He. cbn in He.
      destruct (entry_text f) as [et |]; [| exact I].
      fold (size_of et) in He. fold (entry_height f) in He.
      destruct (Z.ltb_spec (entry_height f) (size_of et)); [discriminate | lia].
    + intros H. inversion H as [| ? ? Hf H']; subst.
      constructor; [reflexivity |]. constructor; [| now apply IH].
      unfold height_finding. cbn.
      destruct (entry_text f) as [et |]; [| reflexivity].
      fold (size_of et). fold (entry_height f).
      destruct (Z.ltb_spec (entry_height f) (size_of et)); [lia | reflexivity].
Qed.

Lemma existsb_failure_findings (l : list message) :
  Forall (fun m => is_finding m = true) l ->
  existsb mentions_failure l = negb (match l with [] => true | _ => false end).
Proof.
  intros H. destruct H as [| m l Hm _]; [reflexivity |].
  cbn. destruct m; try discriminate; reflexivity.
Qed.

(** X2.  The validator reports "SUCCESS" exactly when no two boxes of one
    page intersect and every entry box with text metadata is at least as
    high as its font size; otherwise its output holds a "FAILURE" message.
    Without the image options [main] returns in the first case and exits
    with status 1 in the second. *)
Theorem validator_success (lib : pillow) (form_fields : list form_field) :
  let messages := get_bounding_box_messages form_fields in
  (In MsgSuccess messages <-> no_overlap form_fields /\ tall_enough form_fields)
  /\ (existsb mentions_failure messages = false <-> In MsgSuccess messages)
  /\ (forall a exists_, truthy_string (image a) = false ->
      (status (main lib a exists_ form_fields) = None <->
       no_overlap form_fields /\ tall_enough form_fields) /\
      (status (main lib a exists_ form_fields) = Some 1 <->
       ~ (no_overlap form_fields /\ tall_enough form_fields))).
Proof.
  cbv zeta.
  pose proof (bounded_reporting_shape form_fields) as [E _]. cbv zeta in E.
  pose proof (all_findings_findings (rects_of 0 form_fields)) as F.
  assert (Hvalid : all_findings (rects_of 0 form_fields) = [] <->
                   no_overlap form_fields /\ tall_enough form_fields).
  { rewrite all_findings_nil. unfold no_overlap, tall_enough.
    now rewrite heights_of_fields. }
  set (found := all_findings (rects_of 0 form_fields)) in *.
  assert (Hs : In MsgSuccess (get_bounding_box_messages form_fields) <->
               found = []).
  { rewrite E. split.
    - intros [H | H]; [discriminate |].
      destruct (length found <? 19)%nat.
      + apply in_app_or in H. destruct H as [H | H].
        * now apply not_in_findings in H.
        * destruct found; [reflexivity | destruct H].
      + apply in_app_or in H. destruct H as [H | H].
        * apply in_firstn in H. now apply not_in_findings in H.
        * destruct H as [H | []]. discriminate.
    - intros ->. cbn. auto. }
  assert (Hf : existsb mentions_failure (get_bounding_box_messages form_fields)
               = false <-> found = []).
  { rewrite E. cbn [existsb mentions_failure orb].
    destruct (Nat.ltb_spec (length found) 19) as [Hlt | Hge].
    - rewrite existsb_app. destruct found as [| m found'].
      + cbn. tauto.
      + rewrite (existsb_failure_findings _ F). cbn. split; discriminate.
    - rewrite existsb_app.
      destruct found as [| m found']; [cbn in Hge; lia |].
      cbn [firstn existsb].
      inversion F as [| ? ? Hm _]; subst.
      replace (mentions_failure m) with true
        by (destruct m; try discriminate; reflexivity).
      cbn. split; discriminate. }
  split; [now rewrite Hs |]. split; [now rewrite Hf, Hs |].
  intros a exists_ Ha. unfold main. rewrite Ha. cbn [status].
  rewrite <- Hvalid, <- Hf.
  destruct (existsb mentions_failure (get_bounding_box_messages form_fields));
    split; split; try discriminate; try reflexivity; intros H;
    (now contradiction H) || discriminate.
Qed.

Lemma draw_fields_boxes (lib : pillow) (p : Z)
    (form_fields : list form_field) :
  forall drawn n,
  draw_fields lib p form_fields drawn n =
  if forallb (fun b => rectangle lib (fst b)) (boxes_of_page p form_fields)
  then Some (drawn ++ boxes_of_page p form_fields,
             (n + length (boxes_of_page p form_fields))%nat)
  else None.
Proof.
  unfold boxes_of_page.
  induction form_fields as [| f rest IH]; intros drawn n;
    cbn [draw_fields flat_map forallb].
  - now rewrite app_nil_r, Nat.add_0_r.
  - destruct (page_number f =? p); cbn [app forallb fst].
    + destruct (rectangle lib (entry_bounding_box f)); [| reflexivity].
      destruct (rectangle lib (label_bounding_box f)); [| reflexivity].
      cbn [andb]. rewrite IH.
      destruct (forallb _ _); [| reflexivity].
      rewrite <- app_assoc. cbn [app length]. do 2 f_equal. lia.
    + apply IH.
Qed.

(** X3.  [main] prints the validation messages whatever the options are.
    It calls [create_validation_image] exactly when [--image] and
    [--output] are non-empty, [--page] is given and not 0, and the image
    file exists; the findings of the validation do not prevent the drawing,
    they only set the exit status.  The image is then saved exactly when
    Pillow opens the input image, draws every box of the page and saves to
    the output path: it holds, for every field of the page and no other,
    the entry box in red and the label box in blue, and the number of boxes
    printed is the number of rectangles drawn.  When Pillow raises, for
    instance on a box that it refuses, no image is saved, nothing more is
    printed to the standard output and the run ends with a traceback and
    status 1, whatever the validation found. *)
Theorem validation_image (lib : pillow) (a : args) (image_exists : bool)
    (form_fields : list form_field) :
  let r := main lib a image_exists form_fields in
  printed r = get_bounding_box_messages form_fields
  /\ (draws a image_exists = true ->
      exists p o,
        page a = Some p /\ p <> 0 /\ output a = Some o /\
        (obliging lib (boxes_of_page p form_fields) o = true ->
         saved r = Some (boxes_of_page p form_fields) /\
         created r = Some (o, length (boxes_of_page p form_fields)) /\
         error r = None /\
         status r = if existsb mentions_failure
                         (get_bounding_box_messages form_fields)
                    then Some 1 else None) /\
        (obliging lib (boxes_of_page p form_fields) o = false ->
         saved r = None /\ created r = None /\
         error r = Some Traceback /\ status r = Some 1))
  /\ (draws a image_exists = false ->
      saved r = None /\ created r = None /\
      (truthy_string (image a) = true -> status r = Some 1 /\ error r <> None))
  /\ (truthy_string (image a) = true -> truthy_string (output a) = true ->
      page a = Some 0 ->
      error r = Some PageRequired /\ status r = Some 1).
Proof.
  cbv zeta. unfold main, draws, create_validation_image, obliging.
  destruct (truthy_string (image a)) eqn:Ei; cbn [andb].
  - destruct (truthy_string (output a)) eqn:Eo; cbn [andb negb].
    + destruct (truthy_int (page a)) eqn:Ep; cbn [andb negb].
      * destruct image_exists; cbn [negb].
        -- unfold truthy_int in Ep. unfold truthy_string in Eo.
           destruct (page a) as [p |] eqn:Epage; [| discriminate].
           destruct (output a) as [o |] eqn:Eout; [| discriminate].
           rewrite draw_fields_boxes. cbn [app Nat.add].
           split;
             [now destruct (opens lib),
                (forallb (fun b => rectangle lib (fst b))
                   (boxes_of_page p form_fields)), (saves lib o) |].
           split; [| split; [discriminate |]].
           ++ intros _. exists p, o.
              split; [reflexivity |].
              split; [intros ->; discriminate |].
              split; [reflexivity |].
              destruct (opens lib),
                (forallb (fun b => rectangle lib (fst b))
                   (boxes_of_page p form_fields)), (saves lib o);
                cbn [andb]; (split; [intros H | intros H]);
                try discriminate H; repeat split.
           ++ intros _ _ [= E]. rewrite E in Ep. discriminate.
        -- split; [reflexivity |]. split; [discriminate |].
           split; [intros _; repeat split; discriminate |].
           intros _ _ E. rewrite E in Ep. discriminate.
      * split; [reflexivity |]. split; [discriminate |].
        split; [intros _; repeat split; discriminate |].
        intros _ _ _. now split.
    + split; [reflexivity |]. split; [discriminate |].
      split; [intros _; repeat split; discriminate | discriminate].
  - split; [reflexivity |]. split; [discriminate |].
    split; [intros _; repeat split; discriminate | discriminate].
Qed.

End ValidatorFacts.

(** ** The overlay filler *)

Section FillerFacts.
Import Overlay Annotate.

(** [next] returns the first record with the number. *)
Lemma next_page_first (ps : list page_info) (n : Z) (info : page_info) :
  next_page ps n = Some info <->
  exists before after,
    ps = before ++ info :: after /\
    info_page_number info = n /\
    Forall (fun p => info_page_number p <> n) before.
Proof.
  induction ps as [| p ps IH]; cbn [next_page].
  - split; [discriminate |]. intros [[| b before] [after [E _]]]; discriminate.
  - destruct (Z.eqb_spec (info_page_number p) n) as [E | E].
    + split.
      * intros [= <-]. exists [], ps. repeat split; auto.
      * intros [[| b before] [after [Eps [_ Hb]]]]; cbn in Eps.
        -- now injection Eps as ->.
        -- injection Eps as -> _. inversion Hb; contradiction.
    + rewrite IH. split.
      * intros [before [after [-> [Hn Hb]]]].
        exists (p :: before), after. repeat split; auto.
      * intros [[| b before] [after [Eps [Hn Hb]]]]; cbn in Eps.
        -- injection Eps as -> _. contradiction.
        -- injection Eps as -> ->. inversion Hb; subst.
           exists before, after. repeat split; auto.
Qed.

Lemma next_page_find (ps : list page_info) (n : Z) :
  next_page ps n = find (fun p => info_page_number p =? n) ps.
Proof.
  induction ps as [| p ps IH]; cbn [next_page find]; [reflexivity |].
  now rewrite IH.
Qed.

(** The keys of [pdf_dimensions] are the page numbers from 1. *)
Lemma dimensions_get_from (rp : list (float * float)) (n : Z)
    (m : float * float) :
  forall i,
  dimensions_get n (pdf_dimensions_from i rp) = Some m <->
  i + 1 <= n <= i + Z.of_nat (length rp) /\
  nth_error rp (Z.to_nat (n - i - 1)) = Some m.
Proof.
  induction rp as [| m0 rp IH]; intros i;
    cbn [pdf_dimensions_from dimensions_get].
  - split; [discriminate |]. cbn [length]. lia.
  - destruct (Z.eqb_spec (i + 1) n) as [E | E].
    + subst n. replace (i + 1 - i - 1) with 0 by lia.
      cbn [Z.to_nat nth_error length]. split.
      * intros H. split; [lia | exact H].
      * now intros [_ H].
    + rewrite IH. cbn [length].
      split.
      * intros [Hr Hn]. split; [lia |].
        replace (Z.to_nat (n - i - 1)) with (S (Z.to_nat (n - (i + 1) - 1)))
          by lia.
        exact Hn.
      * intros [Hr Hn]. split; [lia |].
        replace (Z.to_nat (n - i - 1)) with (S (Z.to_nat (n - (i + 1) - 1)))
          in Hn by lia.
        exact Hn.
Qed.

Lemma dimensions_get_range (rp : list (float * float)) (n : Z) :
  dimensions_get n (pdf_dimensions rp) = None <->
  (n <? 1) || (Z.of_nat (length rp) <? n) = true.
Proof.
  rewrite orb_true_iff, !Z.ltb_lt. unfold pdf_dimensions.
  destruct (dimensions_get n (pdf_dimensions_from 0 rp)) as [m |] eqn:E.
  - apply dimensions_get_from in E. destruct E as [Hr _].
    split; [discriminate | lia].
  - split; [| reflexivity]. intros _.
    destruct (Z_lt_dec n 1) as [H1 | H1]; [now left |].
    destruct (Z_lt_dec (Z.of_nat (length rp)) n) as [H2 | H2]; [now right |].
    destruct (nth_error rp (Z.to_nat (n - 0 - 1))) as [m |] eqn:En.
    + assert (H : dimensions_get n (pdf_dimensions_from 0 rp) = Some m)
        by (apply dimensions_get_from; split; [lia | exact En]).
      congruence.
    + apply nth_error_None in En. lia.
Qed.

(** The three lookups of the loop body succeed exactly on a placed field. *)
Lemma placed_lookups (data : fields_data) (rp : list (float * float))
    (f : form_field) (box : pdf_box number) :
  placed data rp f box <->
  exists info m,
    next_page (pages data) (page_number f) = Some info /\
    dimensions_get (page_number f) (pdf_dimensions rp) = Some m /\
    transform_coordinates_b64 (entry_bounding_box f)
      (image_width info) (image_height info)
      (Float (fst m)) (Float (snd m)) = inr box.
Proof.
  unfold placed, first_record, pdf_dimensions. split.
  - intros [info [m [Hf [Hr [Hn Ht]]]]]. exists info, m.
    split; [now apply next_page_first |]. split; [| exact Ht].
    apply dimensions_get_from. split; [lia |].
    now replace (page_number f - 0 - 1) with (page_number f - 1) by lia.
  - intros [info [m [Hf [Hd Ht]]]]. exists info, m.
    apply next_page_first in Hf. apply dimensions_get_from in Hd.
    destruct Hd as [Hr Hn].
    replace (page_number f - 0 - 1) with (page_number f - 1) in Hn by lia.
    repeat split; auto; lia.
Qed.

Lemma accepted_from_snoc (lib : pypdf) (calls : list call) :
  forall earlier c,
  accepted_from lib earlier (calls ++ [c])
  = accepted_from lib earlier calls && accepts lib (earlier ++ calls) c.
Proof.
  induction calls as [| c0 calls IH]; intros earlier c; cbn [app accepted_from].
  - now rewrite app_nil_r, andb_true_r.
  - rewrite IH, <- app_assoc, andb_assoc. reflexivity.
Qed.

(** What a run of the loop that returns has done. *)
Lemma process_returns (lib : pypdf) (data : fields_data)
    (rp : list (float * float)) (fields : list form_field) :
  forall acc out,
  process lib data (pdf_dimensions rp) fields acc = inr out ->
  Forall (placeable data rp) fields /\
  exists calls,
    out = acc ++ calls /\
    Forall2 (annotates data rp) (filter has_text fields) calls /\
    accepted_from lib acc calls = true.
Proof.
  induction fields as [| f fields IH]; intros acc out.
  - cbn [process filter]. intros [= <-]. split; [constructor |].
    exists []. split; [now rewrite app_nil_r |]. split; constructor.
  - cbn [process filter].
    destruct (next_page (pages data) (page_number f)) as [info |] eqn:Hp;
      [| discriminate].
    destruct (dimensions_get (page_number f) (pdf_dimensions rp))
      as [[w h] |] eqn:Hd; [| discriminate].
    destruct (transform_coordinates_b64 (entry_bounding_box f)
                (image_width info) (image_height info) (Float w) (Float h))
      as [e | box] eqn:Ht; [discriminate |].
    assert (Hplaced : placed data rp f box).
    { apply placed_lookups. exists info, (w, h). auto. }
    assert (Hskip : forall out',
              process lib data (pdf_dimensions rp) fields acc = inr out' ->
              Forall (placeable data rp) (f :: fields) /\
              exists calls,
                out' = acc ++ calls /\
                Forall2 (annotates data rp) (filter has_text fields) calls /\
                accepted_from lib acc calls = true).
    { intros out' H. destruct (IH _ _ H) as [Hall Hcalls].
      split; [constructor; [now exists box | exact Hall] | exact Hcalls]. }
    unfold has_text.
    destruct (field_entry_text f) as [et |] eqn:Het; [| apply Hskip].
    destruct (text et) as [t |] eqn:Hte; [| apply Hskip].
    destruct (String.eqb t EmptyString); cbn [negb]; [apply Hskip |].
    match goal with
    | |- context [accepts lib acc ?c] =>
        set (c0 := c); destruct (accepts lib acc c0) eqn:Hacc; [| discriminate]
    end.
    intros H. destruct (IH _ _ H) as [Hall [calls [-> [Hcalls Hok]]]].
    split; [constructor; [now exists box | exact Hall] |].
    exists (c0 :: calls). rewrite <- app_assoc. split; [reflexivity |].
    split.
    + constructor; [| exact Hcalls].
      unfold annotates, c0. cbn [fst snd ft_rect ft_text ft_font
                                 ft_font_size ft_font_color].
      split; [reflexivity |]. split; [exact Hplaced |].
      exists et. rewrite Het, Hte. repeat split; reflexivity.
    + cbn [accepted_from]. rewrite Hacc. cbn [andb]. exact Hok.
Qed.

(** With a pypdf that accepts every call, placeable fields are enough. *)
Lemma process_placeable (lib : pypdf) (data : fields_data)
    (rp : list (float * float)) (fields : list form_field) :
  (forall earlier c, accepts lib earlier c = true) ->
  Forall (placeable data rp) fields ->
  forall acc, exists out,
    process lib data (pdf_dimensions rp) fields acc = inr out.
Proof.
  intros Hlib. induction 1 as [| f fields [box Hb] _ IH]; intros acc.
  - cbn [process]. eauto.
  - cbn [process]. apply placed_lookups in Hb.
    destruct Hb as [info [[w h] [-> [-> Ht]]]]. cbn [fst snd] in Ht.
    rewrite Ht.
    destruct (field_entry_text f) as [et |]; [| apply IH].
    destruct (text et) as [t |]; [| apply IH].
    destruct (String.eqb t EmptyString); [apply IH |].
    rewrite Hlib. apply IH.
Qed.

(** X14.  The overlay filler returns with status 0 exactly when both
    input files exist, pypdf loads the document, the loop over the fields
    of [fields.json] returns and pypdf writes the output.  The loop returns
    only if every field, with or without text, lies on a page of the
    document that has a page record and the arithmetic transforms its box
    without raising; it then has made one [FreeText] annotation for each
    field with a non-empty text, in the order of the fields, on the page
    before the field's page number (pages count from 0 there, and the index
    is one of the document), with the field's text, the transformed entry
    box, and Arial, 14pt and 000000 where font, size and colour are not
    given, and the number printed is the number of these fields.  When
    pypdf accepts every annotation the condition on the fields is also
    sufficient.  In every other run the status is 1 and nothing is printed
    to the standard output; the output file is untouched unless the loop
    returned and [writer.write] raised, after the file was opened. *)
Theorem fill_pdf_form_annotations (lib : pypdf) (data : fields_data)
    (reader_pages : list (float * float)) (input_exists fields_exists : bool) :
  let r := main lib input_exists fields_exists data reader_pages in
  let with_text := filter has_text (form_fields data) in
  let loop := process lib data (pdf_dimensions reader_pages)
                      (form_fields data) [] in
  (forall calls,
     loop = inr calls ->
     Forall (placeable data reader_pages) (form_fields data) /\
     Forall2 (annotates data reader_pages) with_text calls /\
     all_accepted lib calls /\
     Forall (fun c => 0 <= fst c < Z.of_nat (length reader_pages)) calls)
  /\ ((forall earlier c, accepts lib earlier c = true) ->
      Forall (placeable data reader_pages) (form_fields data) ->
      exists calls, loop = inr calls)
  /\ (status r = 0 <->
      input_exists = true /\ fields_exists = true /\ loads lib = true /\
      exists calls, loop = inr calls /\ writes lib calls = true)
  /\ (status r = 0 ->
      exists calls,
        loop = inr calls /\ saved r = Written calls /\
        printed r = [Saved; Added (length with_text)] /\ error r = None)
  /\ (status r <> 0 ->
      status r = 1 /\ printed r = [] /\
      (saved r = Untouched \/ saved r = Opened) /\
      (saved r = Opened <->
       input_exists = true /\ fields_exists = true /\ loads lib = true /\
       exists calls, loop = inr calls /\ writes lib calls = false))
  /\ (~ Forall (placeable data reader_pages) (form_fields data) ->
      status r = 1 /\ saved r = Untouched).
Proof.
  cbv zeta.
  assert (Hloop : forall calls,
            process lib data (pdf_dimensions reader_pages)
                    (form_fields data) [] = inr calls ->
            Forall (placeable data reader_pages) (form_fields data) /\
            Forall2 (annotates data reader_pages)
                    (filter has_text (form_fields data)) calls /\
            all_accepted lib calls).
  { intros calls H.
    destruct (process_returns _ _ _ _ _ _ H) as [Hall [calls' [-> [H2 H3]]]].
    repeat split; assumption. }
  unfold main, fill_pdf_form.
  split; [| split; [| split; [| split; [| split]]]].
  - intros calls H. destruct (Hloop _ H) as [Hall [Hcalls Hok]].
    repeat split; try assumption.
    clear - Hcalls.
    induction Hcalls as [| f c fs calls Ha _ IH]; constructor; [| exact IH].
    destruct Ha as [-> [[info [m [_ [Hr _]]]] _]]. lia.
  - intros Hlib Hall.
    apply (process_placeable lib data reader_pages _ Hlib Hall []).
  - destruct input_exists, fields_exists, (loads lib); cbn [negb status];
      try (split; [discriminate | intros [? [? [? _]]]; discriminate]).
    destruct (process lib data (pdf_dimensions reader_pages)
                (form_fields data) []) as [e | calls]; cbn [status].
    + split; [discriminate |]. intros [_ [_ [_ [calls [H _]]]]]. discriminate.
    + destruct (writes lib calls) eqn:Hw; cbn [status].
      * split; [| reflexivity]. intros _. repeat split. eauto.
      * split; [discriminate |].
        intros [_ [_ [_ [calls' [[= <-] H]]]]]. congruence.
  - destruct input_exists, fields_exists, (loads lib); cbn [negb status];
      try discriminate.
    destruct (process lib data (pdf_dimensions reader_pages)
                (form_fields data) []) as [e | calls] eqn:E;
      cbn [status]; [discriminate |].
    destruct (writes lib calls); cbn [status saved printed error];
      [| discriminate].
    intros _. exists calls. repeat split. do 3 f_equal.
    destruct (Hloop _ eq_refl) as [_ [Hcalls _]].
    symmetry. eapply Forall2_length. exact Hcalls.
  - destruct input_exists, fields_exists, (loads lib);
      cbn [negb status saved printed];
      try (intros _; repeat split; try (now left);
           try discriminate; intros [? [? [? _]]]; discriminate).
    destruct (process lib data (pdf_dimensions reader_pages)
                (form_fields data) []) as [e | calls];
      cbn [status saved printed].
    + intros _. repeat split; try (now left); try discriminate.
      intros [_ [_ [_ [calls [H _]]]]]. discriminate.
    + destruct (writes lib calls) eqn:Hw; cbn [status saved printed].
      * intros H. now contradiction H.
      * intros _. repeat split; try (now right). eauto.
  - intros Hnot.
    destruct input_exists, fields_exists, (loads lib);
      cbn [negb status saved]; try (split; reflexivity).
    destruct (process lib data (pdf_dimensions reader_pages)
                (form_fields data) []) as [e | calls] eqn:E;
      cbn [status saved]; [split; reflexivity |].
    destruct (Hloop _ eq_refl) as [Hall _]. contradiction.
Qed.

(** *** The causes of the script's own exceptions *)

(** A non-zero integer does not round to zero. *)
Lemma b64_round_int_nonzero (z : Z) :
  z <> 0 -> Qeq_bool (b64_round (inject_Z z)) 0 = false.
Proof.
  intros Hne. unfold b64_round.
  change (Qnum (inject_Z z)) with z. change (Z.pos (Qden (inject_Z z))) with 1.
  destruct (Z.eqb_spec z 0) as [| _]; [contradiction |].
  set (a := Z.abs z).
  assert (Ha : 0 < a) by (unfold a; lia).
  pose proof (Z.log2_spec a Ha) as [Hlo Hhi].
  pose proof (Z.log2_nonneg a) as Hnn.
  assert (Hfl : floor_log2 a 1 = Z.log2 a).
  { unfold floor_log2. change (Z.log2 1) with 0. rewrite Z.sub_0_r.
    rewrite (Z.max_l 0 (- Z.log2 a)), (Z.max_r 0 (Z.log2 a)) by lia.
    change (2 ^ 0) with 1.
    destruct (Z.ltb_spec (a * 1) (1 * 2 ^ Z.log2 a)); [lia | reflexivity]. }
  rewrite Hfl. rewrite (Z.max_l (Z.log2 a - 52) (- 1074)) by lia.
  set (k := Z.log2 a - 52).
  set (m := if k <? 0 then round_half_even (a * 2 ^ (- k)) 1
            else round_half_even a (1 * 2 ^ k)).
  assert (Hm : 0 < m).
  { unfold m. destruct (Z.ltb_spec k 0) as [Hk | Hk].
    - replace (a * 2 ^ (- k)) with (a * 2 ^ (- k) * 1) by lia.
      rewrite round_half_even_multiple by lia.
      apply Z.mul_pos_pos; [exact Ha | apply Z.pow_pos_nonneg; lia].
    - rewrite Z.mul_1_l.
      assert (Hp : 0 < 2 ^ k) by (apply Z.pow_pos_nonneg; lia).
      assert (Hq : 1 <= a / 2 ^ k).
      { apply Z.div_le_lower_bound; [exact Hp |].
        assert (2 ^ k <= 2 ^ Z.log2 a) by (apply Z.pow_le_mono_r; lia). lia. }
      unfold round_half_even.
      destruct (2 * (a mod 2 ^ k) ?= 2 ^ k); [| lia | lia].
      destruct (Z.even (a / 2 ^ k)); lia. }
  assert (Hs : Z.sgn z * m <> 0).
  { assert (Hsg : Z.sgn z = 1 \/ Z.sgn z = -1) by lia.
    destruct Hsg as [-> | ->]; lia. }
  destruct (Qeq_bool (Qred (scale2 (Z.sgn z * m) k)) 0) eqn:E;
    [| reflexivity].
  apply Qeq_bool_eq in E. rewrite Qred_correct in E.
  unfold scale2 in E. destruct (Z.ltb_spec k 0) as [Hk | Hk].
  - unfold Qeq in E. cbn [Qnum Qden] in E. lia.
  - unfold Qeq, inject_Z in E. cbn [Qnum Qden] in E.
    assert (Hp : 0 < 2 ^ k) by (apply Z.pow_pos_nonneg; lia).
    rewrite Z.mul_0_l, Z.mul_1_r in E.
    apply Z.mul_eq_0 in E. lia.
Qed.

Lemma as_float_cases (n : number) :
  (as_float n = inl OverflowError /\ too_large n = true)
  \/ (exists x, as_float n = inr x /\ too_large n = false).
Proof.
  unfold too_large. destruct n as [z | x]; cbn [as_float]; [| eauto].
  destruct (b64_of_Q (inject_Z z)); eauto.
Qed.

Lemma as_float_zero (n : number) (x : float) :
  as_float n = inr x -> float_zero x = is_zero n.
Proof.
  destruct n as [z | y]; cbn [as_float is_zero].
  - unfold b64_of_Q.
    destruct (Qle_bool (inject_Z (2 ^ 1024)) (Qabs (b64_round (inject_Z z))));
      [discriminate |].
    intros [= <-]. cbn [float_zero].
    destruct (Z.eqb_spec z 0) as [-> | Hne]; [reflexivity |].
    now apply b64_round_int_nonzero.
  - intros [= <-]. now destruct y.
Qed.

Lemma float_div_cases (x y : float) :
  if float_zero y then float_div x y = inl ZeroDivisionError
  else exists q, float_div x y = inr q.
Proof.
  destruct y as [q | s |]; cbn [float_zero float_div]; eauto.
  destruct (Qeq_bool q 0); eauto.
Qed.

(** The division of a float by a number raises for the cause of the
    divisor. *)
Lemma truediv_float (pw : float) (n : number) :
  match divisor_cause n with
  | Some e => number_truediv (Float pw) n = inl e
  | None => exists q, number_truediv (Float pw) n = inr (Float q)
  end.
Proof.
  unfold divisor_cause. cbn [number_truediv as_float and_then].
  destruct (as_float_cases n) as [[E ->] | [y [E ->]]]; rewrite E;
    cbn [and_then]; [reflexivity |].
  rewrite <- (as_float_zero n y E).
  pose proof (float_div_cases pw y) as H.
  destruct (float_zero y).
  - now rewrite H.
  - destruct H as [q ->]. cbn [and_then]. eauto.
Qed.

Lemma mul_float (a : number) (s : float) :
  if too_large a then number_mul a (Float s) = inl OverflowError
  else exists q, number_mul a (Float s) = inr (Float q).
Proof.
  assert (E : number_mul a (Float s)
              = (let! x := as_float a in let! y := as_float (Float s) in
                 inr (Float (float_mul x y)))) by (now destruct a).
  rewrite E.
  destruct (as_float_cases a) as [[E1 ->] | [y [E1 ->]]]; rewrite E1;
    cbn [and_then as_float]; eauto.
Qed.

(** The exception of the transform is the arithmetic cause. *)
Lemma transform_cause (bb : bbox number) (iw ih : number) (pw ph : float) :
  match arithmetic_cause bb iw ih with
  | Some e =>
      transform_coordinates_b64 bb iw ih (Float pw) (Float ph) = inl e
  | None =>
      exists box,
        transform_coordinates_b64 bb iw ih (Float pw) (Float ph) = inr box
  end.
Proof.
  unfold arithmetic_cause, transform_coordinates_b64, transform_coordinates.
  pose proof (truediv_float pw iw) as Hx.
  destruct (divisor_cause iw) as [e |]; [now rewrite Hx |].
  destruct Hx as [sx ->]. cbn [and_then].
  pose proof (truediv_float ph ih) as Hy.
  destruct (divisor_cause ih) as [e |]; [now rewrite Hy |].
  destruct Hy as [sy ->]. cbn [and_then].
  pose proof (mul_float (b0 bb) sx) as H0.
  destruct (too_large (b0 bb)); [now rewrite H0 |].
  destruct H0 as [q0 ->]. cbn [and_then orb].
  pose proof (mul_float (b2 bb) sx) as H2.
  destruct (too_large (b2 bb)); [now rewrite H2 |].
  destruct H2 as [q2 ->]. cbn [and_then orb].
  pose proof (mul_float (b1 bb) sy) as H1.
  destruct (too_large (b1 bb)); [now rewrite H1 |].
  destruct H1 as [q1 ->]. cbn [and_then orb number_sub as_float].
  pose proof (mul_float (b3 bb) sy) as H3.
  destruct (too_large (b3 bb)); [now rewrite H3 |].
  destruct H3 as [q3 ->]. cbn [and_then orb number_sub as_float].
  eauto.
Qed.

(** One round of the loop: it ends the run with the cause, or with an
    exception of pypdf, or goes on to the next field. *)
Lemma process_cons (lib : pypdf) (data : fields_data)
    (rp : list (float * float)) (f : form_field) (rest : list form_field)
    (acc : list call) :
  match cause data rp f with
  | Some e => process lib data (pdf_dimensions rp) (f :: rest) acc = inl e
  | None =>
      (process lib data (pdf_dimensions rp) (f :: rest) acc = inl LibraryError
       /\ exists c, accepts lib acc c = false)
      \/ exists acc',
           process lib data (pdf_dimensions rp) (f :: rest) acc
           = process lib data (pdf_dimensions rp) rest acc'
  end.
Proof.
  unfold cause. cbn [process]. rewrite next_page_find.
  destruct (find (fun p => info_page_number p =? page_number f) (pages data))
    as [info |]; [| reflexivity].
  destruct (dimensions_get (page_number f) (pdf_dimensions rp))
    as [[w h] |] eqn:Hd.
  - destruct ((page_number f <? 1) || (Z.of_nat (length rp) <? page_number f))
      eqn:Hr; [apply dimensions_get_range in Hr; congruence |].
    pose proof (transform_cause (entry_bounding_box f) (image_width info)
                  (image_height info) w h) as Ht.
    destruct (arithmetic_cause (entry_bounding_box f) (image_width info)
                (image_height info)) as [e |]; [now rewrite Ht |].
    destruct Ht as [box ->].
    destruct (field_entry_text f) as [et |]; [| eauto].
    destruct (text et) as [t |]; [| eauto].
    destruct (String.eqb t EmptyString); [eauto |].
    match goal with
    | |- context [accepts lib acc ?c] =>
        destruct (accepts lib acc c) eqn:Hacc; eauto
    end.
  - apply dimensions_get_range in Hd. now rewrite Hd.
Qed.

Lemma cause_placeable (data : fields_data) (rp : list (float * float))
    (f : form_field) :
  cause data rp f = None <-> placeable data rp f.
Proof.
  unfold placeable. split.
  - unfold cause. intros H.
    destruct (find (fun p => info_page_number p =? page_number f) (pages data))
      as [info |] eqn:Hf; [| discriminate].
    destruct ((page_number f <? 1) || (Z.of_nat (length rp) <? page_number f))
      eqn:Hr; [discriminate |].
    destruct (dimensions_get (page_number f) (pdf_dimensions rp))
      as [[w h] |] eqn:Hd;
      [| apply dimensions_get_range in Hd; congruence].
    pose proof (transform_cause (entry_bounding_box f) (image_width info)
                  (image_height info) w h) as Ht.
    destruct (arithmetic_cause (entry_bounding_box f) (image_width info)
                (image_height info)) as [e |]; [discriminate |].
    destruct Ht as [box Ht]. exists box. apply placed_lookups.
    exists info, (w, h). rewrite next_page_find. auto.
  - intros [box Hb]. apply placed_lookups in Hb.
    destruct Hb as [info [[w h] [Hn [Hd Ht]]]]. cbn [fst snd] in Ht.
    unfold cause. rewrite <- next_page_find, Hn.
    destruct ((page_number f <? 1) || (Z.of_nat (length rp) <? page_number f))
      eqn:Hr; [apply dimensions_get_range in Hr; congruence |].
    pose proof (transform_cause (entry_bounding_box f) (image_width info)
                  (image_height info) w h) as Hc.
    destruct (arithmetic_cause (entry_bounding_box f) (image_width info)
                (image_height info)) as [e |]; [congruence | reflexivity].
Qed.

(** The loop stops at the first field with a cause, unless pypdf raised
    before. *)
Lemma process_first_cause (lib : pypdf) (data : fields_data)
    (rp : list (float * float)) (fields : list form_field) :
  forall acc,
  (forall e,
     process lib data (pdf_dimensions rp) fields acc = inl e ->
     (e = LibraryError /\ exists earlier c, accepts lib earlier c = false)
     \/ exists before f after,
          fields = before ++ f :: after /\
          Forall (fun g => cause data rp g = None) before /\
          cause data rp f = Some e)
  /\ (forall before f after e,
        fields = before ++ f :: after ->
        Forall (fun g => cause data rp g = None) before ->
        cause data rp f = Some e ->
        process lib data (pdf_dimensions rp) fields acc = inl e
        \/ (process lib data (pdf_dimensions rp) fields acc = inl LibraryError
            /\ exists earlier c, accepts lib earlier c = false))
  /\ (Forall (fun g => cause data rp g = None) fields ->
      (exists calls,
         process lib data (pdf_dimensions rp) fields acc = inr calls)
      \/ (process lib data (pdf_dimensions rp) fields acc = inl LibraryError
          /\ exists earlier c, accepts lib earlier c = false)).
Proof.
  induction fields as [| f fields IH]; intros acc.
  - cbn [process]. split; [discriminate |]. split; [| eauto].
    intros [| b before] g after e E; discriminate.
  - pose proof (process_cons lib data rp f fields acc) as Hstep.
    destruct (cause data rp f) as [e0 |] eqn:Hc.
    + rewrite Hstep. split; [| split].
      * intros e [= <-]. right. exists [], f, fields. repeat split; auto.
      * intros [| b before] g after e E Hb Hg; cbn in E.
        -- injection E as <- _. left. congruence.
        -- injection E as <- _. inversion Hb; congruence.
      * intros H. inversion H; congruence.
    + destruct Hstep as [[Hlib [c Hrefused]] | [acc' Hnext]].
      * rewrite Hlib. split; [| split].
        -- intros e [= <-]. left. eauto.
        -- intros. right. eauto.
        -- intros _. right. eauto.
      * rewrite Hnext. destruct (IH acc') as [IH1 [IH2 IH3]].
        split; [| split].
        -- intros e He. destruct (IH1 e He) as [Hl | Hr]; [now left |].
           right. destruct Hr as [before [g [after [-> [Hb Hg]]]]].
           exists (f :: before), g, after. repeat split; auto.
        -- intros [| b before] g after e E Hb Hg; cbn in E.
           ++ injection E as <- _. congruence.
           ++ injection E as <- ->. inversion Hb; subst.
              eapply IH2; eauto.
        -- intros H. inversion H; subst. now apply IH3.
Qed.

(** X15.  The script itself stops at a field for one of these causes, in
    this order: StopIteration when [pages] has no record for the page number
    of the field; KeyError when the document has no page of this number;
    OverflowError when the image width of the first page record of this
    number is an integer too large for a float, ZeroDivisionError when it
    is zero; the same for the image height; OverflowError when a
    coordinate of the entry box is an integer too large for a float.  A
    field has none of these causes exactly when it is placeable, whether it
    has text or not.  The loop over the fields ends with an exception of
    the script exactly at the first field, in file order, that has a cause,
    and with this cause, unless pypdf raised before; a product that
    overflows to infinity is no cause.  When pypdf accepts every
    annotation, the loop returns exactly when no field has a cause. *)
Theorem fill_pdf_form_first_failure (lib : pypdf) (data : fields_data)
    (reader_pages : list (float * float)) :
  let loop := process lib data (pdf_dimensions reader_pages)
                      (form_fields data) [] in
  let harmless := fun g => cause data reader_pages g = None in
  (forall f, cause data reader_pages f = None <-> placeable data reader_pages f)
  /\ (forall f, cause data reader_pages f <> Some LibraryError)
  /\ (forall e,
        loop = inl e -> e <> LibraryError ->
        exists before f after,
          form_fields data = before ++ f :: after /\
          Forall harmless before /\ cause data reader_pages f = Some e)
  /\ (forall before f after e,
        form_fields data = before ++ f :: after ->
        Forall harmless before -> cause data reader_pages f = Some e ->
        loop = inl e \/ loop = inl LibraryError)
  /\ ((forall earlier c, accepts lib earlier c = true) ->
      (forall e,
         loop = inl e <->
         exists before f after,
           form_fields data = before ++ f :: after /\
           Forall harmless before /\ cause data reader_pages f = Some e)
      /\ ((exists calls, loop = inr calls) <->
          Forall harmless (form_fields data)))
  /\ (fill_pdf_form willing remote letter
      = inr [(0, FreeText "Johnson"
                   (PdfBox (Float (Inf false)) (Float (Finite (-111672 # 1)))
                           (Float (Inf false)) (Float (Finite (-98208 # 1))))
                   "Arial" "14pt" "000000")]).
Proof.
  cbv zeta.
  destruct (process_first_cause lib data reader_pages (form_fields data) [])
    as [H1 [H2 H3]].
  assert (Hnot : forall f, cause data reader_pages f <> Some LibraryError).
  { intros f. unfold cause.
    destruct (find _ (pages data)); [| discriminate].
    destruct (_ || _); [discriminate |].
    destruct (arithmetic_cause _ _ _); discriminate. }
  split; [apply cause_placeable |]. split; [exact Hnot |].
  split; [| split; [| split]].
  - intros e He Hne. destruct (H1 e He) as [[-> _] | H]; [congruence | exact H].
  - intros before f after e E Hb Hf.
    destruct (H2 before f after e E Hb Hf) as [H | [H _]]; auto.
  - intros Hlib.
    assert (Hno : ~ exists earlier c, accepts lib earlier c = false).
    { intros [earlier [c H]]. rewrite Hlib in H. discriminate. }
    split.
    + intros e. split.
      * intros He. destruct (H1 e He) as [[_ H] | H]; [contradiction | exact H].
      * intros [before [f [after [E [Hb Hf]]]]].
        destruct (H2 before f after e E Hb Hf) as [H | [_ H]];
          [exact H | contradiction].
    + split.
      * intros [calls Hc].
        destruct (process_returns _ _ _ _ _ _ Hc) as [Hall _].
        eapply Forall_impl; [| exact Hall].
        intros g Hg. now apply cause_placeable.
      * intros Hall. destruct (H3 Hall) as [H | [_ H]];
          [exact H | contradiction].
  - vm_compute. reflexivity.
Qed.

(** The example of the help text gives one annotation, for the field with
    text; the document with a field on a page that it does not have gives
    none, and the run ends at that field; a pypdf that refuses to write
    leaves the output file opened. *)
Example fill_pdf_form_johnson :
  fill_pdf_form willing johnson letter
  = inr [(0, FreeText "Johnson"
               (PdfBox (Float (Finite (153 # 2)))
                       (Float (Finite (3033596561499095 # 4398046511104)))
                       (Float (Finite (7536492501427815 # 35184372088832)))
                       (Float (Finite (702 # 1))))
               "Arial" "14pt" "000000")]
  /\ fill_pdf_form willing stray letter = inl (KeyError 2, Untouched)
  /\ saved (main (Pypdf true (fun _ _ => true) (fun _ => false)) true true
                 remote letter) = Opened.
Proof. repeat split; vm_compute; reflexivity. Qed.

End FillerFacts.

(** ** More on the field schema extractor *)

Section SchemaFacts.
Import Py Extract Schema.

Lemma string_app_assoc (a b c : string) :
  ((a ++ b) ++ c = a ++ b ++ c)%string.
Proof. induction a as [| x a IH]; simpl; [reflexivity | now rewrite IH]. Qed.

Lemma concat_snoc (sep x : string) (l : list string) :
  String.concat sep (l ++ [x]) =
  match l with
  | [] => x
  | _ => (String.concat sep l ++ sep ++ x)%string
  end.
Proof.
  induction l as [| y l IH]; [reflexivity |].
  destruct l as [| z l]; [reflexivity |].
  change (String.concat sep ((y :: z :: l) ++ [x]))
    with (y ++ sep ++ String.concat sep ((z :: l) ++ [x]))%string.
  rewrite IH.
  change (String.concat sep (y :: z :: l))
    with (y ++ sep ++ String.concat sep (z :: l))%string.
  now rewrite !string_app_assoc.
Qed.

Lemma short_names_one (a : annotation) :
  short_names [a] = match own_name a with Some n => [n] | None => [] end.
Proof.
  unfold short_names, own_name. simpl. rewrite app_nil_r.
  destruct (T a) as [name |]; [| reflexivity].
  now destruct (String.eqb name "").
Qed.

(** X4.  The field id is built level by level: the id of an annotation
    without parent is its own short name ([None] when it has none); the id
    of an annotation with a parent is the id of the parent, a dot and its
    own short name, and just the id of the parent when it has no short
    name of its own. *)
Theorem field_id_of_child (st : store) (n fuel : nat) (a : annotation)
    (c : list annotation) :
  chain n st a = Some c -> (length c < fuel)%nat ->
  match Parent a with
  | None => get_full_annotation_field_id fuel st a = Done (own_name a)
  | Some r =>
      exists parent_id,
        get_full_annotation_field_id fuel st (st r) = Done parent_id /\
        get_full_annotation_field_id fuel st a =
        Done (qualify parent_id (own_name a))
  end.
Proof.
  intros Hc Hfuel. unfold get_full_annotation_field_id.
  rewrite (walk_chain st n a c [] fuel Hc Hfuel). cbn [bind app].
  destruct n as [| n]; simpl in Hc; destruct (Parent a) as [r |] eqn:Pa;
    try discriminate.
  - injection Hc as <-. rewrite short_names_one.
    now destruct (own_name a).
  - destruct (chain n st (st r)) as [c' |] eqn:Hc'; [| discriminate].
    injection Hc as <-. simpl in Hfuel.
    rewrite (walk_chain st n (st r) c' [] fuel Hc') by lia. cbn [bind app].
    eexists. split; [reflexivity |].
    rewrite short_names_cons, short_names_one. f_equal.
    destruct (own_name a) as [name |]; cbn [app qualify].
    + destruct (short_names c') as [| s l] eqn:E; [reflexivity |].
      rewrite <- E. cbn [rev].
      assert (Hne : rev (short_names c') <> []).
      { rewrite E. cbn [rev]. intros H. now apply app_eq_nil in H as [_ H]. }
      rewrite concat_snoc.
      destruct (rev (short_names c')) as [| s' l'] eqn:Er; [congruence |].
      reflexivity.
    + reflexivity.
  - injection Hc as <-. rewrite short_names_one.
    now destruct (own_name a).
Qed.

(** The statement above on the annotation "b" below the field "a". *)
Lemma field_id_of_child_witness :
  get_full_annotation_field_id 3 tree_store root_annotation = Done (Some "a")
  /\ get_full_annotation_field_id 3 tree_store leaf_annotation
     = Done (Some "a.b").
Proof.
  assert (Hc : chain 1 tree_store leaf_annotation
               = Some [leaf_annotation; root_annotation]) by reflexivity.
  assert (Hfuel : (length [leaf_annotation; root_annotation] < 3)%nat)
    by (simpl; lia).
  pose proof (field_id_of_child tree_store 1 3 leaf_annotation _ Hc Hfuel)
    as H.
  cbn [Parent leaf_annotation] in H.
  destruct H as [parent_id [Hp Ha]].
  assert (E : parent_id = Some "a").
  { vm_compute in Hp. now injection Hp as <-. }
  subst parent_id. split; [exact Hp | exact Ha].
Defined.

(** *** What a returned schema is made of *)

Lemma get_field_info_inv (fuel : nat) (st : store) (fields : dict pdf_field)
    (pages : list (list annotation)) (schema : list field_info)
    (printed : list warning) :
  get_field_info fuel st fields pages = Done (schema, printed) ->
  fields <> [] ->
  let defs := collect_fields fields (Definitions [] [] []) in
  exists t,
    visit_scan fuel st (defs_radio_names defs) (scan_from 0 pages)
      (Tables (defs_info defs) []) = Done t /\
    tables_ok t /\
    Permutation schema
      (fst (locate (dict_values (field_info_by_id t)))
       ++ dict_values (radio_fields_by_id t)) /\
    printed = defs_warnings defs
              ++ snd (locate (dict_values (field_info_by_id t))).
Proof.
  unfold get_field_info. destruct fields as [| kv fields']; [congruence |].
  intros H _. cbv zeta.
  set (defs := collect_fields (kv :: fields') (Definitions [] [] [])) in *.
  destruct (visit_pages fuel st (defs_radio_names defs) 0 pages
              (Tables (defs_info defs) [])) as [t | |] eqn:Ev;
    cbn [bind] in H; try discriminate.
  rewrite visit_pages_scan in Ev. exists t. split; [exact Ev |].
  assert (Hok : tables_ok t).
  { eapply visit_scan_ok; [| exact Ev].
    split; [| apply filed_nil]. cbn [field_info_by_id].
    apply collect_fields_filed. apply filed_nil. }
  split; [exact Hok |].
  pose proof (sortable_entries t Hok) as Hs.
  destruct (locate (dict_values (field_info_by_id t))) as [kept w].
  cbn [fst snd] in *.
  destruct (sort_fields_sorted _ Hs) as [sorted [E [Hperm _]]].
  rewrite E in H. cbn [bind] in H. injection H as <- <-. now split.
Qed.

Lemma locate_fst (infos : list field_info) :
  fst (locate infos) =
  filter (fun e => match page e with Some _ => true | None => false end) infos.
Proof.
  induction infos as [| e infos IH]; simpl; [reflexivity |].
  destruct (locate infos) as [kept printed]. simpl in IH.
  destruct (page e); simpl; now rewrite IH.
Qed.

Lemma locate_snd (infos : list field_info) :
  snd (locate infos) =
  flat_map (fun e => match page e with
                     | Some _ => []
                     | None => [WarnNoLocation (field_id e)]
                     end) infos.
Proof.
  induction infos as [| e infos IH]; simpl; [reflexivity |].
  destruct (locate infos) as [kept printed]. simpl in IH.
  destruct (page e); simpl; now rewrite IH.
Qed.

Lemma filed_ids (P : field_info -> Prop) (d : dict field_info) :
  filed P d -> map field_id (dict_values d) = map fst d.
Proof.
  intros [_ H]. unfold dict_values. rewrite map_map.
  induction H as [| kv d [Hk _] _ IH]; simpl; [reflexivity |].
  now rewrite Hk, IH.
Qed.

(** Dropping entries keeps their ids distinct. *)
Lemma kept_ids_distinct (keep : field_info -> bool)
    (entries : list field_info) :
  NoDup (map field_id entries) ->
  NoDup (map field_id (filter keep entries)).
Proof.
  intros Hnd. induction entries as [| e entries IH]; [constructor |].
  cbn [map] in Hnd. apply NoDup_cons_iff in Hnd. destruct Hnd as [He Hrest].
  cbn [filter]. destruct (keep e); [| now apply IH].
  cbn [map]. apply NoDup_cons; [| now apply IH].
  intros Hin. apply He. apply in_map_iff in Hin.
  destruct Hin as [e' [<- He']]. apply in_map.
  apply filter_In in He'. tauto.
Qed.

(** *** The keys of the two dictionaries *)

Lemma dict_mem_in (V : Type) (k : string) (d : dict V) :
  dict_mem k d = true <-> In k (map fst d).
Proof.
  unfold dict_mem. destruct (dict_get k d) eqn:E.
  - split; [intros _ | reflexivity].
    apply dict_get_in in E. now apply (in_map fst) in E.
  - apply dict_get_none in E. split; [discriminate | contradiction].
Qed.

Lemma add_radio_option_keys (id : string) (p : Z) (value : string)
    (r : option pdf_rect) (radio : dict field_info) :
  forall k, In k (map fst (add_radio_option id p value r radio)) ->
            k = id \/ In k (map fst radio).
Proof.
  intros k. unfold add_radio_option.
  destruct (dict_mem id radio) eqn:E.
  - unfold dict_mem in E. destruct (dict_get id radio) as [group |] eqn:G;
      [| discriminate].
    rewrite dict_set_keys. unfold dict_mem. rewrite G. auto.
  - rewrite dict_get_set_same, dict_set_set, dict_set_keys, E.
    rewrite in_app_iff. simpl. intuition.
Qed.

(** A turn of the scan adds no key to [field_info_by_id], and adds to
    [radio_fields_by_id] only names of [possible_radio_names]. *)
Lemma visit_annotation_keys (fuel : nat) (st : store) (names : list string)
    (k : nat) (a : annotation) (t t' : tables) :
  visit_annotation fuel st names k a t = Done t' ->
  map fst (field_info_by_id t') = map fst (field_info_by_id t) /\
  (forall id, In id (map fst (radio_fields_by_id t')) ->
              name_in id names = true \/ In id (map fst (radio_fields_by_id t))).
Proof.
  unfold visit_annotation.
  destruct (get_full_annotation_field_id fuel st a) as [id | |];
    cbn [bind]; try discriminate.
  destruct id as [id |]; [| intros [= <-]; auto].
  destruct (dict_get id (field_info_by_id t)) as [info |] eqn:E.
  - intros [= <-]. cbn [field_info_by_id radio_fields_by_id].
    split; [| auto]. rewrite dict_set_keys. unfold dict_mem. now rewrite E.
  - destruct (name_in id names) eqn:En; [| intros [= <-]; auto].
    destruct (AP_N a) as [keys |]; [| intros [= <-]; auto].
    destruct (on_values_of keys) as [| value [| ? ?]];
      intros [= <-]; auto.
    cbn [field_info_by_id radio_fields_by_id]. split; [reflexivity |].
    intros id' H. apply add_radio_option_keys in H.
    destruct H as [-> | H]; auto.
Qed.

Lemma visit_scan_keys (fuel : nat) (st : store) (names : list string)
    (l : list (nat * annotation)) :
  forall t t',
  visit_scan fuel st names l t = Done t' ->
  map fst (field_info_by_id t') = map fst (field_info_by_id t) /\
  (forall id, In id (map fst (radio_fields_by_id t')) ->
              name_in id names = true \/ In id (map fst (radio_fields_by_id t))).
Proof.
  induction l as [| [k a] l IH]; intros t t'.
  - intros [= <-]. auto.
  - cbn [visit_scan].
    destruct (visit_annotation fuel st names k a t) as [t1 | |] eqn:E1;
      cbn [bind]; try discriminate.
    intros H. apply visit_annotation_keys in E1. destruct E1 as [K1 R1].
    apply IH in H. destruct H as [K2 R2].
    split; [congruence |]. intros id Hid.
    destruct (R2 id Hid) as [H | H]; auto.
Qed.

(** The first loop: which ids get an entry, which become names. *)
Lemma collect_fields_keys (fields : dict pdf_field) :
  forall acc k,
  In k (map fst (defs_info (collect_fields fields acc))) ->
  In k (map fst (defs_info acc)) \/
  exists f, In (k, f) fields /\ Kids f = false.
Proof.
  induction fields as [| [id f] fields IH]; intros acc k; [auto |].
  cbn [collect_fields]. destruct (Kids f) eqn:Kf.
  - intros H. apply IH in H. destruct H as [H | [f' [H1 H2]]].
    + left. now destruct (is_btn (FT f)).
    + right. exists f'. split; [now right | exact H2].
  - destruct (make_field_dict f id) as [field_dict printed].
    intros H. apply IH in H. cbn [defs_info] in H.
    destruct H as [H | [f' [H1 H2]]].
    + rewrite dict_set_keys in H.
      destruct (dict_mem id (defs_info acc)); [now left |].
      apply in_app_or in H. destruct H as [H | [<- | []]]; [now left |].
      right. exists f. split; [now left | exact Kf].
    + right. exists f'. split; [now right | exact H2].
Qed.

Lemma collect_fields_named (fields : dict pdf_field) :
  forall acc k,
  name_in k (defs_radio_names (collect_fields fields acc)) = true ->
  name_in k (defs_radio_names acc) = true \/
  exists f, In (k, f) fields /\ Kids f = true /\ is_btn (FT f) = true.
Proof.
  induction fields as [| [id f] fields IH]; intros acc k; [auto |].
  cbn [collect_fields]. destruct (Kids f) eqn:Kf.
  - intros H. apply IH in H. destruct H as [H | [f' [H1 H2]]].
    + destruct (is_btn (FT f)) eqn:Bf; [| now left].
      cbn [defs_radio_names] in H. unfold name_in in H.
      rewrite existsb_app in H. apply orb_true_iff in H.
      destruct H as [H | H]; [now left |].
      cbn in H. rewrite orb_false_r in H. apply String.eqb_eq in H. subst.
      right. exists f. split; [now left | now split].
    + right. exists f'. split; [now right | exact H2].
  - destruct (make_field_dict f id) as [field_dict printed].
    intros H. apply IH in H. destruct H as [H | [f' [H1 H2]]]; [now left |].
    right. exists f'. split; [now right | exact H2].
Qed.

Lemma collect_fields_entry (fields : dict pdf_field) (id : string)
    (f : pdf_field) :
  forall acc,
  NoDup (map fst fields) -> In (id, f) fields -> Kids f = false ->
  dict_get id (defs_info (collect_fields fields acc))
  = Some (fst (make_field_dict f id)).
Proof.
  induction fields as [| [id' f'] fields IH]; intros acc Hnd Hin Kf;
    [destruct Hin |].
  inversion Hnd as [| ? ? Hfresh Hnd']; subst.
  cbn [collect_fields]. destruct Hin as [E | Hin].
  - injection E as -> ->. rewrite Kf.
    destruct (make_field_dict f id) as [field_dict printed] eqn:Em.
    cbn [fst].
    assert (G : forall fs acc',
              ~ In id (map fst fs) ->
              dict_get id (defs_info acc') = Some field_dict ->
              dict_get id (defs_info (collect_fields fs acc'))
              = Some field_dict).
    { induction fs as [| [i g] fs IHfs]; intros acc' Hni Hacc; [exact Hacc |].
      cbn [collect_fields]. simpl in Hni.
      destruct (Kids g).
      - apply IHfs; [tauto |]. now destruct (is_btn (FT g)).
      - destruct (make_field_dict g i) as [gd gp]. apply IHfs; [tauto |].
        cbn [defs_info]. rewrite dict_get_set_other; [exact Hacc |].
        intros ->. tauto. }
    apply G; [exact Hfresh |]. cbn [defs_info]. apply dict_get_set_same.
  - destruct (Kids f'); [now apply IH |].
    destruct (make_field_dict f' id'). now apply IH.
Qed.

Lemma make_field_dict_output (f : pdf_field) (id : string) :
  page (fst (make_field_dict f id)) = None /\
  Forall (fun w => warned w = id) (snd (make_field_dict f id)).
Proof.
  unfold make_field_dict.
  destruct (FT f) as [| states | states | ft]; cbn; try (split; [reflexivity | constructor]).
  destruct states as [| s0 [| s1 [| s2 states]]]; cbn;
    try (split; [reflexivity | constructor]).
  destruct (_ || _); cbn; split; try reflexivity; repeat constructor.
Qed.

Lemma collect_fields_warned (all fields : dict pdf_field) :
  (forall x, In x fields -> In x all) ->
  forall acc,
  Forall (fun w => exists f, In (warned w, f) all /\ Kids f = false)
         (defs_warnings acc) ->
  Forall (fun w => exists f, In (warned w, f) all /\ Kids f = false)
         (defs_warnings (collect_fields fields acc)).
Proof.
  induction fields as [| [id f] fields IH]; intros Hall acc Hacc;
    [exact Hacc |].
  cbn [collect_fields].
  assert (Hall' : forall x, In x fields -> In x all)
    by (intros x Hx; apply Hall; now right).
  destruct (Kids f) eqn:Kf.
  - apply IH; [exact Hall' |]. now destruct (is_btn (FT f)).
  - pose proof (make_field_dict_output f id) as [_ Hw].
    destruct (make_field_dict f id) as [field_dict printed].
    apply IH; [exact Hall' |]. cbn [defs_warnings snd] in *.
    apply Forall_app. split; [exact Hacc |].
    eapply Forall_impl; [| exact Hw].
    intros w ->. exists f. split; [apply Hall; now left | exact Kf].
Qed.

(** *** Pages *)

Lemma scan_from_indices (pages : list (list annotation)) :
  forall k,
  Forall (fun pa => (k <= fst pa < k + length pages)%nat) (scan_from k pages).
Proof.
  induction pages as [| anns pages IH]; intros k; simpl; [constructor |].
  apply Forall_app. split.
  - rewrite Forall_map. apply Forall_forall. intros a _. simpl. lia.
  - eapply Forall_impl; [| apply (IH (S k))]. intros pa H. simpl in H. lia.
Qed.

Section Pages.
Variable N : nat.

Lemma add_radio_option_pages (id : string) (k : nat) (value : string)
    (r : option pdf_rect) (radio : dict field_info) :
  (k < N)%nat -> Forall (page_ok N) radio ->
  Forall (page_ok N) (add_radio_option id (Z.of_nat k + 1) value r radio).
Proof.
  intros Hk Hr. unfold add_radio_option, dict_mem.
  destruct (dict_get id radio) as [group |] eqn:E.
  - rewrite E. apply dict_set_forall; [exact Hr |].
    apply dict_get_in in E. rewrite Forall_forall in Hr.
    exact (Hr _ E).
  - rewrite dict_get_set_same, dict_set_set.
    apply dict_set_forall; [exact Hr |]. unfold page_ok. cbn. lia.
Qed.

Lemma visit_annotation_pages (fuel : nat) (st : store) (names : list string)
    (k : nat) (a : annotation) (t t' : tables) :
  (k < N)%nat ->
  Forall (page_ok N) (field_info_by_id t) -> Forall (page_ok N) (radio_fields_by_id t) ->
  visit_annotation fuel st names k a t = Done t' ->
  Forall (page_ok N) (field_info_by_id t') /\ Forall (page_ok N) (radio_fields_by_id t').
Proof.
  intros Hk Hi Hr. unfold visit_annotation.
  destruct (get_full_annotation_field_id fuel st a) as [id | |];
    cbn [bind]; try discriminate.
  destruct id as [id |]; [| intros [= <-]; now split].
  destruct (dict_get id (field_info_by_id t)) as [info |] eqn:E.
  - intros [= <-]. cbn [field_info_by_id radio_fields_by_id].
    split; [| exact Hr]. apply dict_set_forall; [exact Hi |].
    unfold page_ok. cbn. lia.
  - destruct (name_in id names); [| intros [= <-]; now split].
    destruct (AP_N a) as [keys |]; [| intros [= <-]; now split].
    destruct (on_values_of keys) as [| value [| ? ?]];
      intros [= <-]; try now split.
    cbn [field_info_by_id radio_fields_by_id]. split; [exact Hi |].
    now apply add_radio_option_pages.
Qed.

Lemma visit_scan_pages (fuel : nat) (st : store) (names : list string)
    (l : list (nat * annotation)) :
  Forall (fun pa => (fst pa < N)%nat) l ->
  forall t t',
  Forall (page_ok N) (field_info_by_id t) -> Forall (page_ok N) (radio_fields_by_id t) ->
  visit_scan fuel st names l t = Done t' ->
  Forall (page_ok N) (field_info_by_id t') /\ Forall (page_ok N) (radio_fields_by_id t').
Proof.
  induction 1 as [| [k a] l Hk _ IH]; intros t t' Hi Hr.
  - intros [= <-]. now split.
  - cbn [visit_scan].
    destruct (visit_annotation fuel st names k a t) as [t1 | |] eqn:E1;
      cbn [bind]; try discriminate.
    destruct (visit_annotation_pages _ _ _ _ _ _ _ Hk Hi Hr E1) as [Hi1 Hr1].
    now apply IH.
Qed.

End Pages.

Lemma collect_fields_pages (fields : dict pdf_field) :
  forall acc,
  Forall (fun kv => page (snd kv) = None) (defs_info acc) ->
  Forall (fun kv => page (snd kv) = None)
         (defs_info (collect_fields fields acc)).
Proof.
  induction fields as [| [id f] fields IH]; intros acc Hacc; [exact Hacc |].
  cbn [collect_fields]. destruct (Kids f).
  - apply IH. now destruct (is_btn (FT f)).
  - pose proof (make_field_dict_output f id) as [Hp _].
    destruct (make_field_dict f id) as [field_dict printed].
    apply IH. cbn [defs_info]. apply dict_set_forall; [exact Hacc | exact Hp].
Qed.

(** The page of every entry of a returned schema is a page of the
    document. *)
Lemma get_field_info_pages (fuel : nat) (st : store)
    (fields : dict pdf_field) (pages : list (list annotation))
    (schema : list field_info) (printed : list warning) :
  get_field_info fuel st fields pages = Done (schema, printed) ->
  Forall (page_in_range (length pages)) schema.
Proof.
  intros H. destruct fields as [| first fields'] eqn:Ef.
  { injection H as <- _. constructor. }
  rewrite <- Ef in *.
  destruct (get_field_info_inv _ _ _ _ _ _ H) as [t [Hv [Hok [Hperm _]]]];
    [congruence |].
  set (defs := collect_fields fields (Definitions [] [] [])) in *.
  destruct Hok as [Hi Hr].
  assert (Hpages : Forall (page_ok (length pages)) (field_info_by_id t) /\
                   Forall (page_ok (length pages)) (radio_fields_by_id t)).
  { eapply (visit_scan_pages (length pages)); [| | | exact Hv].
    - eapply Forall_impl; [| apply scan_from_indices].
      intros pa Hpa. simpl in Hpa. lia.
    - cbn [field_info_by_id]. eapply Forall_impl;
        [| apply collect_fields_pages; constructor].
      intros kv Hkv. cbn beta in Hkv. unfold page_ok. now rewrite Hkv.
    - constructor. }
  destruct Hpages as [Hpi Hpr].
  eapply Permutation_Forall; [symmetry; exact Hperm |].
  apply Forall_app. split.
  - rewrite locate_fst. apply Forall_forall. intros e He.
    apply filter_In in He. destruct He as [He Hp].
    unfold dict_values in He. apply in_map_iff in He.
    destruct He as [kv [<- Hkv]]. rewrite Forall_forall in Hpi.
    specialize (Hpi kv Hkv). unfold page_ok in Hpi.
    unfold page_in_range. destruct (page (snd kv)) as [p |]; [| discriminate].
    now exists p.
  - apply Forall_forall. intros e He.
    unfold dict_values in He. apply in_map_iff in He.
    destruct He as [kv [<- Hkv]]. rewrite Forall_forall in Hpr.
    specialize (Hpr kv Hkv). unfold page_ok in Hpr.
    destruct Hr as [_ Hr]. rewrite Forall_forall in Hr.
    destruct (Hr kv Hkv) as [_ [_ [Hp _]]].
    unfold page_in_range. destruct (page (snd kv)) as [p |]; [| congruence].
    now exists p.
Qed.

(** X5.  In every schema that the extraction returns from a document
    whose field dictionary has no key twice, no two entries have the same
    [field_id], and the page of every entry is a page of the document:
    between 1 and the number of pages. *)
Theorem schema_ids_and_pages (fuel : nat) (st : store)
    (fields : dict pdf_field) (pages : list (list annotation))
    (schema : list field_info) (printed : list warning) :
  NoDup (map fst fields) ->
  get_field_info fuel st fields pages = Done (schema, printed) ->
  NoDup (map field_id schema) /\
  Forall (page_in_range (length pages)) schema.
Proof.
  intros Hnd H. destruct fields as [| first fields'] eqn:Ef.
  { injection H as <- _. split; constructor. }
  rewrite <- Ef in *.
  destruct (get_field_info_inv _ _ _ _ _ _ H) as [t [Hv [Hok [Hperm _]]]];
    [congruence |].
  set (defs := collect_fields fields (Definitions [] [] [])) in *.
  destruct Hok as [Hi Hr].
  destruct (visit_scan_keys _ _ _ _ _ _ Hv) as [Hkeys Hnames].
  cbn [field_info_by_id radio_fields_by_id] in Hkeys, Hnames.
  split.
  - eapply Permutation_NoDup;
      [apply Permutation_map; symmetry; exact Hperm |].
    rewrite map_app. apply NoDup_app.
    + rewrite locate_fst. apply kept_ids_distinct.
      rewrite (filed_ids _ _ Hi). apply Hi.
    + rewrite (filed_ids _ _ Hr). apply Hr.
    + intros id Hin1 Hin2.
      rewrite locate_fst in Hin1. apply in_map_iff in Hin1.
      destruct Hin1 as [e [Hid He]]. apply filter_In in He.
      destruct He as [He _]. apply (in_map field_id) in He.
      rewrite Hid, (filed_ids _ _ Hi), Hkeys in He.
      apply collect_fields_keys in He. destruct He as [[] | [f [Hf Kf]]].
      rewrite (filed_ids _ _ Hr) in Hin2.
      destruct (Hnames id Hin2) as [Hn | []].
      apply collect_fields_named in Hn.
      destruct Hn as [Hn | [f' [Hf' [Kf' _]]]]; [discriminate |].
      rewrite (nodup_keys_unique _ fields id f f' Hnd Hf Hf') in Kf.
      congruence.
  - exact (get_field_info_pages _ _ _ _ _ _ H).
Qed.

(** The statement above on the sample form. *)
Lemma schema_ids_and_pages_witness :
  NoDup (map field_id FillForm.sample_schema) /\
  Forall (page_in_range 1) FillForm.sample_schema.
Proof.
  assert (Hnd : NoDup (map fst sample_fields)).
  { repeat constructor; simpl; intuition discriminate. }
  exact (schema_ids_and_pages 3 sample_store sample_fields sample_pages
           FillForm.sample_schema [] Hnd eq_refl).
Defined.

(** *** Leaf fields *)

Lemma with_location_relocate (l : list (nat * annotation)) :
  forall e p r, with_location p r (relocate e l) = with_location p r e.
Proof.
  unfold relocate. induction l as [| pa l IH]; intros e p r; [reflexivity |].
  cbn [fold_left]. now rewrite IH.
Qed.

Lemma relocate_last (e : field_info) (l : list (nat * annotation)) :
  relocate e l =
  match rev l with
  | [] => e
  | (k, a) :: _ => with_location (Z.of_nat k + 1) (Rect a) e
  end.
Proof.
  destruct l as [| x l'] using rev_ind; [reflexivity |].
  rewrite rev_app_distr. cbn [rev app]. destruct x as [k a].
  unfold relocate. rewrite fold_left_app. cbn [fold_left fst snd].
  apply with_location_relocate.
Qed.

Lemma visit_annotation_leaf (fuel : nat) (st : store) (names : list string)
    (id : string) (k : nat) (a : annotation) (t t' : tables)
    (e : field_info) :
  dict_get id (field_info_by_id t) = Some e ->
  visit_annotation fuel st names k a t = Done t' ->
  dict_get id (field_info_by_id t') =
  Some (relocate e (filter (fun pa => names_group fuel st id (snd pa))
                           [(k, a)])).
Proof.
  intros He. unfold visit_annotation, names_group. cbn [filter snd].
  destruct (get_full_annotation_field_id fuel st a) as [id' | |];
    cbn [bind]; try discriminate.
  destruct id' as [id' |]; [| now intros [= <-]].
  destruct (String.eqb_spec id' id) as [-> | Hne].
  - rewrite He. intros [= <-]. cbn [field_info_by_id].
    now rewrite dict_get_set_same.
  - destruct (dict_get id' (field_info_by_id t)) as [info |].
    + intros [= <-]. cbn [field_info_by_id].
      now rewrite dict_get_set_other.
    + destruct (name_in id' names); [| now intros [= <-]].
      destruct (AP_N a) as [keys |]; [| now intros [= <-]].
      destruct (on_values_of keys) as [| value [| ? ?]]; now intros [= <-].
Qed.

Lemma visit_scan_leaf (fuel : nat) (st : store) (names : list string)
    (id : string) (l : list (nat * annotation)) :
  forall t t' e,
  dict_get id (field_info_by_id t) = Some e ->
  visit_scan fuel st names l t = Done t' ->
  dict_get id (field_info_by_id t') =
  Some (relocate e (filter (fun pa => names_group fuel st id (snd pa)) l)).
Proof.
  induction l as [| [k a] l IH]; intros t t' e He.
  - now intros [= <-].
  - cbn [visit_scan].
    destruct (visit_annotation fuel st names k a t) as [t1 | |] eqn:E1;
      cbn [bind]; try discriminate.
    intros H. apply (visit_annotation_leaf _ _ _ id _ _ _ _ e He) in E1.
    rewrite (IH _ _ _ E1 H). f_equal.
    change ((k, a) :: l) with ([(k, a)] ++ l).
    rewrite filter_app. unfold relocate. now rewrite fold_left_app.
Qed.

Lemma filter_comm (A : Type) (p q : A -> bool) (l : list A) :
  filter p (filter q l) = filter q (filter p l).
Proof.
  induction l as [| x l IH]; simpl; [reflexivity |].
  destruct (p x) eqn:Ep, (q x) eqn:Eq; simpl; rewrite ?Ep, ?Eq, IH;
    reflexivity.
Qed.

(** The id of a leaf field is no key of [radio_fields_by_id]. *)
Lemma leaf_not_named (fields : dict pdf_field) (id : string) (f : pdf_field) :
  NoDup (map fst fields) -> In (id, f) fields -> Kids f = false ->
  name_in id (defs_radio_names (collect_fields fields (Definitions [] [] [])))
  = false.
Proof.
  intros Hnd Hf Kf.
  destruct (name_in id _) eqn:E; [| reflexivity].
  apply collect_fields_named in E.
  destruct E as [E | [f' [Hf' [Kf' _]]]]; [discriminate |].
  rewrite (nodup_keys_unique _ fields id f f' Hnd Hf Hf') in Kf. congruence.
Qed.

(** X6.  A field without children gets at most one entry.  When no
    annotation has its id the field is left out of the schema and a
    warning names it; otherwise its entry is the dictionary made by
    [make_field_dict] with the page and the rectangle of the last
    annotation of that id in the scan, and no such warning is printed. *)
Theorem leaf_field_entry (fuel : nat) (st : store) (fields : dict pdf_field)
    (pages : list (list annotation)) (schema : list field_info)
    (printed : list warning) (id : string) (f : pdf_field) :
  NoDup (map fst fields) -> In (id, f) fields -> Kids f = false ->
  get_field_info fuel st fields pages = Done (schema, printed) ->
  let here := filter (fun e => String.eqb (field_id e) id) schema in
  match rev (widgets fuel st id pages) with
  | [] => here = [] /\ In (WarnNoLocation id) printed
  | (k, a) :: _ =>
      here = [with_location (Z.of_nat k + 1) (Rect a)
                            (fst (make_field_dict f id))]
      /\ ~ In (WarnNoLocation id) printed
  end.
Proof.
  intros Hnd Hf Kf H. cbv zeta.
  assert (Hfields : fields <> []) by (intros ->; destruct Hf).
  destruct (get_field_info_inv _ _ _ _ _ _ H Hfields)
    as [t [Hv [[Hi Hr] [Hperm Hprinted]]]].
  set (defs := collect_fields fields (Definitions [] [] [])) in *.
  set (e0 := fst (make_field_dict f id)).
  assert (He0 : dict_get id (defs_info defs) = Some e0)
    by (now apply collect_fields_entry).
  pose proof (visit_scan_leaf fuel st (defs_radio_names defs) id
                (scan_from 0 pages) (Tables (defs_info defs) []) t e0 He0 Hv)
    as Hentry.
  fold (widgets fuel st id pages) in Hentry.
  rewrite relocate_last in Hentry.
  assert (Hradio : dict_get id (radio_fields_by_id t) = None).
  { apply dict_get_none. intros Hin.
    destruct (visit_scan_keys _ _ _ _ _ _ Hv) as [_ Hnames].
    destruct (Hnames id Hin) as [Hn | []].
    fold defs in Hn. unfold defs in Hn.
    now rewrite (leaf_not_named fields id f Hnd Hf Kf) in Hn. }
  assert (Hhere : Permutation
            (filter (fun e => String.eqb (field_id e) id) schema)
            (filter (fun e => match page e with Some _ => true | None => false end)
               (match dict_get id (field_info_by_id t) with
                | Some v => [v] | None => [] end))).
  { apply Permutation_filter
      with (p := fun e => String.eqb (field_id e) id) in Hperm.
    rewrite filter_app, locate_fst, filter_comm in Hperm.
    rewrite (dict_values_filter field_id id (field_info_by_id t)) in Hperm;
      [| apply Hi | eapply Forall_impl; [| apply Hi]; now intros kv [Hk _]].
    rewrite (dict_values_filter field_id id (radio_fields_by_id t)) in Hperm;
      [| apply Hr | eapply Forall_impl; [| apply Hr]; now intros kv [Hk _]].
    now rewrite Hradio, app_nil_r in Hperm. }
  rewrite Hentry in Hhere.
  pose proof (make_field_dict_output f id) as [Hp0 _]. fold e0 in Hp0.
  assert (Hwarn : forall e, In e (dict_values (field_info_by_id t)) ->
            field_id e = id ->
            e = match rev (widgets fuel st id pages) with
                | [] => e0
                | (k, a) :: _ => with_location (Z.of_nat k + 1) (Rect a) e0
                end).
  { intros e He Hid. unfold dict_values in He. apply in_map_iff in He.
    destruct He as [[k v] [<- Hkv]]. cbn [snd] in *.
    destruct Hi as [Hnd' Hall]. rewrite Forall_forall in Hall.
    destruct (Hall _ Hkv) as [Hk _]. cbn [fst snd] in Hk.
    rewrite Hid in Hk. subst k.
    apply (in_dict_get _ _ _ Hnd') in Hkv. congruence. }
  assert (Hdefs : ~ In (WarnNoLocation id) (defs_warnings defs)).
  { intros Hin.
    assert (G : forall fs acc,
              Forall (fun w => match w with
                               | WarnNoLocation _ => False
                               | _ => True
                               end) (defs_warnings acc) ->
              Forall (fun w => match w with
                               | WarnNoLocation _ => False
                               | _ => True
                               end) (defs_warnings (collect_fields fs acc))).
    { induction fs as [| [i g] fs IHfs]; intros acc Hacc; [exact Hacc |].
      cbn [collect_fields]. destruct (Kids g).
      - apply IHfs. now destruct (is_btn (FT g)).
      - unfold make_field_dict.
        destruct (FT g) as [| states | states | ft]; cbn;
          try (apply IHfs; cbn; now rewrite app_nil_r).
        destruct states as [| s0 [| s1 [| s2 states]]]; cbn;
          try (apply IHfs; cbn; now rewrite app_nil_r).
        destruct (_ || _); cbn; apply IHfs; cbn.
        + now rewrite app_nil_r.
        + apply Forall_app. split; [exact Hacc | repeat constructor]. }
    specialize (G fields (Definitions [] [] []) (Forall_nil _)).
    rewrite Forall_forall in G. exact (G _ Hin). }
  destruct (rev (widgets fuel st id pages)) as [| [k a] ws].
  - cbn [filter] in Hhere. rewrite Hp0 in Hhere.
    apply Permutation_sym, Permutation_nil in Hhere. split; [exact Hhere |].
    rewrite Hprinted. apply in_or_app. right. rewrite locate_snd.
    apply in_flat_map. exists e0. split.
    + apply dict_get_in in Hentry. now apply (in_map snd) in Hentry.
    + rewrite Hp0. left. f_equal. unfold e0.
      now destruct (make_field_dict_plain f id) as [-> _].
  - cbn [filter with_location page] in Hhere.
    apply Permutation_sym, Permutation_length_1_inv in Hhere.
    split; [exact Hhere |].
    rewrite Hprinted. intros Hin. apply in_app_or in Hin.
    destruct Hin as [Hin | Hin]; [contradiction |].
    rewrite locate_snd in Hin. apply in_flat_map in Hin.
    destruct Hin as [e [He Hw]].
    destruct (page e) eqn:Ep; [destruct Hw |].
    destruct Hw as [Hw | []]. injection Hw as Hid.
    rewrite (Hwarn e He Hid) in Ep. discriminate.
Qed.

(** The statement above on the check box of the sample form. *)
Lemma leaf_field_entry_witness :
  filter (fun e => String.eqb (field_id e) "agree") FillForm.sample_schema
  = [FieldInfo "agree" checkbox (Some "/Yes") (Some "/Off") None (Some 1)
       (Some (PdfRect 50 100 60 110)) None].
Proof.
  assert (Hnd : NoDup (map fst sample_fields)).
  { repeat constructor; simpl; intuition discriminate. }
  assert (Hin : In ("agree", PdfField (FT_Btn ["/Yes"; "/Off"]) false)
                   sample_fields) by (right; right; left; reflexivity).
  pose proof (leaf_field_entry 3 sample_store sample_fields sample_pages
                FillForm.sample_schema [] "agree" _ Hnd Hin eq_refl eq_refl)
    as H.
  cbv zeta in H.
  change (rev (widgets 3 sample_store "agree" sample_pages))
    with [(0%nat, Annotation (Some "agree") None
                    (Some (PdfRect 50 100 60 110)) None)] in H.
  destruct H as [H _]. exact H.
Defined.

(** *** Fields with children *)

(** X7.  A field with children never gets a warning.  When it is not a
    button field it has no entry.  When it is a button field its entry is
    made of the annotations of its id that have exactly one appearance
    state other than "/Off": if there is none the field is left out of the
    schema without a word; otherwise it has one entry of type
    [radio_group], on the page of the first of these annotations, with
    their options in the order of the scan. *)
Theorem container_field_entry (fuel : nat) (st : store)
    (fields : dict pdf_field) (pages : list (list annotation))
    (schema : list field_info) (printed : list warning)
    (id : string) (f : pdf_field) :
  NoDup (map fst fields) -> In (id, f) fields -> Kids f = true ->
  get_field_info fuel st fields pages = Done (schema, printed) ->
  let here := filter (fun e => String.eqb (field_id e) id) schema in
  Forall (fun w => warned w <> id) printed
  /\ (is_btn (FT f) = false -> here = [])
  /\ (is_btn (FT f) = true ->
      here = match placed_options (widgets fuel st id pages) with
             | [] => []
             | (k, o) :: rest =>
                 [FieldInfo id radio_group None None None
                            (Some (Z.of_nat k + 1)) None
                            (Some (o :: map snd rest))]
             end).
Proof.
  intros Hnd Hf Kf H. cbv zeta.
  assert (Hfields : fields <> []) by (intros ->; destruct Hf).
  destruct (get_field_info_inv _ _ _ _ _ _ H Hfields)
    as [t [Hv [[Hi Hr] [Hperm Hprinted]]]].
  set (defs := collect_fields fields (Definitions [] [] [])) in *.
  destruct (visit_scan_keys _ _ _ _ _ _ Hv) as [Hkeys Hnames].
  cbn [field_info_by_id radio_fields_by_id] in Hkeys, Hnames.
  assert (Hleaf : forall g, In (id, g) fields -> Kids g = false -> False).
  { intros g Hg Kg.
    rewrite (nodup_keys_unique _ fields id g f Hnd Hg Hf) in Kg. congruence. }
  assert (Hkey : ~ In id (map fst (field_info_by_id t))).
  { rewrite Hkeys. intros Hin. apply collect_fields_keys in Hin.
    destruct Hin as [[] | [g [Hg Kg]]]. exact (Hleaf g Hg Kg). }
  assert (Hinfo : filter (fun e => String.eqb (field_id e) id)
                    (fst (locate (dict_values (field_info_by_id t)))) = []).
  { apply locate_filter.
    rewrite (dict_values_filter field_id id (field_info_by_id t));
      [| apply Hi | eapply Forall_impl; [| apply Hi]; now intros kv [Hk _]].
    apply dict_get_none in Hkey. now rewrite Hkey. }
  assert (Hhere : Permutation
            (filter (fun e => String.eqb (field_id e) id) schema)
            (match dict_get id (radio_fields_by_id t) with
             | Some v => [v] | None => [] end)).
  { apply Permutation_filter
      with (p := fun e => String.eqb (field_id e) id) in Hperm.
    rewrite filter_app, Hinfo in Hperm. cbn [app] in Hperm.
    rewrite (dict_values_filter field_id id (radio_fields_by_id t)) in Hperm;
      [exact Hperm | apply Hr |].
    eapply Forall_impl; [| apply Hr]. now intros kv [Hk _]. }
  split; [| split].
  - rewrite Hprinted. apply Forall_app. split.
    + eapply Forall_impl;
        [| apply (collect_fields_warned fields fields);
           [auto | constructor]].
      intros w [g [Hg Kg]] E. rewrite E in Hg. exact (Hleaf g Hg Kg).
    + rewrite locate_snd. apply Forall_forall. intros w Hw.
      apply in_flat_map in Hw. destruct Hw as [e [He Hw]].
      destruct (page e); [destruct Hw |]. destruct Hw as [<- | []].
      cbn [warned]. intros E. apply Hkey.
      rewrite <- (filed_ids _ _ Hi), <- E. now apply in_map.
  - intros Hb.
    assert (Hn : dict_get id (radio_fields_by_id t) = None).
    { apply dict_get_none. intros Hin.
      destruct (Hnames id Hin) as [Hn | []].
      apply collect_fields_named in Hn.
      destruct Hn as [Hn | [g [Hg [_ Bg]]]]; [discriminate |].
      rewrite (nodup_keys_unique _ fields id g f Hnd Hg Hf) in Bg.
      congruence. }
    rewrite Hn in Hhere. now apply Permutation_sym, Permutation_nil in Hhere.
  - intros Hb.
    assert (Hname : name_in id (defs_radio_names defs) = true).
    { apply (collect_fields_names id f); auto. }
    assert (Hnone : dict_get id (defs_info defs) = None).
    { apply collect_fields_no_entry; [| reflexivity].
      intros g Hg. destruct (Kids g) eqn:Kg; [reflexivity |].
      destruct (Hleaf g Hg Kg). }
    destruct (visit_scan_group fuel st (defs_radio_names defs) id Hname
                (scan_from 0 pages) (Tables (defs_info defs) []) t Hnone Hv)
      as [_ Hgroup].
    fold (widgets fuel st id pages) in Hgroup.
    cbn [radio_fields_by_id dict_get] in Hgroup.
    rewrite Hgroup in Hhere.
    destruct (placed_options (widgets fuel st id pages)) as [| [k o] rest].
    + cbn [fold_left] in Hhere.
      now apply Permutation_sym, Permutation_nil in Hhere.
    + rewrite fold_grow_none in Hhere. cbn [fst map snd] in Hhere.
      now apply Permutation_sym, Permutation_length_1_inv in Hhere.
Qed.

(** The statement above on the radio group of the sample form. *)
Lemma container_field_entry_witness :
  filter (fun e => String.eqb (field_id e) "gender") FillForm.sample_schema
  = [FieldInfo "gender" radio_group None None None (Some 1) None
       (Some [("/M", Some (PdfRect 50 400 60 410));
              ("/F", Some (PdfRect 100 400 110 410))])].
Proof.
  assert (Hnd : NoDup (map fst sample_fields)).
  { repeat constructor; simpl; intuition discriminate. }
  assert (Hin : In ("gender", PdfField (FT_Btn ["/M"; "/F"; "/Off"]) true)
                   sample_fields) by (right; left; reflexivity).
  destruct (container_field_entry 3 sample_store sample_fields sample_pages
              FillForm.sample_schema [] "gender" _ Hnd Hin eq_refl eq_refl)
    as [_ [_ H]].
  exact (H eq_refl).
Defined.

(** *** No exception *)





(** X10.  When the scan of the annotations in [get_field_info] ends,
    every entry kept for a radio group is of type [radio_group], has a
    page and holds at least one option, because the entry is created
    together with its first option; no entry that reaches the sort has an
    empty list of options, so the subscript [radio_options[0]] of the sort
    key does not raise IndexError.  When [get_field_info] does not return,
    the walk along the parent chain of some annotation does not end. *)
Theorem radio_options_never_empty (fuel : nat) (st : store)
    (fields : dict pdf_field) (pages : list (list annotation)) :
  let defs := collect_fields fields (Definitions [] [] []) in
  let scan := visit_pages fuel st (defs_radio_names defs) 0 pages
                (Tables (defs_info defs) []) in
  (forall t,
     scan = Done t ->
     let sorted_fields :=
       fst (locate (dict_values (field_info_by_id t)))
       ++ dict_values (radio_fields_by_id t) in
     Forall (fun kv => group_entry (snd kv)) (radio_fields_by_id t)
     /\ Forall (fun f => radio_options f <> Some []) sorted_fields
     /\ Forall (fun f => sort_key f <> Raised IndexError) sorted_fields)
  /\ (get_field_info fuel st fields pages = OutOfFuel ->
      exists a, In a (map snd (scan_from 0 pages)) /\
                get_full_annotation_field_id fuel st a = OutOfFuel).
Proof.
  cbv zeta.
  set (defs := collect_fields fields (Definitions [] [] [])).
  assert (Hok0 : tables_ok (Tables (defs_info defs) [])).
  { split; [| apply filed_nil]. cbn [field_info_by_id].
    apply collect_fields_filed. apply filed_nil. }
  assert (Hfuel : forall names l t,
            visit_scan fuel st names l t = OutOfFuel ->
            exists a, In a (map snd l) /\
                      get_full_annotation_field_id fuel st a = OutOfFuel).
  { intros names. induction l as [| [k a] l IH]; intros t; [discriminate |].
    cbn [visit_scan].
    destruct (visit_annotation fuel st names k a t) as [t1 | e1 |] eqn:E1;
      cbn [bind].
    - intros H. destruct (IH _ H) as [a' [Ha' Hw]]. exists a'.
      split; [now right | exact Hw].
    - discriminate.
    - intros _. exists a. split; [now left |].
      unfold visit_annotation in E1.
      destruct (get_full_annotation_field_id fuel st a) as [id | |];
        cbn [bind] in E1; [| discriminate | reflexivity].
      destruct id as [id |]; [| discriminate].
      destruct (dict_get id (field_info_by_id t)); [discriminate |].
      destruct (name_in id names); [| discriminate].
      destruct (AP_N a) as [keys |]; [| discriminate].
      destruct (on_values_of keys) as [| value [| ? ?]]; discriminate. }
  split.
  - intros t Ht. rewrite visit_pages_scan in Ht.
    assert (Hok : tables_ok t) by (eapply visit_scan_ok; eassumption).
    destruct Hok as [[_ Hi] [_ Hr]].
    assert (Hnonempty :
      Forall (fun f => radio_options f <> Some [])
             (fst (locate (dict_values (field_info_by_id t)))
              ++ dict_values (radio_fields_by_id t))).
    { apply Forall_app. split.
      - rewrite locate_fst. apply Forall_forall. intros e He.
        apply filter_In in He. destruct He as [He _].
        unfold dict_values in He. apply in_map_iff in He.
        destruct He as [kv [<- Hkv]]. rewrite Forall_forall in Hi.
        destruct (Hi kv Hkv) as [_ [Hnone _]]. rewrite Hnone. discriminate.
      - apply Forall_forall. intros e He.
        unfold dict_values in He. apply in_map_iff in He.
        destruct He as [kv [<- Hkv]]. rewrite Forall_forall in Hr.
        destruct (Hr kv Hkv) as [_ [_ [_ [o [options ->]]]]]. discriminate. }
    split; [| split; [exact Hnonempty |]].
    + eapply Forall_impl; [| exact Hr]. now intros kv [_ H].
    + eapply Forall_impl; [| exact Hnonempty].
      intros f. unfold sort_key.
      destruct (radio_options f) as [[| [v r] options] |];
        [intros Hf; now contradiction Hf | discriminate | discriminate].
  - unfold get_field_info. destruct fields as [| kv fields'];
      [discriminate |].
    fold defs. rewrite visit_pages_scan.
    destruct (visit_scan fuel st (defs_radio_names defs) (scan_from 0 pages)
                (Tables (defs_info defs) [])) as [t | e1 |] eqn:Ev;
      cbn [bind].
    + assert (Hok : tables_ok t) by (eapply visit_scan_ok; eassumption).
      destruct (sort_fields_sorted _ (sortable_entries t Hok)) as [s [E _]].
      destruct (locate (dict_values (field_info_by_id t))) as [kept w].
      cbn [fst] in E. rewrite E. discriminate.
    + discriminate.
    + intros _. exact (Hfuel _ _ _ Ev).
Qed.

End SchemaFacts.

(** ** More on the value validator and the native form filler *)

Section FillingFacts.
Import Py Fill FillForm Filling.

(** *** The grouping by page *)

Lemma page_get_set_same (p : Z) (v : dict string) (d : list (Z * dict string)) :
  page_get p (page_set p v d) = Some v.
Proof.
  induction d as [| [p' v'] d IH]; simpl.
  - now rewrite Z.eqb_refl.
  - destruct (p =? p') eqn:E; simpl; now rewrite E.
Qed.

Lemma page_get_set_other (p q : Z) (v : dict string)
    (d : list (Z * dict string)) :
  p <> q -> page_get q (page_set p v d) = page_get q d.
Proof.
  intros Hne. induction d as [| [p' v'] d IH]; simpl.
  - destruct (Z.eqb_spec q p); [congruence | reflexivity].
  - destruct (Z.eqb_spec p p') as [-> | H0]; simpl.
    + destruct (Z.eqb_spec q p'); [congruence | reflexivity].
    + now rewrite IH.
Qed.


Lemma group_by_page_recorded (fields : list assignment) (p : Z) (id : string) :
  forall acc,
  recorded p id (group_by_page fields acc) =
  fold_left (fun cur a =>
               if (page a =? p) && String.eqb (field_id a) id
               then match value a with Some v => Some v | None => cur end
               else cur)
            fields (recorded p id acc).
Proof.
  induction fields as [| a fields IH]; intros acc; [reflexivity |].
  cbn [group_by_page fold_left].
  destruct (value a) as [v |].
  - rewrite IH. f_equal. unfold recorded.
    destruct (Z.eqb_spec (page a) p) as [<- | Hp]; cbn [andb].
    + rewrite page_get_set_same.
      destruct (String.eqb_spec (field_id a) id) as [<- | Hid].
      * now rewrite dict_get_set_same.
      * rewrite dict_get_set_other by exact Hid.
        now destruct (page_get (page a) acc).
    + now rewrite page_get_set_other.
  - rewrite IH. f_equal.
    now destruct ((page a =? p) && String.eqb (field_id a) id).
Qed.


(** X8.  In the grouping of the assignments by page the value recorded
    for a field of a page is the value of the last assignment of that page
    and field id that has a value; assignments without a value, and
    assignments to other pages or fields, do not change it. *)
Theorem group_by_page_last_wins (fields : list assignment) (p : Z)
    (id : string) :
  recorded p id (group_by_page fields []) = last_value p id fields
  /\ (forall a, page a = p -> field_id a = id ->
      forall v, value a = Some v ->
      recorded p id (group_by_page (fields ++ [a]) []) = Some v)
  /\ (forall a, (page a <> p \/ field_id a <> id \/ value a = None) ->
      recorded p id (group_by_page (fields ++ [a]) [])
      = recorded p id (group_by_page fields [])).
Proof.
  split; [| split].
  - apply group_by_page_recorded.
  - intros a Hp Hid v Hv. rewrite group_by_page_recorded, fold_left_app.
    cbn [fold_left]. now rewrite Hp, Hid, Z.eqb_refl, String.eqb_refl, Hv.
  - intros a Ha. rewrite !group_by_page_recorded, fold_left_app.
    cbn [fold_left].
    destruct (Z.eqb_spec (page a) p) as [Hp | Hp]; [| reflexivity].
    destruct (String.eqb_spec (field_id a) id) as [Hid | Hid];
      [| reflexivity].
    cbn [andb]. destruct Ha as [Ha | [Ha | Ha]]; try contradiction.
    now rewrite Ha.
Qed.

(** *** The writing phase *)






(** *** The output file *)







(** *** Legal values of the fields of a document *)

(** A state read from an option is among the states exactly when the
    option is among the options. *)
Lemma read_states_first (opts : list Schema.opt) :
  forall states v,
  Schema.read_states opts = Some states ->
  (In v (map fst states) <->
   exists o second, In o opts /\ Schema.items o = Some (v, second)).
Proof.
  induction opts as [| o opts IH]; intros states v; cbn [Schema.read_states].
  - intros [= <-]. split; [intros [] | intros [o [d [[] _]]]].
  - destruct (Schema.items o) as [[a b] |] eqn:Eo; [| discriminate].
    destruct (Schema.read_states opts) as [rest |]; [| discriminate].
    intros [= <-]. cbn [map fst In]. rewrite (IH rest v eq_refl). split.
    + intros [<- | [o' [d [Hin Hi]]]].
      * exists o, b. split; [now left | exact Eo].
      * exists o', d. split; [now right | exact Hi].
    + intros [o' [d [[<- | Hin] Hi]]].
      * left. congruence.
      * right. eauto.
Qed.

(** X12.  The values that the validator accepts for the schema entry of a
    field, whatever page and rectangle the entry received.  A button field
    with two appearance states accepts exactly these two states, with or
    without ["/Off"] among them, and rejects every other value with the
    check box message, which names the two states; a button field with
    another number of states makes the validator raise
    KeyError('checked_value').  A choice field accepts exactly the items
    [state[0]] of its states: the export value of an option given as an
    [[export, display]] array, but only the first character of an option
    given as a plain string, so that with the options "Red" and "Green"
    the value "Red" is rejected and "R" is accepted.  Text fields and
    fields of unknown type accept every value. *)
Theorem validation_accepts_states (field : Extract.pdf_field) (id : string)
    (p : Z) (r : option Extract.pdf_rect) (v : string) :
  let e := Extract.with_location p r
             (fst (Extract.make_field_dict field id)) in
  match Extract.FT field with
  | Extract.FT_Btn [s0; s1] =>
      (v = s0 \/ v = s1 -> validation_error_for_field_value e v = Done None)
      /\ (v <> s0 -> v <> s1 ->
          exists c u,
            validation_error_for_field_value e v
            = Done (Some (ErrCheckbox v id c u))
            /\ (c = s0 /\ u = s1 \/ c = s1 /\ u = s0))
  | Extract.FT_Btn _ =>
      validation_error_for_field_value e v
      = Raised (KeyError "checked_value")
  | Extract.FT_Ch states =>
      (In v (map fst states) ->
       validation_error_for_field_value e v = Done None)
      /\ (~ In v (map fst states) ->
          validation_error_for_field_value e v
          = Done (Some (ErrChoice v id (map fst states))))
      /\ (forall opts,
            Schema.read_states opts = Some states ->
            (validation_error_for_field_value e v = Done None <->
             exists o second,
               In o opts /\ Schema.items o = Some (v, second)))
  | _ => validation_error_for_field_value e v = Done None
  end
  /\ Schema.read_states [Schema.OptText "Red"; Schema.OptText "Green"]
     = Some [("R", "e"); ("G", "r")]
  /\ (let colours :=
        Extract.with_location p r
          (fst (Extract.make_field_dict
                  (Extract.PdfField
                     (Extract.FT_Ch [("R", "e"); ("G", "r")]) false) id)) in
      validation_error_for_field_value colours "Red"
      = Done (Some (ErrChoice "Red" id ["R"; "G"]))
      /\ validation_error_for_field_value colours "R" = Done None).
Proof.
  cbv zeta. split; [| split; [reflexivity | split; reflexivity]].
  unfold Extract.make_field_dict.
  destruct (Extract.FT field) as [| states | states | ft]; try reflexivity.
  - destruct states as [| s0 [| s1 [| s2 states]]]; try reflexivity.
    unfold validation_error_for_field_value, Extract.has_off.
    cbn [existsb].
    destruct (String.eqb_spec s0 "/Off") as [E0 | E0];
      destruct (String.eqb_spec s1 "/Off") as [E1 | E1];
      cbn [orb negb fst Extract.with_values Extract.with_location
           Extract.entry_of Extract.type Extract.field_id
           Extract.checked_value Extract.unchecked_value subscript bind];
      (split;
       [ intros [-> | ->]; subst;
         rewrite ?String.eqb_refl, ?andb_false_r; reflexivity
       | intros H0 H1;
         destruct (String.eqb_spec v s0) as [? | _]; [contradiction |];
         destruct (String.eqb_spec v s1) as [? | _]; [contradiction |];
         subst;
         try (destruct (String.eqb_spec v "/Off") as [? | _];
              [contradiction |]);
         cbn [negb andb]; eexists; eexists; split; [reflexivity |];
         (now left) || (now right) ]).
  - unfold validation_error_for_field_value.
    cbn [fst Extract.with_choice_options Extract.with_location
         Extract.entry_of Extract.type Extract.field_id
         Extract.choice_options subscript bind].
    assert (E : map (fun state : string * string => (fst state, snd state))
                  states = states).
    { clear. induction states as [| [a b] l IH]; cbn; [reflexivity |].
      now rewrite IH. }
    rewrite E. clear E.
    assert (Hyes : In v (map fst states) ->
                   (if not_in v (map fst states)
                    then Done (Some (ErrChoice v id (map fst states)))
                    else Done None) = Done None).
    { intros H. apply not_in_spec in H. now rewrite H. }
    assert (Hno : ~ In v (map fst states) ->
                  (if not_in v (map fst states)
                   then Done (Some (ErrChoice v id (map fst states)))
                   else Done None)
                  = Done (Some (ErrChoice v id (map fst states)))).
    { intros H. destruct (not_in v (map fst states)) eqn:En; [reflexivity |].
      apply not_in_spec in En. contradiction. }
    split; [exact Hyes |]. split; [exact Hno |].
    intros opts Hopts. rewrite <- (read_states_first opts states v Hopts).
    split.
    + intros H. destruct (not_in v (map fst states)) eqn:En;
        [discriminate | now apply not_in_spec].
    + exact Hyes.
Qed.

(** *** Documents without form fields *)

Lemma check_fields_unknown (fields : list assignment) :
  forall has_error w,
  check_fields [] fields has_error w
  = (Done (match fields with [] => has_error | _ => true end),
     printed_more w (map (fun a => ErrFieldId (field_id a)) fields)).
Proof.
  induction fields as [| a fields IH]; intros has_error w.
  - cbn. now rewrite printed_more_nil.
  - cbn [check_fields check_field dict_get map]. unfold io_bind at 1.
    unfold io_bind at 1. unfold print at 1, ret at 1. cbv beta iota.
    rewrite IH. f_equal.
    + now destruct fields.
    + unfold printed_more. cbn. now rewrite <- app_assoc.
Qed.

(** X13.  A document for which [check_form] answers that it has no form
    fields has the empty schema: [get_field_info] returns at once, without
    a warning and without walking a parent chain, and the probe advises the
    overlay filler.  On such a document the native filler rejects every
    non-empty set of assignments: one "not a valid field ID" message per
    assignment, in order, exit status 1, no writer, no output. *)
Theorem not_fillable_document (rd : reader) (fields : list assignment)
    (w0 : world) :
  Probe.check_form rd = false ->
  Probe.main rd = Probe.NotFillable
  /\ Extract.get_field_info (fuel rd) (objects rd) (fields_of rd)
       (pages_of rd) = Done ([], [])
  /\ (fields <> [] ->
      main rd fields w0
      = (Raised (SystemExit 1),
         printed_more w0 (map (fun a => ErrFieldId (field_id a)) fields))).
Proof.
  unfold Probe.main, Probe.check_form, main, fill_pdf_fields.
  destruct (fields_of rd) as [| kv l]; [intros _ | discriminate].
  split; [reflexivity |]. split; [reflexivity |].
  intros Hne. cbn [Extract.get_field_info]. unfold io_bind at 1, lift at 1.
  cbn [fst by_ids fold_left]. unfold io_bind at 1.
  rewrite check_fields_unknown.
  destruct fields as [| a fields]; [congruence |]. reflexivity.
Qed.

Lemma not_fillable_document_witness :
  Probe.check_form (Reader 0 Extract.cyclic_store [] [[Extract.cyclic_annotation]])
  = false
  /\ main (Reader 0 Extract.cyclic_store [] [[Extract.cyclic_annotation]])
       [Assignment "name" 1 (Some "Ann")] initial_world
     = (Raised (SystemExit 1),
        printed_more initial_world [ErrFieldId "name"]).
Proof.
  split; [reflexivity |].
  apply (not_fillable_document
           (Reader 0 Extract.cyclic_store [] [[Extract.cyclic_annotation]])
           [Assignment "name" 1 (Some "Ann")] initial_world);
    [reflexivity | discriminate].
Defined.

End FillingFacts.
